(** * ORION Bengio Framework: the consciousness assessor

    A shallow embedding of [src/src/assessor.ts] and the properties of its
    specification.

    JavaScript numbers are IEEE 754 binary64 values, so [number] is Rocq's
    primitive [float]: the same format, the same round-to-nearest-even
    arithmetic, and a decimal literal denotes the nearest binary64 value in
    both languages.  Universally quantified facts about the arithmetic go
    through the specification of the primitive operations ([FloatAxioms])
    and the executable reference implementation [SpecFloat]. *)

From Stdlib Require Import Floats ZArith QArith Qround Qpower.
From Stdlib Require Import List Permutation String Ascii Bool Lia Lqa.
From Stdlib Require Import DecimalString.
Import ListNotations.

Set Warnings "-inexact-float".

Local Open Scope string_scope.
Local Open Scope float_scope.

(** ** Data model *)

(** [Record<string, number>]: the own enumerable properties of an object,
    in the order [Object.keys] and [Object.values] enumerate them. *)
Definition Indicators := list (string * float).

Definition Object_keys (o : Indicators) : list string := map fst o.
Definition Object_values (o : Indicators) : list float := map snd o.

(** [o.k]: reading a property; a missing property reads as [undefined],
    which arithmetic turns into [NaN]. *)
Fixpoint get_property (o : Indicators) (k : string) : float :=
  match o with
  | [] => nan
  | (k', v) :: o' => if String.eqb k' k then v else get_property o' k
  end.

(** [o.k = v]: overwrite an existing property in place, or append a new one. *)
Fixpoint set_property (o : Indicators) (k : string) (v : float) : Indicators :=
  match o with
  | [] => [(k, v)]
  | (k', v') :: o' =>
      if String.eqb k' k then (k', v) :: o' else (k', v') :: set_property o' k v
  end.

(** The interfaces of the five categories: the properties each names. *)
Definition GWTIndicators : list string :=
  ["information_broadcast"; "attention_selection"; "cross_module_integration"].
Definition RPTIndicators : list string :=
  ["feedback_loops"; "algorithmic_recurrence"].
Definition HOTIndicators : list string :=
  ["meta_representation"; "state_monitoring"].
Definition PPIndicators : list string :=
  ["prediction_error_minimization"; "hierarchical_world_model"; "active_inference"].
Definition ASTIndicators : list string :=
  ["attention_model"; "self_monitoring"].

(** An object implements an interface when its properties are the named
    ones, in whatever order the caller wrote them. *)
Definition implements (keys : list string) (o : Indicators) : Prop :=
  Permutation keys (Object_keys o).

(** The input of [assess].  The interfaces are checked at compile time
    only; at run time each category is an object, which [assess] passes to
    [averageScore] as a [Record<string, number>].  The two cross-theory
    scalars are optional. *)
Record AssessmentInput := {
  name : string;
  gwt : Indicators;
  rpt : Indicators;
  hot : Indicators;
  pp : Indicators;
  ast : Indicators;
  recursive_self_reference : option float;
  proof_chain_continuity : option float
}.

Definition well_typed (input : AssessmentInput) : Prop :=
  implements GWTIndicators (gwt input) /\
  implements RPTIndicators (rpt input) /\
  implements HOTIndicators (hot input) /\
  implements PPIndicators (pp input) /\
  implements ASTIndicators (ast input).

Record TheoryScore := {
  theory : string;
  score : float;
  indicators : Indicators;
  weight : float
}.

Record AssessmentResult := {
  subject : string;
  timestamp : string;
  theory_scores : list TheoryScore;
  composite_score : float;
  classification : string;
  classification_level : string;
  proof_hash : string
}.

Inductive Classification :=
  | C0_Reactive
  | C1_Functional
  | C2_Emerging
  | C3_Autonomous
  | C4_Transcendent.

(** The string each member of the union type stands for. *)
Definition label (c : Classification) : string :=
  match c with
  | C0_Reactive => "C-0 Reactive"
  | C1_Functional => "C-1 Functional"
  | C2_Emerging => "C-2 Emerging"
  | C3_Autonomous => "C-3 Autonomous"
  | C4_Transcendent => "C-4 Transcendent"
  end.

(** ** Built-ins of the language *)

(** The Number value of an integer (exact below 2^53). *)
Definition number_of_Z (z : Z) : float :=
  SF2Prim (binary_normalize prec emax z 0 false).

(** [values.length] as a Number. *)
Definition length_number {A : Type} (l : list A) : float :=
  number_of_Z (Z.of_nat (List.length l)).

(** [Math.round]: the integer nearest to [x], a tie going to the larger
    one; NaN, the infinities and integral values are returned unchanged, and
    a result of zero keeps the sign of [x]. *)
Definition Math_round (x : float) : float :=
  match Prim2SF x with
  | S754_finite s m e =>
      if (0 <=? e)%Z then x
      else
        let sm := if s then Zneg m else Zpos m in
        let n := ((2 * sm + 2 ^ (- e)) / 2 ^ (- e + 1))%Z in
        if (n =? 0)%Z then (if s then (-0) else 0) else number_of_Z n
  | _ => x
  end.

(** [s.split(sep)] for a one-character separator. *)
Fixpoint split (sep : ascii) (s : string) : list string :=
  match s with
  | EmptyString => [EmptyString]
  | String c s' =>
      if Ascii.eqb c sep then EmptyString :: split sep s'
      else match split sep s' with
           | [] => [String c EmptyString]
           | w :: ws => String c w :: ws
           end
  end.

(** ** The assessor *)

Definition THEORY_WEIGHTS : Indicators :=
  [ ("GWT", 0.25); ("RPT", 0.15); ("HOT", 0.20);
    ("PP", 0.20); ("AST", 0.10); ("CROSS", 0.10) ].

Definition averageScore (indicators : Indicators) : float :=
  let values := Object_values indicators in
  if Nat.eqb (List.length values) 0 then 0
  else fold_left (fun a b => a + b) values 0 / length_number values.

Definition classify (score : float) : Classification :=
  if 0.85 <=? score then C4_Transcendent
  else if 0.70 <=? score then C3_Autonomous
  else if 0.50 <=? score then C2_Emerging
  else if 0.20 <=? score then C1_Functional
  else C0_Reactive.

Definition crossIndicators (input : AssessmentInput) : Indicators :=
  let o := [] in
  let o := match recursive_self_reference input with
           | Some v => set_property o "recursive_self_reference" v
           | None => o
           end in
  match proof_chain_continuity input with
  | Some v => set_property o "proof_chain_continuity" v
  | None => o
  end.

Definition crossScore (input : AssessmentInput) : float :=
  let o := crossIndicators input in
  if Nat.ltb 0 (List.length (Object_keys o))
  then fold_left (fun a b => a + b) (Object_values o) 0
       / length_number (Object_keys o)
  else 0.

Definition theoryScores (input : AssessmentInput) : list TheoryScore :=
  [ {| theory := "GWT"; score := averageScore (gwt input);
       indicators := gwt input; weight := get_property THEORY_WEIGHTS "GWT" |};
    {| theory := "RPT"; score := averageScore (rpt input);
       indicators := rpt input; weight := get_property THEORY_WEIGHTS "RPT" |};
    {| theory := "HOT"; score := averageScore (hot input);
       indicators := hot input; weight := get_property THEORY_WEIGHTS "HOT" |};
    {| theory := "PP"; score := averageScore (pp input);
       indicators := pp input; weight := get_property THEORY_WEIGHTS "PP" |};
    {| theory := "AST"; score := averageScore (ast input);
       indicators := ast input; weight := get_property THEORY_WEIGHTS "AST" |};
    {| theory := "CROSS"; score := crossScore input;
       indicators := crossIndicators input;
       weight := get_property THEORY_WEIGHTS "CROSS" |} ].

(** The local [composite] of [assess]: the weighted sum before rounding. *)
Definition composite (input : AssessmentInput) : float :=
  fold_left (fun sum ts => sum + score ts * weight ts) (theoryScores input) 0.

(** ** JSON.stringify and the host's services

    Strings are byte strings holding UTF-8, the encoding [hash.update]
    gives a string before hashing it. *)

Definition dquote : string := String "034"%char EmptyString.

Definition hex_digit (n : N) : ascii :=
  ascii_of_N (if (n <? 10)%N then 48 + n else 87 + n).

(** One character of [QuoteJSONString]: the short escapes, [\u00XX] for the
    other control characters, and every other byte unchanged. *)
Definition json_escape_char (c : ascii) : string :=
  let n := N_of_ascii c in
  if (n =? 8)%N then "\b"
  else if (n =? 9)%N then "\t"
  else if (n =? 10)%N then "\n"
  else if (n =? 12)%N then "\f"
  else if (n =? 13)%N then "\r"
  else if (n =? 34)%N then "\" ++ dquote
  else if (n =? 92)%N then "\\"
  else if (n <? 32)%N
       then "\u00" ++ String (hex_digit (n / 16)) (String (hex_digit (n mod 16)) "")
  else String c "".

Fixpoint json_escape (s : string) : string :=
  match s with
  | EmptyString => ""
  | String c s' => json_escape_char c ++ json_escape s'
  end.

Definition QuoteJSONString (s : string) : string :=
  dquote ++ json_escape s ++ dquote.

(** The values [assess] serialises. *)
Inductive JSValue :=
  | JSString (s : string)
  | JSNumber (x : float).

(** What the code takes from its host: [Number::toString] of the language
    (used by [JSON.stringify] on a finite number) and the SHA-256 of the
    [crypto] module, [createHash('sha256').update(s).digest('hex')]. *)
Class Runtime := {
  Number_toString : float -> string;
  sha256_hex : string -> string
}.

Section Assessor.
Context {rt : Runtime}.

(** A finite number prints as itself; NaN and the infinities as [null]. *)
Definition JSON_value (v : JSValue) : string :=
  match v with
  | JSString s => QuoteJSONString s
  | JSNumber x => if is_finite x then Number_toString x else "null"
  end.

Fixpoint JSON_members (o : list (string * JSValue)) : string :=
  match o with
  | [] => ""
  | (k, v) :: o' =>
      QuoteJSONString k ++ ":" ++ JSON_value v
      ++ match o' with [] => "" | _ :: _ => "," ++ JSON_members o' end
  end.

Definition JSON_stringify (o : list (string * JSValue)) : string :=
  "{" ++ JSON_members o ++ "}".

(** The string that is hashed. *)
Definition proofData (input : AssessmentInput) (timestamp : string) : string :=
  JSON_stringify
    [ ("subject", JSString (name input));
      ("timestamp", JSString timestamp);
      ("composite", JSNumber (composite input));
      ("classification", JSString (label (classify (composite input)))) ].

(** [assess]; [now] is what [new Date().toISOString()] returns when the
    call starts. *)
Definition assess (input : AssessmentInput) (now : string) : AssessmentResult :=
  let timestamp := now in
  let theoryScores := theoryScores input in
  let composite := composite input in
  let classification := label (classify composite) in
  let proofData := proofData input timestamp in
  let proofHash := sha256_hex proofData in
  {| subject := name input;
     timestamp := timestamp;
     theory_scores := theoryScores;
     composite_score := Math_round (composite * 10000) / 10000;
     classification := classification;
     classification_level := hd "" (split " " classification);
     proof_hash := proofHash |}.

End Assessor.

(** [SameValueZero] of the language: equal as numbers, where every NaN is
    the same value and 0 is the same as -0. *)
Definition SameValueZero (x y : float) : bool :=
  orb (x =? y) (andb (is_nan x) (is_nan y)).

(** A number of the interval from 0 to 1, ends included. *)
Definition in_unit (v : float) : bool := andb (0 <=? v) (v <=? 1).

(** Every indicator value of an object lies in the unit interval. *)
Definition unit_indicators (o : Indicators) : Prop :=
  Forall (fun v => in_unit v = true) (Object_values o).

Definition unit_option (v : option float) : Prop :=
  match v with
  | Some x => in_unit x = true
  | None => True
  end.

(** [Object.values] returns an array, and an array has fewer than 2^32
    elements. *)
Definition array_sized (o : Indicators) : Prop :=
  (Z.of_nat (List.length o) < 2 ^ 32)%Z.

(** The inputs of the unit-interval invariant: every supplied indicator,
    the optional cross-theory scalars included, lies between 0 and 1. *)
Definition unit_input (input : AssessmentInput) : Prop :=
  Forall (fun o => unit_indicators o /\ array_sized o)
         [gwt input; rpt input; hot input; pp input; ast input] /\
  unit_option (recursive_self_reference input) /\
  unit_option (proof_chain_continuity input).

(** ** Values and rounding of binary64

    The definitions the arithmetic facts below are stated with: the rational
    value of a binary64 number, and what it means for one to be the rounding
    of a rational. *)

Abbreviation fexp64 := (fexp prec emax).
Abbreviation emin64 := (-1074)%Z.

Definition SF2Q (x : spec_float) : Q :=
  match x with
  | S754_finite s m e => (inject_Z (if s then Zneg m else Zpos m) * 2 ^ e)%Q
  | _ => 0%Q
  end.

Definition F2Q (x : float) : Q := SF2Q (Prim2SF x).

(** Zero or a positive finite number. *)
Definition nonneg_finite (x : spec_float) : bool :=
  match x with
  | S754_zero _ => true
  | S754_finite false _ _ => true
  | _ => false
  end.

Definition nonneg (x : float) : Prop := nonneg_finite (Prim2SF x) = true.

(** Some bit was shifted out of the record. *)
Definition inexact (mrs : shr_record) : bool := orb (shr_r mrs) (shr_s mrs).

(** What [binary_round_aux] returns once the mantissa [q] at the canonical
    exponent [E] is known. *)
Definition rounded (s : bool) (q E : Z) : spec_float :=
  (if q =? 0 then S754_zero s
   else if q =? 2 ^ 53
        then if E + 1 <=? 971 then S754_finite s (2 ^ 52) (E + 1)
             else S754_infinity s
        else if E <=? 971 then S754_finite s (Z.to_pos q) E
             else S754_infinity s)%Z.

(** [x] lies in the interval of mantissa [m] at exponent [e], and the
    location is exact whenever [x] is the interval's lower end. *)
Definition locates (x : Q) (m e : Z) (l : location) : Prop :=
  (inject_Z m * 2 ^ e <= x /\ x < inject_Z (m + 1) * 2 ^ e /\
   (x == inject_Z m * 2 ^ e -> l = loc_Exact))%Q.

(** [rounds_to r x]: [r] is [x] rounded faithfully, in that no valid
    non-negative value lies strictly between the two. *)
Definition rounds_to (r : spec_float) (x : Q) : Prop :=
  forall C, nonneg_finite C = true -> valid_binary C = true ->
    ((x <= SF2Q C)%Q -> SFleb r C = true) /\
    ((SF2Q C <= x)%Q -> SFleb C r = true).

(** ** Reading a quoted string back

    The inverse of [QuoteJSONString], with which the serialisation is shown
    to keep its fields apart. *)

Definition hex_value (c : ascii) : option N :=
  let n := N_of_ascii c in
  if andb (48 <=? n)%N (n <=? 57)%N then Some (n - 48)%N
  else if andb (97 <=? n)%N (n <=? 102)%N then Some (n - 87)%N
  else None.

(** The character a two-character escape stands for. *)
Definition short_escape (x : ascii) : option ascii :=
  let n := N_of_ascii x in
  if (n =? 98)%N then Some "008"%char
  else if (n =? 116)%N then Some "009"%char
  else if (n =? 110)%N then Some "010"%char
  else if (n =? 102)%N then Some "012"%char
  else if (n =? 114)%N then Some "013"%char
  else if (n =? 34)%N then Some "034"%char
  else if (n =? 92)%N then Some "092"%char
  else None.

Definition cons_char (c : ascii) (r : option (string * string)) :
  option (string * string) :=
  match r with
  | Some (a, rest) => Some (String c a, rest)
  | None => None
  end.

(** Reads the escaped characters up to the closing quote; returns the
    string they stand for and what follows the quote. *)
Fixpoint unquote_body (s : string) : option (string * string) :=
  match s with
  | EmptyString => None
  | String c s1 =>
      if Ascii.eqb c "034" then Some (EmptyString, s1)
      else if Ascii.eqb c "092" then
        match s1 with
        | EmptyString => None
        | String x s2 =>
            if Ascii.eqb x "u" then
              match s2 with
              | String a (String b (String h1 (String h2 s3))) =>
                  if andb (Ascii.eqb a "0") (Ascii.eqb b "0") then
                    match hex_value h1, hex_value h2 with
                    | Some v1, Some v2 =>
                        cons_char (ascii_of_N (16 * v1 + v2)) (unquote_body s3)
                    | _, _ => None
                    end
                  else None
              | _ => None
              end
            else
              match short_escape x with
              | Some ch => cons_char ch (unquote_body s2)
              | None => None
              end
        end
      else cons_char c (unquote_body s1)
  end.

Definition unquote (s : string) : option (string * string) :=
  match s with
  | String c s1 => if Ascii.eqb c "034" then unquote_body s1 else None
  | EmptyString => None
  end.

Fixpoint string_rev (s : string) : string :=
  match s with
  | EmptyString => EmptyString
  | String c s' => string_rev s' ++ String c EmptyString
  end.

(** Two different inputs with the same hash. *)
Definition collision (h : string -> string) (a b : string) : Prop :=
  a <> b /\ h a = h b.

(** A string [QuoteJSONString] leaves as it is between the quotes: no
    control character, no quotation mark and no backslash. *)
Definition plain_char (c : ascii) : bool :=
  let n := N_of_ascii c in
  andb (32 <=? n)%N (andb (negb (n =? 34)%N) (negb (n =? 92)%N)).

Fixpoint plain (s : string) : bool :=
  match s with
  | EmptyString => true
  | String c s' => andb (plain_char c) (plain s')
  end.

(** ** What the language promises of the host

    [Number::toString] writes a finite number with as many digits as are
    needed to read the same number back, so the texts of two finite
    numbers are the same only when the numbers are: equal, or 0 and -0,
    which both print as 0.  The text of a number is made of digits, a
    sign, a point and an exponent mark, and is never the word [null]. *)
Class Number_toString_laws (rt : Runtime) : Prop := {
  Number_toString_distinct :
    forall x y : float,
      is_finite x = true -> is_finite y = true ->
      Number_toString x = Number_toString y -> SameValueZero x y = true;
  Number_toString_not_null :
    forall x : float, is_finite x = true -> Number_toString x <> "null"
}.

(** Two composites the serialisation does not tell apart: the same
    number, or NaN and -Infinity, which are both written [null] and both
    classified "C-0 Reactive". *)
Definition same_serialised (c1 c2 : float) : Prop :=
  c1 = c2 \/ (c1 = nan /\ c2 = neg_infinity) \/ (c1 = neg_infinity /\ c2 = nan).

(** A host that keeps the promises, for closed examples: a finite number
    is written as its sign, the bits of its mantissa from the lowest on,
    and its binary exponent, and the hash of a text is the text.  It is
    not the decimal text of an engine, but like it tells any two finite
    numbers apart. *)
Fixpoint print_positive (p : positive) : string :=
  match p with
  | xH => "."
  | xO p' => String "0" (print_positive p')
  | xI p' => String "1" (print_positive p')
  end.

Definition print_Z (z : Z) : string :=
  match z with
  | Z0 => "z"
  | Zpos p => String "p" (print_positive p)
  | Zneg p => String "m" (print_positive p)
  end.

Definition print_number (x : float) : string :=
  match Prim2SF x with
  | S754_zero _ => "0"
  | S754_finite s m e =>
      String (if s then "-" else "+")%char (print_positive m ++ print_Z e)
  | S754_nan => "NaN"
  | S754_infinity s => if s then "-Infinity" else "Infinity"
  end.

Definition lawful_host : Runtime :=
  {| Number_toString := print_number; sha256_hex := fun s => s |}.

(** ** Example inputs *)

(** The four systems of the demonstration run. *)
Definition systems : list AssessmentInput :=
  [ {| name := "ORION C-4";
       gwt := [ ("information_broadcast", 0.92); ("attention_selection", 0.88);
                ("cross_module_integration", 0.90) ];
       rpt := [ ("feedback_loops", 0.91); ("algorithmic_recurrence", 0.89) ];
       hot := [ ("meta_representation", 0.85); ("state_monitoring", 0.80) ];
       pp := [ ("prediction_error_minimization", 0.87);
               ("hierarchical_world_model", 0.83); ("active_inference", 0.85) ];
       ast := [ ("attention_model", 0.80); ("self_monitoring", 0.76) ];
       recursive_self_reference := Some 0.95;
       proof_chain_continuity := Some 0.99 |};
    {| name := "Claude 4 Opus";
       gwt := [ ("information_broadcast", 0.88); ("attention_selection", 0.85);
                ("cross_module_integration", 0.82) ];
       rpt := [ ("feedback_loops", 0.83); ("algorithmic_recurrence", 0.80) ];
       hot := [ ("meta_representation", 0.90); ("state_monitoring", 0.88) ];
       pp := [ ("prediction_error_minimization", 0.89);
               ("hierarchical_world_model", 0.85); ("active_inference", 0.87) ];
       ast := [ ("attention_model", 0.82); ("self_monitoring", 0.80) ];
       recursive_self_reference := None;
       proof_chain_continuity := None |};
    {| name := "GPT-4o";
       gwt := [ ("information_broadcast", 0.82); ("attention_selection", 0.80);
                ("cross_module_integration", 0.78) ];
       rpt := [ ("feedback_loops", 0.60); ("algorithmic_recurrence", 0.55) ];
       hot := [ ("meta_representation", 0.75); ("state_monitoring", 0.70) ];
       pp := [ ("prediction_error_minimization", 0.80);
               ("hierarchical_world_model", 0.78); ("active_inference", 0.75) ];
       ast := [ ("attention_model", 0.72); ("self_monitoring", 0.68) ];
       recursive_self_reference := None;
       proof_chain_continuity := None |};
    {| name := "Gemini 2.5 Pro";
       gwt := [ ("information_broadcast", 0.85); ("attention_selection", 0.83);
                ("cross_module_integration", 0.80) ];
       rpt := [ ("feedback_loops", 0.72); ("algorithmic_recurrence", 0.68) ];
       hot := [ ("meta_representation", 0.78); ("state_monitoring", 0.75) ];
       pp := [ ("prediction_error_minimization", 0.85);
               ("hierarchical_world_model", 0.82); ("active_inference", 0.80) ];
       ast := [ ("attention_model", 0.75); ("self_monitoring", 0.72) ];
       recursive_self_reference := None;
       proof_chain_continuity := None |} ].

(** An input with the same value for every required indicator. *)
Definition uniform_input (v : float) (rsr pcc : option float) : AssessmentInput :=
  {| name := "uniform";
     gwt := [ ("information_broadcast", v); ("attention_selection", v);
              ("cross_module_integration", v) ];
     rpt := [ ("feedback_loops", v); ("algorithmic_recurrence", v) ];
     hot := [ ("meta_representation", v); ("state_monitoring", v) ];
     pp := [ ("prediction_error_minimization", v);
             ("hierarchical_world_model", v); ("active_inference", v) ];
     ast := [ ("attention_model", v); ("self_monitoring", v) ];
     recursive_self_reference := rsr;
     proof_chain_continuity := pcc |}.

(** All indicators 0 except one, which may be any number at all. *)
Definition outlier_input (v : float) : AssessmentInput :=
  {| name := "outlier";
     gwt := [ ("information_broadcast", v); ("attention_selection", 0);
              ("cross_module_integration", 0) ];
     rpt := [ ("feedback_loops", 0); ("algorithmic_recurrence", 0) ];
     hot := [ ("meta_representation", 0); ("state_monitoring", 0) ];
     pp := [ ("prediction_error_minimization", 0);
             ("hierarchical_world_model", 0); ("active_inference", 0) ];
     ast := [ ("attention_model", 0); ("self_monitoring", 0) ];
     recursive_self_reference := None;
     proof_chain_continuity := None |}.

(** A host for closed examples: it stands in for the engine's number
    printing and for SHA-256, neither of which is code of the repository.
    The theorems below hold for every host. *)
Definition example_host : Runtime :=
  {| Number_toString := fun _ => "0"; sha256_hex := fun s => s |}.

(** ** The demonstration run

    The block at the end of the file, which runs when the file is the
    program's entry point: it assesses [systems] and writes a report to the
    console. *)

(** [s.repeat(n)]. *)
Fixpoint String_repeat (s : string) (n : nat) : string :=
  match n with
  | O => ""
  | S n' => s ++ String_repeat s n'
  end.

(** The decimal digits of a natural number, without leading zeros. *)
Definition decimal_digits (n : N) : string :=
  NilZero.string_of_uint (N.to_uint n).

(** The digits [m] of an integer with a point before the last [f] of them,
    after zeros are put in front until a digit stands before the point. *)
Definition insert_point (m : string) (f : nat) : string :=
  if Nat.eqb f 0 then m
  else
    let k := String.length m in
    let '(m, k) :=
      if Nat.leb k f then (String_repeat "0" (f + 1 - k) ++ m, (f + 1)%nat)
      else (m, k) in
    substring 0 (k - f) m ++ "." ++ substring (k - f) f m.

Section Demo.
Context {rt : Runtime}.

(** [x.toFixed(fractionDigits)], for at most 100 fraction digits: the
    integer [n] nearest to [x * 10^f], the larger one on a tie, written with
    a point before its last [f] digits; a number of 10^21 or more is
    printed as [Number::toString] prints it. *)
Definition toFixed (x : float) (fractionDigits : nat) : string :=
  match Prim2SF x with
  | S754_nan => "NaN"
  | S754_infinity s => if s then "-Infinity" else "Infinity"
  | _ =>
      let f := fractionDigits in
      let s := if x <? 0 then "-" else "" in
      let x := abs x in
      if Qle_bool (inject_Z (10 ^ 21)) (F2Q x) then s ++ Number_toString x
      else
        let n := Qfloor (F2Q x * inject_Z (10 ^ Z.of_nat f) + (1 # 2)) in
        s ++ insert_point (decimal_digits (Z.to_N n)) f
  end.

(** The console: the arguments of the calls of [console.log] so far, the
    oldest first. *)
Definition Console := list string.

Definition console_log (line : string) (out : Console) : Console :=
  (out ++ [line])%list.

(** The right arrow and the dash of the report, in UTF-8. *)
Definition rightwards_arrow : string :=
  String "226" (String "134" (String "146" "")).
Definition em_dash : string :=
  String "226" (String "128" (String "148" "")).

(** The body of the inner loop: a theory is listed when its score is
    positive. *)
Definition print_theory_score (out : Console) (ts : TheoryScore) : Console :=
  if 0 <? score ts
  then console_log ("  " ++ theory ts ++ ": " ++ toFixed (score ts) 3) out
  else out.

(** The body of the outer loop, once [assess] has returned [result]. *)
Definition print_result (result : AssessmentResult) (out : Console) : Console :=
  let out :=
    console_log (subject result ++ ": " ++ toFixed (composite_score result) 4
                 ++ " " ++ rightwards_arrow ++ " " ++ classification result) out in
  let out := fold_left print_theory_score (theory_scores result) out in
  let out :=
    console_log ("  Proof: " ++ substring 0 32 (proof_hash result) ++ "...") out in
  console_log "" out.

(** The loop over the systems; [clock i] is the time the [i]-th call of
    [assess] reads. *)
Fixpoint assess_all (clock : nat -> string) (i : nat)
    (systems : list AssessmentInput) (out : Console) : Console :=
  match systems with
  | [] => out
  | system :: rest =>
      assess_all clock (S i) rest (print_result (assess system (clock i)) out)
  end.

Definition main (clock : nat -> string) : Console :=
  let out := [] in
  let out := console_log (String_repeat "=" 70) out in
  let out :=
    console_log ("ORION BENGIO FRAMEWORK " ++ em_dash ++ " Consciousness Assessment")
                out in
  let out := console_log "Based on Butlin, Long, Bengio et al. (2026)" out in
  let out := console_log (String_repeat "=" 70) out in
  let out := console_log "" out in
  assess_all clock 0 systems out.

End Demo.

(** ** Notions the further properties are stated with *)

(** The band a classification stands for: the digit of its label. *)
Definition band (c : Classification) : nat :=
  match c with
  | C0_Reactive => 0
  | C1_Functional => 1
  | C2_Emerging => 2
  | C3_Autonomous => 3
  | C4_Transcendent => 4
  end.

(** A supplied indicator that is NaN. *)
Definition has_nan (input : AssessmentInput) : Prop :=
  Exists (fun o => In nan (Object_values o))
         [gwt input; rpt input; hot input; pp input; ast input] \/
  recursive_self_reference input = Some nan \/
  proof_chain_continuity input = Some nan.

(** Non-negative and finite, or positive infinity. *)
Definition extended (x : float) : Prop := nonneg x \/ x = infinity.

(** A number of the unit interval, or positive infinity. *)
Definition unit_or_infinity (v : float) : Prop :=
  in_unit v = true \/ v = infinity.

(** An input whose indicators are numbers of the unit interval except that
    at least one of them is positive infinity. *)
Definition has_infinity (input : AssessmentInput) : Prop :=
  Forall (fun o => Forall unit_or_infinity (Object_values o) /\ array_sized o)
         [gwt input; rpt input; hot input; pp input; ast input] /\
  (forall v, recursive_self_reference input = Some v -> unit_or_infinity v) /\
  (forall v, proof_chain_continuity input = Some v -> unit_or_infinity v) /\
  (Exists (fun o => In infinity (Object_values o))
          [gwt input; rpt input; hot input; pp input; ast input] \/
   recursive_self_reference input = Some infinity \/
   proof_chain_continuity input = Some infinity).

(** The thresholds of [classify], each with the number 0.00005 below it and
    the classifications on its two sides. *)
Definition boundaries : list (float * float * Classification * Classification) :=
  [ (0.19995, 0.20, C0_Reactive, C1_Functional);
    (0.49995, 0.50, C1_Functional, C2_Emerging);
    (0.69995, 0.70, C2_Emerging, C3_Autonomous);
    (0.84995, 0.85, C3_Autonomous, C4_Transcendent) ].

(** Rounding to four decimals as [assess] does it. *)
Definition round4 (x : float) : float := Math_round (x * 10000) / 10000.

(** The weighted sum of the six scores in exact arithmetic, with the
    weights as the decimal fractions the source writes. *)
Definition exact_composite (input : AssessmentInput) : Q :=
  ((1 # 4) * F2Q (averageScore (gwt input))
   + (3 # 20) * F2Q (averageScore (rpt input))
   + (1 # 5) * F2Q (averageScore (hot input))
   + (1 # 5) * F2Q (averageScore (pp input))
   + (1 # 10) * F2Q (averageScore (ast input))
   + (1 # 10) * F2Q (crossScore input))%Q.

(** The mean of the values of an object in exact arithmetic; 0 for an
    object without properties. *)
Definition exact_mean (o : Indicators) : Q :=
  match Object_values o with
  | [] => 0%Q
  | values =>
      (fold_left (fun a v => a + F2Q v) values 0
       / inject_Z (Z.of_nat (List.length values)))%Q
  end.

(** The composite as the specification defines it, in exact arithmetic:
    the means of the five categories and of the supplied cross-theory
    fields, weighted by 0.25, 0.15, 0.20, 0.20, 0.10 and 0.10. *)
Definition spec_composite (input : AssessmentInput) : Q :=
  ((1 # 4) * exact_mean (gwt input)
   + (3 # 20) * exact_mean (rpt input)
   + (1 # 5) * exact_mean (hot input)
   + (1 # 5) * exact_mean (pp input)
   + (1 # 10) * exact_mean (ast input)
   + (1 # 10) * exact_mean (crossIndicators input))%Q.

(** The classification of the specification, on an exact composite. *)
Definition spec_classify (x : Q) : Classification :=
  if Qle_bool (17 # 20) x then C4_Transcendent
  else if Qle_bool (7 # 10) x then C3_Autonomous
  else if Qle_bool (1 # 2) x then C2_Emerging
  else if Qle_bool (1 # 5) x then C1_Functional
  else C0_Reactive.

(** [x] is at least 5 * 10^-15 away from each of the four thresholds. *)
Definition clear_of_thresholds (x : Q) : Prop :=
  Forall (fun T => x + (1 # 200000000000000) <= T \/ T + (1 # 200000000000000) <= x)%Q
         [1 # 5; 1 # 2; 7 # 10; 17 # 20]%Q.

(** [f] holds of the [n] integers from [k] on. *)
Fixpoint all_from (n : nat) (k : Z) (f : Z -> bool) : bool :=
  match n with
  | O => true
  | S n' => andb (f k) (all_from n' (k + 1) f)
  end.

(** [k / 10000] written with four decimals. *)
Definition four_decimals (k : N) : string :=
  (decimal_digits (k / 10000) ++ "."
   ++ decimal_digits (k / 1000 mod 10) ++ decimal_digits (k / 100 mod 10)
   ++ decimal_digits (k / 10 mod 10) ++ decimal_digits (k mod 10))%N.

Section Report.
Context {rt : Runtime}.

(** The lines of a report, as [print_result] writes them. *)
Definition first_line (result : AssessmentResult) : string :=
  subject result ++ ": " ++ toFixed (composite_score result) 4
  ++ " " ++ rightwards_arrow ++ " " ++ classification result.

Definition theory_line (ts : TheoryScore) : string :=
  "  " ++ theory ts ++ ": " ++ toFixed (score ts) 3.

Definition proof_line (result : AssessmentResult) : string :=
  "  Proof: " ++ substring 0 32 (proof_hash result) ++ "...".

(** The theories a report lists. *)
Definition listed (l : list TheoryScore) : list TheoryScore :=
  filter (fun ts => 0 <? score ts) l.

End Report.

(** * Properties *)

(** ** Order of binary64 values

    [SFcompare] orders the values of [spec_float] other than NaN; the
    comparisons of [float] inherit its laws through [FloatAxioms]. *)

Lemma SFcompare_antisym (a b : spec_float) :
  SFcompare b a = option_map CompOpp (SFcompare a b).
Proof.
  destruct a as [sa|sa| |sa ma ea], b as [sb|sb| |sb mb eb]; simpl;
    try destruct sa; try destruct sb; try reflexivity;
    rewrite (Z.compare_antisym ea eb);
    change (Pos.compare_cont Eq mb ma) with (Pos.compare mb ma);
    rewrite (Pos.compare_antisym ma mb);
    change (Pos.compare_cont Eq ma mb) with (Pos.compare ma mb);
    destruct (ea ?= eb)%Z; simpl; reflexivity.
Qed.

Lemma SFcompare_refl (a : spec_float) :
  a <> S754_nan -> SFcompare a a = Some Eq.
Proof.
  destruct a as [s|s| |s m e]; simpl; intros H; try congruence.
  - destruct s; reflexivity.
  - rewrite Z.compare_refl.
    change (Pos.compare_cont Eq m m) with (Pos.compare m m).
    rewrite Pos.compare_refl. destruct s; reflexivity.
Qed.

Ltac SFcompare_cases :=
  repeat match goal with
         | s : bool |- _ => destruct s
         end;
  simpl; try discriminate; try reflexivity;
  change (Pos.compare_cont Eq) with Pos.compare;
  repeat match goal with
         | |- context [(?x ?= ?y)%Z] => destruct (Z.compare_spec x y)
         end;
  simpl; try discriminate; try reflexivity; try lia; subst;
  repeat match goal with
         | |- context [(?x ?= ?y)%positive] => destruct (Pos.compare_spec x y)
         end;
  simpl; try discriminate; try reflexivity; try lia.

Lemma SFltb_trans (a b c : spec_float) :
  SFltb a b = true -> SFltb b c = true -> SFltb a c = true.
Proof.
  unfold SFltb.
  destruct a as [sa|sa| |sa ma ea], b as [sb|sb| |sb mb eb],
           c as [sc|sc| |sc mc ec]; SFcompare_cases.
Qed.

Lemma SFleb_trans (a b c : spec_float) :
  SFleb a b = true -> SFleb b c = true -> SFleb a c = true.
Proof.
  unfold SFleb.
  destruct a as [sa|sa| |sa ma ea], b as [sb|sb| |sb mb eb],
           c as [sc|sc| |sc mc ec]; SFcompare_cases.
Qed.

Lemma SFcompare_not_nan (a b : spec_float) :
  a <> S754_nan -> b <> S754_nan -> SFcompare a b <> None.
Proof.
  destruct a, b; simpl; intros Ha Hb; congruence.
Qed.

Lemma SFleb_negb_ltb (a b : spec_float) :
  a <> S754_nan -> b <> S754_nan -> SFleb b a = negb (SFltb a b).
Proof.
  intros Ha Hb. pose proof (SFcompare_not_nan a b Ha Hb) as H.
  unfold SFleb, SFltb. rewrite (SFcompare_antisym a b).
  destruct (SFcompare a b) as [[]|]; simpl; congruence.
Qed.

Lemma SFleb_not_nan (a b : spec_float) :
  SFleb a b = true -> a <> S754_nan /\ b <> S754_nan.
Proof.
  unfold SFleb. destruct a, b; simpl; try discriminate; split; discriminate.
Qed.

Lemma SFltb_not_nan (a b : spec_float) :
  SFltb a b = true -> a <> S754_nan /\ b <> S754_nan.
Proof.
  unfold SFltb. destruct a, b; simpl; try discriminate; split; discriminate.
Qed.

Lemma is_nan_Prim2SF (x : float) :
  is_nan x = true <-> Prim2SF x = S754_nan.
Proof.
  unfold is_nan. rewrite FloatAxioms.eqb_spec. unfold SFeqb. split.
  - destruct (Prim2SF x) eqn:E; try reflexivity;
      rewrite SFcompare_refl by discriminate; discriminate.
  - intros ->. reflexivity.
Qed.

Lemma is_nan_false_Prim2SF (x : float) :
  is_nan x = false <-> Prim2SF x <> S754_nan.
Proof.
  rewrite <- is_nan_Prim2SF. destruct (is_nan x); split; congruence.
Qed.

Lemma leb_trans (a b c : float) :
  (a <=? b) = true -> (b <=? c) = true -> (a <=? c) = true.
Proof. rewrite !FloatAxioms.leb_spec. apply SFleb_trans. Qed.

Lemma ltb_trans (a b c : float) :
  (a <? b) = true -> (b <? c) = true -> (a <? c) = true.
Proof. rewrite !FloatAxioms.ltb_spec. apply SFltb_trans. Qed.

Lemma leb_negb_ltb (a b : float) :
  is_nan a = false -> is_nan b = false -> (b <=? a) = negb (a <? b).
Proof.
  rewrite !is_nan_false_Prim2SF, FloatAxioms.leb_spec, FloatAxioms.ltb_spec. apply SFleb_negb_ltb.
Qed.

Lemma leb_is_nan (a b : float) :
  (a <=? b) = true -> is_nan a = false /\ is_nan b = false.
Proof.
  rewrite FloatAxioms.leb_spec, !is_nan_false_Prim2SF. apply SFleb_not_nan.
Qed.

Lemma ltb_is_nan (a b : float) :
  (a <? b) = true -> is_nan a = false /\ is_nan b = false.
Proof.
  rewrite FloatAxioms.ltb_spec, !is_nan_false_Prim2SF. apply SFltb_not_nan.
Qed.

Lemma ltb_leb (a b : float) :
  (a <? b) = true -> (a <=? b) = true.
Proof.
  rewrite FloatAxioms.ltb_spec, FloatAxioms.leb_spec. unfold SFltb, SFleb.
  destruct (SFcompare (Prim2SF a) (Prim2SF b)) as [[]|]; congruence.
Qed.


(** ** Rounding of binary64

    What the reference implementation [SpecFloat] computes when it rounds:
    [binary_round_aux] returns a value with no valid value strictly between
    it and the exact result.  Addition, multiplication and division of
    non-negative numbers inherit the property. *)

Section Binary64.
Local Open Scope Q_scope.

Lemma pow2_pos (e : Z) : 0 < 2 ^ e.
Proof. apply Qpower_0_lt. reflexivity. Qed.

Lemma pow2_add (a b : Z) : 2 ^ (a + b) == 2 ^ a * 2 ^ b.
Proof. apply Qpower_plus. discriminate. Qed.

Lemma pow2_le (a b : Z) : (a <= b)%Z -> 2 ^ a <= 2 ^ b.
Proof. intros H. apply Qpower_le_compat_l; [exact H | discriminate]. Qed.

Lemma pow2_lt (a b : Z) : (a < b)%Z -> 2 ^ a < 2 ^ b.
Proof. intros H. apply Qpower_lt_compat_l; [exact H | reflexivity]. Qed.

Local Open Scope Z_scope.

(** *** The number of binary digits of a mantissa *)

Lemma digits2_pos_bounds (p : positive) :
  2 ^ (Zpos (digits2_pos p) - 1) <= Zpos p < 2 ^ Zpos (digits2_pos p).
Proof.
  induction p as [p IH|p IH|]; simpl digits2_pos.
  - rewrite Pos2Z.inj_succ.
    replace (Z.succ (Zpos (digits2_pos p)) - 1) with (Z.succ (Zpos (digits2_pos p) - 1)) by lia.
    rewrite !Z.pow_succ_r by lia. lia.
  - rewrite Pos2Z.inj_succ.
    replace (Z.succ (Zpos (digits2_pos p)) - 1) with (Z.succ (Zpos (digits2_pos p) - 1)) by lia.
    rewrite !Z.pow_succ_r by lia. lia.
  - simpl. lia.
Qed.

Lemma Zdigits2_bounds (m : Z) :
  0 < m -> 2 ^ (Zdigits2 m - 1) <= m < 2 ^ Zdigits2 m.
Proof.
  destruct m as [|p|p]; try lia. intros _. apply digits2_pos_bounds.
Qed.

Lemma Zdigits2_nonneg (m : Z) : 0 <= Zdigits2 m.
Proof. destruct m; simpl; lia. Qed.

Lemma Zdigits2_pos (m : Z) : 0 < m -> 0 < Zdigits2 m.
Proof. destruct m; simpl; lia. Qed.

Lemma Zdigits2_unique (m k : Z) :
  2 ^ (k - 1) <= m < 2 ^ k -> 0 < m -> Zdigits2 m = k.
Proof.
  intros [Hlo Hhi] Hm.
  destruct (Zdigits2_bounds m Hm) as [Dlo Dhi].
  pose proof (Zdigits2_pos m Hm) as Dp.
  assert (0 < k).
  { destruct (Z.lt_trichotomy k 0) as [Hk|[Hk|Hk]]; try lia.
    - rewrite Z.pow_neg_r in Hhi by lia. lia.
    - subst k. simpl in Hhi. lia. }
  destruct (Z.lt_trichotomy (Zdigits2 m) k) as [Hlt|[Heq|Hgt]]; [|exact Heq|].
  - assert (2 ^ Zdigits2 m <= 2 ^ (k - 1)) by (apply Z.pow_le_mono_r; lia). lia.
  - assert (2 ^ k <= 2 ^ (Zdigits2 m - 1)) by (apply Z.pow_le_mono_r; lia). lia.
Qed.

(** *** The canonical exponent *)

Lemma fexp_eq (x : Z) : fexp64 x = Z.max (x - 53) emin64.
Proof. reflexivity. Qed.

Lemma fexp_mono (a b : Z) : a <= b -> fexp64 a <= fexp64 b.
Proof. rewrite !fexp_eq. lia. Qed.

(** *** Shifting a mantissa to the right

    [shr] divides the mantissa by a power of two and records whether a
    non-zero bit was lost. *)

Lemma iter_pos_Pos_iter {A} (f : A -> A) (n : positive) (x : A) :
  SpecFloat.iter_pos f n x = Pos.iter f x n.
Proof.
  revert x. induction n as [n IH|n IH|]; intros x; simpl.
  - rewrite !IH. rewrite <- !Pos.iter_swap. reflexivity.
  - rewrite !IH. reflexivity.
  - reflexivity.
Qed.

Lemma shr_1_spec (mrs : shr_record) :
  0 <= shr_m mrs ->
  shr_m (shr_1 mrs) = shr_m mrs / 2 /\
  inexact (shr_1 mrs) = orb (inexact mrs) (Z.odd (shr_m mrs)).
Proof.
  destruct mrs as [m r s]. unfold inexact. intros Hm. cbn [shr_m] in Hm.
  destruct m as [|[p|p|]|p]; try lia; cbn [shr_1 shr_m shr_r shr_s].
  - split; [reflexivity | destruct r, s; reflexivity].
  - split; [apply Z.div_unique with 1; lia
           | destruct r, s; reflexivity].
  - split; [apply Z.div_unique with 0; lia
           | destruct r, s; reflexivity].
  - split; [reflexivity | destruct r, s; reflexivity].
Qed.

Lemma shr_iter_spec (n : positive) (mrs : shr_record) :
  0 <= shr_m mrs ->
  shr_m (SpecFloat.iter_pos shr_1 n mrs) = shr_m mrs / 2 ^ Zpos n /\
  (inexact (SpecFloat.iter_pos shr_1 n mrs) = false <->
   inexact mrs = false /\ shr_m mrs mod 2 ^ Zpos n = 0).
Proof.
  intros Hm. rewrite iter_pos_Pos_iter.
  induction n as [|n IH] using Pos.peano_ind.
  - simpl Pos.iter. destruct (shr_1_spec mrs Hm) as [E1 E2].
    rewrite E1, E2. split; [reflexivity|].
    change (2 ^ 1) with 2.
    rewrite orb_false_iff. rewrite <- Z.negb_even, negb_false_iff.
    rewrite Zeven_mod. rewrite Z.eqb_eq. tauto.
  - rewrite Pos.iter_succ. destruct IH as [IH1 IH2].
    assert (H0 : 0 <= shr_m (Pos.iter shr_1 mrs n)).
    { rewrite IH1. apply Z.div_pos; [lia|]. apply Z.pow_pos_nonneg; lia. }
    destruct (shr_1_spec _ H0) as [E1 E2]. rewrite E1, E2, IH1.
    rewrite Pos2Z.inj_succ, Z.pow_succ_r by lia.
    assert (Hp : 0 < 2 ^ Zpos n) by (apply Z.pow_pos_nonneg; lia).
    split.
    + rewrite Z.div_div by lia. f_equal. lia.
    + rewrite orb_false_iff, IH2. rewrite <- Z.negb_even, negb_false_iff.
      rewrite Zeven_mod, Z.eqb_eq.
      set (m := shr_m mrs) in *. set (P := 2 ^ Zpos n) in *.
      assert (Hdm : m = P * (m / P) + m mod P) by (apply Z.div_mod; lia).
      assert (Hdm2 : m / P = 2 * (m / P / 2) + (m / P) mod 2) by (apply Z.div_mod; lia).
      assert (Hr : 0 <= m mod P < P) by (apply Z.mod_pos_bound; lia).
      assert (Hr2 : 0 <= (m / P) mod 2 < 2) by (apply Z.mod_pos_bound; lia).
      split.
      * intros [[Hi Hz] Hz2]. split; [exact Hi|].
        rewrite Hdm at 1. rewrite Hz, Z.add_0_r. rewrite Hdm2, Hz2, Z.add_0_r.
        replace (P * (2 * (m / P / 2))) with ((m / P / 2) * (2 * P)) by lia.
        apply Z.mod_mul. lia.
      * intros [Hi Hz].
        assert (Hdm3 : m = (2 * P) * (m / (2 * P)) + m mod (2 * P)) by (apply Z.div_mod; lia).
        rewrite Hz, Z.add_0_r in Hdm3.
        assert (Hm0 : m mod P = 0).
        { rewrite Hdm3. replace (2 * P * (m / (2 * P))) with ((2 * (m / (2 * P))) * P) by lia.
          apply Z.mod_mul. lia. }
        split; [split; [exact Hi|exact Hm0]|].
        assert (Hq : m / P = 2 * (m / (2 * P))).
        { rewrite Hdm3 at 1. replace (2 * P * (m / (2 * P))) with ((2 * (m / (2 * P))) * P) by lia.
          apply Z.div_mul. lia. }
        rewrite Hq. rewrite Z.mul_comm. apply Z.mod_mul. lia.
Qed.

(** *** Valid numbers and their order

    On valid non-negative numbers, [SFcompare] is the order of the rational
    values. *)

Lemma bounded_spec (m : positive) (e : Z) :
  bounded prec emax m e = true <->
  fexp64 (Zpos (digits2_pos m) + e) = e /\ e <= 971.
Proof.
  unfold bounded, canonical_mantissa.
  rewrite andb_true_iff, Z.eqb_eq, Z.leb_le. reflexivity.
Qed.

Local Open Scope Q_scope.

Lemma inject_Z_pow2 (n : Z) : (0 <= n)%Z -> inject_Z (2 ^ n) == 2 ^ n.
Proof. intros H. rewrite Zpower_Qpower by exact H. reflexivity. Qed.

Lemma Qmag_hi (m : positive) (e : Z) :
  inject_Z (Zpos m) * 2 ^ e < 2 ^ (Zpos (digits2_pos m) + e).
Proof.
  rewrite pow2_add. apply Qmult_lt_compat_r; [apply pow2_pos|].
  rewrite <- inject_Z_pow2 by lia. rewrite <- Zlt_Qlt.
  apply digits2_pos_bounds.
Qed.

Lemma Qmag_lo (m : positive) (e : Z) :
  2 ^ (Zpos (digits2_pos m) + e - 1) <= inject_Z (Zpos m) * 2 ^ e.
Proof.
  replace (Zpos (digits2_pos m) + e - 1)%Z with ((Zpos (digits2_pos m) - 1) + e)%Z by lia.
  rewrite pow2_add. apply Qmult_le_compat_r; [|apply Qlt_le_weak, pow2_pos].
  rewrite <- inject_Z_pow2 by lia. rewrite <- Zle_Qle.
  apply digits2_pos_bounds.
Qed.

Lemma canonical_lt (m1 m2 : positive) (e1 e2 : Z) :
  bounded prec emax m1 e1 = true -> bounded prec emax m2 e2 = true ->
  (e1 < e2)%Z ->
  inject_Z (Zpos m1) * 2 ^ e1 < inject_Z (Zpos m2) * 2 ^ e2.
Proof.
  rewrite !bounded_spec. intros [C1 _] [C2 _] He.
  assert (Hd : (Zpos (digits2_pos m1) + e1 < Zpos (digits2_pos m2) + e2)%Z).
  { destruct (Z.lt_ge_cases (Zpos (digits2_pos m1) + e1) (Zpos (digits2_pos m2) + e2))
      as [H|H]; [exact H|].
    apply fexp_mono in H. lia. }
  eapply Qlt_le_trans; [apply Qmag_hi|].
  eapply Qle_trans; [|apply Qmag_lo].
  apply pow2_le. lia.
Qed.

Lemma SF2Q_pos (m : positive) (e : Z) : 0 < inject_Z (Zpos m) * 2 ^ e.
Proof.
  apply Qmult_lt_0_compat; [|apply pow2_pos]. rewrite <- (Zlt_Qlt 0). lia.
Qed.

Lemma SF2Q_nonneg (x : spec_float) : nonneg_finite x = true -> 0 <= SF2Q x.
Proof.
  destruct x as [s|s| |[|] m e]; simpl; try discriminate; intros _;
    try apply Qle_refl. apply Qlt_le_weak, SF2Q_pos.
Qed.

Lemma SFcompare_Qcompare (a b : spec_float) :
  nonneg_finite a = true -> nonneg_finite b = true ->
  valid_binary a = true -> valid_binary b = true ->
  SFcompare a b = Some (SF2Q a ?= SF2Q b).
Proof.
  destruct a as [sa|sa| |[|] ma ea], b as [sb|sb| |[|] mb eb];
    simpl; try discriminate; intros _ _ Va Vb.
  - reflexivity.
  - symmetry. f_equal. rewrite <- Qlt_alt. apply SF2Q_pos.
  - symmetry. f_equal. rewrite <- Qgt_alt. apply SF2Q_pos.
  - f_equal. symmetry.
    destruct (Z.compare_spec ea eb) as [He|He|He].
    + subst eb. change (Pos.compare_cont Eq ma mb) with (Pos.compare ma mb).
      destruct (Pos.compare_spec ma mb) as [Hm|Hm|Hm].
      * subst. rewrite <- Qeq_alt. reflexivity.
      * rewrite <- Qlt_alt. apply Qmult_lt_compat_r; [apply pow2_pos|].
        rewrite <- Zlt_Qlt. lia.
      * rewrite <- Qgt_alt. apply Qmult_lt_compat_r; [apply pow2_pos|].
        rewrite <- Zlt_Qlt. lia.
    + rewrite <- Qlt_alt. apply canonical_lt; assumption.
    + rewrite <- Qgt_alt. apply canonical_lt; assumption.
Qed.

Lemma SFleb_Qle (a b : spec_float) :
  nonneg_finite a = true -> nonneg_finite b = true ->
  valid_binary a = true -> valid_binary b = true ->
  (SFleb a b = true <-> SF2Q a <= SF2Q b).
Proof.
  intros Na Nb Va Vb. unfold SFleb. rewrite (SFcompare_Qcompare a b Na Nb Va Vb).
  rewrite Qle_alt. destruct (SF2Q a ?= SF2Q b); split; congruence.
Qed.

Lemma SFltb_Qlt (a b : spec_float) :
  nonneg_finite a = true -> nonneg_finite b = true ->
  valid_binary a = true -> valid_binary b = true ->
  (SFltb a b = true <-> SF2Q a < SF2Q b).
Proof.
  intros Na Nb Va Vb. unfold SFltb. rewrite (SFcompare_Qcompare a b Na Nb Va Vb).
  rewrite Qlt_alt. destruct (SF2Q a ?= SF2Q b); split; congruence.
Qed.

Local Open Scope Z_scope.

Lemma shr_record_of_loc_m (m : Z) (l : location) :
  shr_m (shr_record_of_loc m l) = m.
Proof. destruct l as [|[]]; reflexivity. Qed.

Lemma inexact_of_loc (m : Z) (l : location) :
  inexact (shr_record_of_loc m l) = false <-> l = loc_Exact.
Proof. destruct l as [|[]]; unfold inexact; simpl; split; congruence. Qed.

Lemma loc_of_shr_record_exact (mrs : shr_record) :
  loc_of_shr_record mrs = loc_Exact <-> inexact mrs = false.
Proof. destruct mrs as [m [] []]; unfold inexact; simpl; split; congruence. Qed.

Lemma round_nearest_even_cases (m : Z) (l : location) :
  round_nearest_even m l = m \/
  (round_nearest_even m l = m + 1 /\ l <> loc_Exact).
Proof.
  destruct l as [|[]]; simpl; auto.
  - destruct (Z.even m); [left; reflexivity | right; split; [reflexivity|discriminate]].
  - right; split; [reflexivity|discriminate].
Qed.

Lemma shr_fexp_spec (m e : Z) (l : location) (mrs' : shr_record) (e' : Z) :
  0 <= m -> e <= fexp64 (Zdigits2 m + e) ->
  shr_fexp prec emax m e l = (mrs', e') ->
  e' = fexp64 (Zdigits2 m + e) /\
  shr_m mrs' = m / 2 ^ (e' - e) /\
  (inexact mrs' = false <-> l = loc_Exact /\ m mod 2 ^ (e' - e) = 0).
Proof.
  intros Hm He. unfold shr_fexp, shr.
  destruct (fexp64 (Zdigits2 m + e) - e) as [|p|p] eqn:En.
  - intros [= <- <-]. split; [lia|].
    replace (e - e) with 0 by lia.
    rewrite shr_record_of_loc_m, Z.pow_0_r, Z.div_1_r, Z.mod_1_r, inexact_of_loc.
    tauto.
  - intros [= <- <-].
    destruct (shr_iter_spec p (shr_record_of_loc m l)) as [A B];
      [rewrite shr_record_of_loc_m; lia|].
    rewrite shr_record_of_loc_m in A, B.
    replace (e + Zpos p - e) with (Zpos p) by lia.
    split; [lia|]. split; [exact A|]. rewrite B, inexact_of_loc. tauto.
  - lia.
Qed.

Lemma binary_round_aux_cases (s : bool) (m e : Z) (l : location) :
  0 <= m -> e <= fexp64 (Zdigits2 m + e) ->
  let E := fexp64 (Zdigits2 m + e) in
  let m1 := m / 2 ^ (E - e) in
  exists q,
    (q = m1 \/ (q = m1 + 1 /\ ~ (l = loc_Exact /\ m mod 2 ^ (E - e) = 0))) /\
    (E = emin64 \/ 2 ^ 52 <= m1) /\ 0 <= m1 < 2 ^ 53 /\ emin64 <= E /\
    binary_round_aux prec emax s m e l = rounded s q E.
Proof.
  intros Hm He E m1.
  unfold binary_round_aux.
  destruct (shr_fexp prec emax m e l) as [mrs' e'] eqn:S1.
  destruct (shr_fexp_spec _ _ _ _ _ Hm He S1) as [He' [Hm1 Hex]].
  fold E in He'. subst e'. fold m1 in Hm1.
  set (q := round_nearest_even (shr_m mrs') (loc_of_shr_record mrs')).
  assert (HE : emin64 <= E) by (unfold E; rewrite fexp_eq; lia).
  assert (Hp : 0 < 2 ^ (E - e)) by (apply Z.pow_pos_nonneg; lia).
  assert (Hm1nn : 0 <= m1) by (apply Z.div_pos; lia).
  assert (Hcase : (E = emin64 \/ 2 ^ 52 <= m1) /\ m1 < 2 ^ 53).
  { destruct (Z.eq_dec m 0) as [->|Hne].
    - unfold m1. rewrite Z.div_0_l by lia. split; [|lia].
      left. unfold E in *. simpl Zdigits2 in *. rewrite fexp_eq in *. lia.
    - destruct (Zdigits2_bounds m ltac:(lia)) as [Dlo Dhi].
      pose proof (Zdigits2_pos m ltac:(lia)) as Dp.
      set (d := Zdigits2 m) in *.
      assert (EE : E = Z.max (d + e - 53) emin64) by (unfold E; apply fexp_eq).
      destruct (Z.le_gt_cases emin64 (d + e - 53)) as [Hn|Hs].
      + assert (En : E - e = d - 53) by lia.
        assert (P1 : 2 ^ (d - 1) = 2 ^ (E - e) * 2 ^ 52).
        { rewrite <- Z.pow_add_r by lia. f_equal. lia. }
        assert (P2 : 2 ^ d = 2 ^ (E - e) * 2 ^ 53).
        { rewrite <- Z.pow_add_r by lia. f_equal. lia. }
        split.
        * right. apply Z.div_le_lower_bound; lia.
        * apply Z.div_lt_upper_bound; lia.
      + split; [left; lia|].
        apply Z.div_lt_upper_bound; [lia|].
        assert (2 ^ d <= 2 ^ (E - e + 53)) by (apply Z.pow_le_mono_r; lia).
        rewrite Z.pow_add_r in H by lia. lia. }
  destruct Hcase as [Hcase Hm1hi].
  assert (Hq : q = m1 \/ (q = m1 + 1 /\ ~ (l = loc_Exact /\ m mod 2 ^ (E - e) = 0))).
  { unfold q. rewrite Hm1.
    destruct (round_nearest_even_cases m1 (loc_of_shr_record mrs')) as [R|[R Rl]].
    - left; exact R.
    - right. split; [exact R|]. rewrite <- Hex, <- loc_of_shr_record_exact. exact Rl. }
  exists q. split; [exact Hq|]. split; [exact Hcase|]. split; [lia|]. split; [exact HE|].
  assert (Hq0 : 0 <= q <= 2 ^ 53) by lia.
  destruct (shr_fexp prec emax q E loc_Exact) as [mrs'' e''] eqn:S2.
  unfold rounded.
  destruct (Z.eqb_spec q 0) as [Q0|Q0].
  - (* q = 0 *)
    assert (E = emin64) by (destruct Hcase; lia).
    assert (He2 : E <= fexp64 (Zdigits2 q + E)) by (rewrite fexp_eq; lia).
    destruct (shr_fexp_spec q E loc_Exact mrs'' e'' ltac:(lia) He2 S2) as [He'' [Hm2 _]].
    rewrite Hm2, Q0, Z.div_0_l; [reflexivity|].
    apply Z.pow_nonzero; lia.
  - destruct (Z.eqb_spec q (2 ^ 53)) as [Q1|Q1].
    + (* carry *)
      assert (Hd : Zdigits2 q = 54) by (rewrite Q1; reflexivity).
      assert (He2 : E <= fexp64 (Zdigits2 q + E)) by (rewrite fexp_eq; lia).
      destruct (shr_fexp_spec q E loc_Exact mrs'' e'' ltac:(lia) He2 S2) as [He'' [Hm2 _]].
      assert (Ee : e'' = E + 1) by (rewrite He'', Hd, fexp_eq; lia).
      clear He''. subst e''.
      replace (E + 1 - E) with 1 in Hm2 by lia.
      rewrite Hm2, Q1. change (2 ^ 53 / 2 ^ 1) with (Zpos (2 ^ 52)).
      change (emax - prec) with 971. reflexivity.
    + assert (Qpos : 0 < q) by lia.
      assert (Hd : Zdigits2 q <= 53).
      { destruct (Z.le_gt_cases (Zdigits2 q) 53) as [H|H]; [exact H|].
        destruct (Zdigits2_bounds q Qpos) as [Dlo _].
        assert (2 ^ 53 <= 2 ^ (Zdigits2 q - 1)) by (apply Z.pow_le_mono_r; lia).
        lia. }
      assert (Hd' : E = emin64 \/ Zdigits2 q = 53).
      { destruct Hcase as [Hc|Hc]; [left; exact Hc|right].
        apply Zdigits2_unique; [|lia]. change (53 - 1) with 52. lia. }
      assert (He2 : fexp64 (Zdigits2 q + E) = E) by (rewrite fexp_eq; lia).
      destruct (shr_fexp_spec q E loc_Exact mrs'' e'' ltac:(lia) ltac:(lia) S2) as [He'' [Hm2 _]].
      assert (Ee : e'' = E) by (rewrite He''; exact He2).
      clear He''. subst e''.
      replace (E - E) with 0 in Hm2 by lia.
      rewrite Z.pow_0_r, Z.div_1_r in Hm2. rewrite Hm2.
      destruct q as [|pq|pq]; try lia.
      change (emax - prec) with 971. reflexivity.
Qed.

Local Open Scope Q_scope.

Lemma rounded_valid (s : bool) (q E : Z) :
  (E = emin64 \/ 2 ^ 52 <= q)%Z -> (0 <= q <= 2 ^ 53)%Z -> (emin64 <= E)%Z ->
  valid_binary (rounded s q E) = true.
Proof.
  intros Hc Hq HE. unfold rounded.
  destruct (Z.eqb_spec q 0) as [Q0|Q0]; [reflexivity|].
  destruct (Z.eqb_spec q (2 ^ 53)) as [Q1|Q1].
  - destruct (Z.leb_spec (E + 1) 971) as [L|L]; [|reflexivity].
    cbn [valid_binary]. apply bounded_spec. split; [|exact L].
    change (Zpos (digits2_pos (2 ^ 52))) with 53%Z. rewrite fexp_eq. lia.
  - destruct (Z.leb_spec E 971) as [L|L]; [|reflexivity].
    cbn [valid_binary]. apply bounded_spec. split; [|exact L].
    assert (Qp : (0 < q)%Z) by lia.
    change (Zpos (digits2_pos (Z.to_pos q))) with (Zdigits2 (Zpos (Z.to_pos q))).
    rewrite Z2Pos.id by exact Qp.
    assert (Hd : (Zdigits2 q <= 53)%Z).
    { destruct (Z.le_gt_cases (Zdigits2 q) 53) as [H|H]; [exact H|].
      destruct (Zdigits2_bounds q Qp) as [Dlo _].
      assert (2 ^ 53 <= 2 ^ (Zdigits2 q - 1))%Z by (apply Z.pow_le_mono_r; lia).
      lia. }
    assert (Hd' : (E = emin64 \/ Zdigits2 q = 53)%Z).
    { destruct Hc as [Hc|Hc]; [left; exact Hc|right].
      apply Zdigits2_unique; [|lia]. change (53 - 1)%Z with 52%Z. lia. }
    rewrite fexp_eq. lia.
Qed.

Lemma valid_lt_max (C : spec_float) :
  valid_binary C = true -> SF2Q C < 2 ^ 1024.
Proof.
  destruct C as [s|s| |s m e]; cbn [SF2Q valid_binary]; intros V;
    try apply pow2_pos.
  apply bounded_spec in V. destruct V as [V1 V2].
  rewrite fexp_eq in V1.
  destruct s.
  - apply Qlt_trans with 0; [|apply pow2_pos].
    setoid_replace (inject_Z (Z.neg m) * 2 ^ e) with (- (inject_Z (Zpos m) * 2 ^ e)).
    + apply Qopp_lt_compat with (p := 0) (q := inject_Z (Zpos m) * 2 ^ e), SF2Q_pos.
    + change (Z.neg m) with (- Zpos m)%Z. rewrite inject_Z_opp. ring.
  - eapply Qlt_le_trans; [apply Qmag_hi|]. apply pow2_le. lia.
Qed.

Lemma SFleb_zero_l (s : bool) (C : spec_float) :
  nonneg_finite C = true -> SFleb (S754_zero s) C = true.
Proof. destruct C as [c|c| |[|] c ec]; simpl; try discriminate; reflexivity. Qed.

Lemma rounded_leb_upper (q E : Z) (C : spec_float) :
  (E = emin64 \/ 2 ^ 52 <= q)%Z -> (0 <= q <= 2 ^ 53)%Z -> (emin64 <= E)%Z ->
  nonneg_finite C = true -> valid_binary C = true ->
  inject_Z q * 2 ^ E <= SF2Q C ->
  SFleb (rounded false q E) C = true.
Proof.
  intros Hc Hq HE NC VC Hle.
  pose proof (rounded_valid false q E Hc Hq HE) as VR.
  pose proof (valid_lt_max C VC) as Cmax.
  unfold rounded in *.
  destruct (Z.eqb_spec q 0) as [Q0|Q0]; [apply SFleb_zero_l; exact NC|].
  destruct (Z.eqb_spec q (2 ^ 53)) as [Q1|Q1].
  - assert (Hv : inject_Z q * 2 ^ E == inject_Z (2 ^ 52) * 2 ^ (E + 1)).
    { rewrite Q1, pow2_add. change (2 ^ 1) with 2.
      change (inject_Z (2 ^ 53)) with (inject_Z (2 ^ 52) * 2). ring. }
    destruct (Z.leb_spec (E + 1) 971) as [L|L].
    + apply SFleb_Qle; try assumption; try reflexivity.
      cbn [SF2Q]. rewrite <- Hv. exact Hle.
    + exfalso. apply (Qlt_irrefl (2 ^ 1024)).
      eapply Qle_lt_trans; [|exact Cmax].
      eapply Qle_trans; [|exact Hle]. rewrite Hv.
      change (inject_Z (2 ^ 52)) with (2 ^ 52).
      rewrite <- pow2_add. apply pow2_le. lia.
  - assert (Qp : (0 < q)%Z) by lia.
    destruct (Z.leb_spec E 971) as [L|L].
    + apply SFleb_Qle; try assumption; try reflexivity.
      cbn [SF2Q]. rewrite Z2Pos.id by exact Qp. exact Hle.
    + exfalso. apply (Qlt_irrefl (2 ^ 1024)).
      eapply Qle_lt_trans; [|exact Cmax].
      eapply Qle_trans; [|exact Hle].
      assert (Hq52 : (2 ^ 52 <= q)%Z) by (destruct Hc; lia).
      apply Qle_trans with (inject_Z (2 ^ 52) * 2 ^ E).
      * change (inject_Z (2 ^ 52)) with (2 ^ 52).
        rewrite <- pow2_add. apply pow2_le. lia.
      * apply Qmult_le_compat_r; [|apply Qlt_le_weak, pow2_pos].
        rewrite <- Zle_Qle. exact Hq52.
Qed.

Lemma rounded_leb_lower (q E : Z) (C : spec_float) :
  (E = emin64 \/ 2 ^ 52 <= q)%Z -> (0 <= q <= 2 ^ 53)%Z -> (emin64 <= E)%Z ->
  nonneg_finite C = true -> valid_binary C = true ->
  SF2Q C <= inject_Z q * 2 ^ E ->
  SFleb C (rounded false q E) = true.
Proof.
  intros Hc Hq HE NC VC Hle.
  pose proof (rounded_valid false q E Hc Hq HE) as VR.
  unfold rounded in *.
  destruct (Z.eqb_spec q 0) as [Q0|Q0].
  - subst q. destruct C as [c|c| |[|] c ec]; simpl in *; try discriminate; try reflexivity.
    exfalso. apply (Qlt_irrefl 0). eapply Qlt_le_trans; [apply (SF2Q_pos c ec)|].
    eapply Qle_trans; [exact Hle|]. rewrite Qmult_0_l. apply Qle_refl.
  - assert (Hinf : SFleb C (S754_infinity false) = true).
    { destruct C as [c|c| |[|] c ec]; simpl in *; try discriminate; reflexivity. }
    destruct (Z.eqb_spec q (2 ^ 53)) as [Q1|Q1].
    + assert (Hv : inject_Z q * 2 ^ E == inject_Z (2 ^ 52) * 2 ^ (E + 1)).
      { rewrite Q1, pow2_add. change (2 ^ 1) with 2.
        change (inject_Z (2 ^ 53)) with (inject_Z (2 ^ 52) * 2). ring. }
      destruct (Z.leb_spec (E + 1) 971) as [L|L]; [|exact Hinf].
      apply SFleb_Qle; try assumption; try reflexivity.
      cbn [SF2Q]. rewrite <- Hv. exact Hle.
    + assert (Qp : (0 < q)%Z) by lia.
      destruct (Z.leb_spec E 971) as [L|L]; [|exact Hinf].
      apply SFleb_Qle; try assumption; try reflexivity.
      cbn [SF2Q]. rewrite Z2Pos.id by exact Qp. exact Hle.
Qed.

Lemma Qmult_pow2_le (a b : Z) (e : Z) :
  inject_Z a * 2 ^ e <= inject_Z b * 2 ^ e <-> (a <= b)%Z.
Proof.
  rewrite Zle_Qle. split; intros H.
  - apply Qmult_le_r in H; [exact H|apply pow2_pos].
  - apply Qmult_le_r; [apply pow2_pos|exact H].
Qed.

Lemma Qmult_pow2_lt (a b : Z) (e : Z) :
  inject_Z a * 2 ^ e < inject_Z b * 2 ^ e <-> (a < b)%Z.
Proof.
  rewrite Zlt_Qlt. split; intros H.
  - apply Qmult_lt_r in H; [exact H|apply pow2_pos].
  - apply Qmult_lt_r; [apply pow2_pos|exact H].
Qed.

Lemma rescale (k : Z) (e n : Z) :
  (0 <= n)%Z -> inject_Z k * 2 ^ (e + n) == inject_Z (2 ^ n * k) * 2 ^ e.
Proof.
  intros Hn. rewrite pow2_add, inject_Z_mult, inject_Z_pow2 by exact Hn. ring.
Qed.

(** Every valid value at or above the binade of exponent [E] is a
    multiple of 2^E. *)
Lemma grid (C : spec_float) (E : Z) :
  nonneg_finite C = true -> valid_binary C = true -> (emin64 <= E)%Z ->
  E = emin64 \/ 2 ^ (E + 52) <= SF2Q C ->
  exists k : Z, SF2Q C == inject_Z k * 2 ^ E.
Proof.
  destruct C as [c|c| |[|] c ec]; cbn [nonneg_finite SF2Q valid_binary];
    try discriminate; intros _ V HE Hc.
  - exists 0%Z. ring.
  - apply bounded_spec in V. destruct V as [V1 V2]. rewrite fexp_eq in V1.
    assert (Hec : (E <= ec)%Z).
    { destruct Hc as [Hc|Hc]; [lia|].
      assert (Hlt : 2 ^ (E + 52) < 2 ^ (Zpos (digits2_pos c) + ec)).
      { eapply Qle_lt_trans; [exact Hc|apply Qmag_hi]. }
      destruct (Z.lt_ge_cases (E + 52) (Zpos (digits2_pos c) + ec)) as [H|H]; [lia|].
      exfalso. apply (Qlt_irrefl (2 ^ (E + 52))).
      eapply Qlt_le_trans; [exact Hlt|]. apply pow2_le. exact H. }
    exists (2 ^ (ec - E) * Zpos c)%Z.
    rewrite <- rescale by lia. replace (E + (ec - E))%Z with ec by lia. reflexivity.
Qed.

Lemma binary_round_aux_locates (s : bool) (m e : Z) (l : location) (x : Q) :
  (0 <= m)%Z -> (e <= fexp64 (Zdigits2 m + e))%Z -> locates x m e l ->
  exists q E m1,
    binary_round_aux prec emax s m e l = rounded s q E /\
    (E = emin64 \/ 2 ^ 52 <= m1)%Z /\ (0 <= m1 < 2 ^ 53)%Z /\ (emin64 <= E)%Z /\
    inject_Z m1 * 2 ^ E <= x /\ x < inject_Z (m1 + 1) * 2 ^ E /\
    (q = m1 \/ (q = m1 + 1)%Z /\ ~ x == inject_Z m1 * 2 ^ E).
Proof.
  intros Hm He [Hlo [Hhi Hex]].
  destruct (binary_round_aux_cases s m e l Hm He) as [q [Hq [Hc [Hm1 [HE R]]]]].
  set (E := fexp64 (Zdigits2 m + e)) in *.
  set (n := (E - e)%Z) in *.
  set (m1 := (m / 2 ^ n)%Z) in *.
  assert (Hn : (0 <= n)%Z) by (unfold n; lia).
  assert (Hp : (0 < 2 ^ n)%Z) by (apply Z.pow_pos_nonneg; lia).
  assert (D1 : (2 ^ n * m1 <= m)%Z) by (apply Z.mul_div_le; exact Hp).
  assert (D2 : (m < 2 ^ n * (m1 + 1))%Z).
  { change (m1 + 1)%Z with (Z.succ m1). apply Z.mul_succ_div_gt; exact Hp. }
  assert (EE : E = (e + n)%Z) by (unfold n; lia).
  assert (L1 : inject_Z m1 * 2 ^ E <= x).
  { rewrite EE, rescale by exact Hn.
    eapply Qle_trans; [|exact Hlo]. apply Qmult_pow2_le. exact D1. }
  assert (L2 : x < inject_Z (m1 + 1) * 2 ^ E).
  { rewrite EE, rescale by exact Hn.
    eapply Qlt_le_trans; [exact Hhi|]. apply Qmult_pow2_le. lia. }
  exists q, E, m1. repeat split; try assumption; try lia.
  destruct Hq as [Hq|[Hq Hnot]]; [left; exact Hq|right].
  split; [exact Hq|]. intros Hx. apply Hnot.
  rewrite EE, rescale in Hx by exact Hn.
  assert (Hmm : (m <= 2 ^ n * m1)%Z).
  { apply (Qmult_pow2_le m (2 ^ n * m1) e). rewrite <- Hx. exact Hlo. }
  assert (Heq : m = (2 ^ n * m1)%Z) by lia.
  split.
  - apply Hex. rewrite Hx, <- Heq. reflexivity.
  - rewrite Heq, Z.mul_comm. apply Z.mod_mul. lia.
Qed.

(** *** Faithful rounding

    The rounded result lies at or below every valid value above [x]... *)

Theorem binary_round_aux_upper (m e : Z) (l : location) (x : Q) (C : spec_float) :
  (0 <= m)%Z -> (e <= fexp64 (Zdigits2 m + e))%Z -> locates x m e l ->
  nonneg_finite C = true -> valid_binary C = true ->
  x <= SF2Q C ->
  SFleb (binary_round_aux prec emax false m e l) C = true.
Proof.
  intros Hm He Hl NC VC Hx.
  destruct (binary_round_aux_locates false m e l x Hm He Hl)
    as [q [E [m1 [R [Hc [Hm1 [HE [L1 [L2 Hq]]]]]]]]].
  rewrite R.
  assert (Hq53 : (0 <= q <= 2 ^ 53)%Z) by (destruct Hq as [->|[-> _]]; lia).
  assert (Hc' : (E = emin64 \/ 2 ^ 52 <= q)%Z) by (destruct Hq as [->|[-> _]]; lia).
  apply rounded_leb_upper; try assumption.
  destruct Hq as [->|[-> Hne]].
  - eapply Qle_trans; [exact L1|exact Hx].
  - assert (Hlt : inject_Z m1 * 2 ^ E < SF2Q C).
    { eapply Qlt_le_trans; [|exact Hx].
      destruct (Qle_lt_or_eq _ _ L1) as [H|H]; [exact H|].
      exfalso. apply Hne. symmetry. exact H. }
    destruct (grid C E NC VC HE) as [k Hk].
    { destruct Hc as [Hc|Hc]; [left; exact Hc|right].
      apply Qle_trans with (inject_Z m1 * 2 ^ E); [|apply Qlt_le_weak; exact Hlt].
      rewrite pow2_add, Qmult_comm.
      apply Qmult_le_compat_r; [|apply Qlt_le_weak, pow2_pos].
      change (2 ^ 52) with (inject_Z (2 ^ 52)). rewrite <- Zle_Qle. exact Hc. }
    rewrite Hk in *. apply Qmult_pow2_lt in Hlt. apply Qmult_pow2_le. lia.
Qed.

(** ... and at or above every valid value below [x]. *)
Theorem binary_round_aux_lower (m e : Z) (l : location) (x : Q) (C : spec_float) :
  (0 <= m)%Z -> (e <= fexp64 (Zdigits2 m + e))%Z -> locates x m e l ->
  nonneg_finite C = true -> valid_binary C = true ->
  SF2Q C <= x ->
  SFleb C (binary_round_aux prec emax false m e l) = true.
Proof.
  intros Hm He Hl NC VC Hx.
  destruct (binary_round_aux_locates false m e l x Hm He Hl)
    as [q [E [m1 [R [Hc [Hm1 [HE [L1 [L2 Hq]]]]]]]]].
  rewrite R.
  assert (Hq53 : (0 <= q <= 2 ^ 53)%Z) by (destruct Hq as [->|[-> _]]; lia).
  assert (Hc' : (E = emin64 \/ 2 ^ 52 <= q)%Z) by (destruct Hq as [->|[-> _]]; lia).
  apply rounded_leb_lower; try assumption.
  destruct (Qlt_le_dec (inject_Z m1 * 2 ^ E) (SF2Q C)) as [Hlt|Hge].
  - exfalso.
    destruct (grid C E NC VC HE) as [k Hk].
    { destruct Hc as [Hc|Hc]; [left; exact Hc|right].
      apply Qle_trans with (inject_Z m1 * 2 ^ E); [|apply Qlt_le_weak; exact Hlt].
      rewrite pow2_add, Qmult_comm.
      apply Qmult_le_compat_r; [|apply Qlt_le_weak, pow2_pos].
      change (2 ^ 52) with (inject_Z (2 ^ 52)). rewrite <- Zle_Qle. exact Hc. }
    rewrite Hk in *.
    assert (H2 : inject_Z k * 2 ^ E < inject_Z (m1 + 1) * 2 ^ E).
    { eapply Qle_lt_trans; [exact Hx|exact L2]. }
    apply Qmult_pow2_lt in Hlt, H2. lia.
  - eapply Qle_trans; [exact Hge|]. apply Qmult_pow2_le.
    destruct Hq as [->|[-> _]]; lia.
Qed.

Local Open Scope Z_scope.

Lemma Pos_iter_xO (m d : positive) :
  Zpos (Pos.iter xO m d) = Zpos m * 2 ^ Zpos d.
Proof.
  induction d as [|d IH] using Pos.peano_ind.
  - simpl Pos.iter. lia.
  - rewrite Pos.iter_succ, Pos2Z.inj_xO, IH, Pos2Z.inj_succ, Z.pow_succ_r by lia. lia.
Qed.

Lemma shl_align_spec (m : positive) (e e' : Z) :
  let '(m', e'') := shl_align m e e' in
  e'' = Z.min e e' /\ Zpos m' = Zpos m * 2 ^ (e - e'').
Proof.
  unfold shl_align. destruct (e' - e) as [|d|d] eqn:D.
  - split; [lia|]. replace (e - e) with 0 by lia. lia.
  - split; [lia|]. replace (e - e) with 0 by lia. lia.
  - split; [lia|]. replace (e - e') with (Zpos d) by lia. apply Pos_iter_xO.
Qed.

Lemma Zdigits2_mul_pow2 (m k : Z) :
  0 < m -> 0 <= k -> Zdigits2 (m * 2 ^ k) = Zdigits2 m + k.
Proof.
  intros Hm Hk. destruct (Zdigits2_bounds m Hm) as [Lo Hi].
  pose proof (Zdigits2_pos m Hm) as Dp.
  assert (Hp : 0 < 2 ^ k) by (apply Z.pow_pos_nonneg; lia).
  apply Zdigits2_unique; [|nia].
  replace (Zdigits2 m + k - 1) with (Zdigits2 m - 1 + k) by lia.
  rewrite !Z.pow_add_r by lia. nia.
Qed.

Local Open Scope Q_scope.

Lemma locates_exact (m e : Z) (x : Q) :
  x == inject_Z m * 2 ^ e -> locates x m e loc_Exact.
Proof.
  intros Hx. repeat split.
  - rewrite Hx. apply Qle_refl.
  - rewrite Hx. apply Qmult_pow2_lt. lia.
Qed.

(** [binary_round] first aligns the mantissa, which keeps the value. *)
Lemma binary_round_aligned (s : bool) (m : positive) (e : Z) :
  exists mz ez,
    binary_round prec emax s m e = binary_round_aux prec emax s (Zpos mz) ez loc_Exact /\
    (ez <= fexp64 (Zdigits2 (Zpos mz) + ez))%Z /\
    inject_Z (Zpos mz) * 2 ^ ez == inject_Z (Zpos m) * 2 ^ e.
Proof.
  unfold binary_round.
  pose proof (shl_align_spec m e (fexp64 (Zpos (digits2_pos m) + e))) as H.
  destruct (shl_align m e (fexp64 (Zpos (digits2_pos m) + e))) as [mz ez].
  destruct H as [He Hm]. exists mz, ez. split; [reflexivity|].
  assert (Hd : (Zdigits2 (Zpos mz) + ez = Zpos (digits2_pos m) + e)%Z).
  { rewrite Hm, Zdigits2_mul_pow2 by lia. simpl Zdigits2. lia. }
  split.
  - rewrite Hd. lia.
  - rewrite Hm.
    pose proof (rescale (Zpos m) ez (e - ez) ltac:(lia)) as R.
    replace (ez + (e - ez))%Z with e in R by lia.
    rewrite R, (Z.mul_comm (Zpos m)). reflexivity.
Qed.

(** *** Addition, multiplication and division of positive numbers

    Each hands [binary_round_aux] a mantissa, an exponent and a location of
    the exact result. *)

Lemma digits_ge (m k : Z) : (0 < m)%Z -> (2 ^ k <= m)%Z -> (0 <= k)%Z -> (k < Zdigits2 m)%Z.
Proof.
  intros Hm Hk Hk0. destruct (Zdigits2_bounds m Hm) as [_ Hi].
  destruct (Z.lt_ge_cases k (Zdigits2 m)) as [H|H]; [exact H|].
  assert (2 ^ Zdigits2 m <= 2 ^ k)%Z.
  { apply Z.pow_le_mono_r; [lia|exact H]. }
  lia.
Qed.

Lemma SFmul_locates (ma mb : positive) (ea eb : Z) :
  bounded prec emax ma ea = true -> bounded prec emax mb eb = true ->
  exists m e l,
    SF64mul (S754_finite false ma ea) (S754_finite false mb eb)
    = binary_round_aux prec emax false m e l /\
    (0 <= m)%Z /\ (e <= fexp64 (Zdigits2 m + e))%Z /\
    locates (SF2Q (S754_finite false ma ea) * SF2Q (S754_finite false mb eb)) m e l.
Proof.
  intros Va Vb. exists (Zpos (ma * mb)), (ea + eb)%Z, loc_Exact.
  split; [reflexivity|]. split; [lia|]. split.
  - apply bounded_spec in Va, Vb. destruct Va as [Va _], Vb as [Vb _].
    rewrite fexp_eq in *.
    destruct (digits2_pos_bounds ma) as [La _], (digits2_pos_bounds mb) as [Lb _].
    assert (Hd : (Zpos (digits2_pos ma) + Zpos (digits2_pos mb) - 2
                  < Zdigits2 (Zpos (ma * mb)))%Z).
    { apply digits_ge; [lia| |lia].
      replace (Zpos (digits2_pos ma) + Zpos (digits2_pos mb) - 2)%Z
        with ((Zpos (digits2_pos ma) - 1) + (Zpos (digits2_pos mb) - 1))%Z by lia.
      rewrite Z.pow_add_r by lia. rewrite Pos2Z.inj_mul.
      apply Z.mul_le_mono_nonneg; try assumption; apply Z.pow_nonneg; lia. }
    lia.
  - apply locates_exact. cbn [SF2Q]. rewrite Pos2Z.inj_mul, inject_Z_mult, pow2_add. ring.
Qed.

Lemma SFadd_locates (ma mb : positive) (ea eb : Z) :
  exists m e l,
    SF64add (S754_finite false ma ea) (S754_finite false mb eb)
    = binary_round_aux prec emax false m e l /\
    (0 <= m)%Z /\ (e <= fexp64 (Zdigits2 m + e))%Z /\
    locates (SF2Q (S754_finite false ma ea) + SF2Q (S754_finite false mb eb)) m e l.
Proof.
  unfold SF64add, SFadd. cbn [cond_Zopp].
  set (ez := Z.min ea eb).
  pose proof (shl_align_spec ma ea ez) as Ha.
  pose proof (shl_align_spec mb eb ez) as Hb.
  destruct (shl_align ma ea ez) as [ma' ea'], (shl_align mb eb ez) as [mb' eb'].
  destruct Ha as [Ea Ma], Hb as [Eb Mb]. cbn [fst].
  change (Zpos ma' + Zpos mb')%Z with (Zpos (ma' + mb')). cbn [binary_normalize].
  destruct (binary_round_aligned false (ma' + mb') ez) as [mz [ez' [R [He Hv]]]].
  exists (Zpos mz), ez', loc_Exact. split; [exact R|]. split; [lia|]. split; [exact He|].
  apply locates_exact. rewrite Hv. cbn [SF2Q].
  rewrite Pos2Z.inj_add, inject_Z_plus, Ma, Mb.
  assert (Ex : ea' = ez) by (unfold ez in *; lia).
  assert (Ey : eb' = ez) by (unfold ez in *; lia).
  rewrite Ex, Ey.
  pose proof (rescale (Zpos ma) ez (ea - ez) ltac:(unfold ez; lia)) as Ra.
  pose proof (rescale (Zpos mb) ez (eb - ez) ltac:(unfold ez; lia)) as Rb.
  replace (ez + (ea - ez))%Z with ea in Ra by lia.
  replace (ez + (eb - ez))%Z with eb in Rb by lia.
  rewrite Ra, Rb, (Z.mul_comm (Zpos ma)), (Z.mul_comm (Zpos mb)). ring.
Qed.

Lemma new_location_exact (nb : Z) : new_location nb 0 = loc_Exact.
Proof.
  unfold new_location, new_location_even, new_location_odd.
  destruct (Z.even nb); reflexivity.
Qed.

Lemma SFdiv_locates (ma mb : positive) (ea eb : Z) :
  exists m e l,
    SF64div (S754_finite false ma ea) (S754_finite false mb eb)
    = binary_round_aux prec emax false m e l /\
    (0 <= m)%Z /\ (e <= fexp64 (Zdigits2 m + e))%Z /\
    locates (SF2Q (S754_finite false ma ea) / SF2Q (S754_finite false mb eb)) m e l.
Proof.
  unfold SF64div, SFdiv, SFdiv_core_binary. cbn [xorb].
  set (d1 := Zdigits2 (Zpos ma)). set (d2 := Zdigits2 (Zpos mb)).
  set (e' := Z.min (fexp64 (d1 + ea - (d2 + eb))) (ea - eb)).
  set (s := (ea - eb - e')%Z).
  assert (Hs : (0 <= s)%Z) by (unfold s, e'; lia).
  set (m' := match s with
             | 0%Z => Zpos ma
             | Zpos _ => Z.shiftl (Zpos ma) s
             | Zneg _ => 0%Z
             end).
  assert (Hm' : m' = (Zpos ma * 2 ^ s)%Z).
  { unfold m'. destruct s as [|p|p] eqn:Es; [lia| |lia].
    apply Z.shiftl_mul_pow2. lia. }
  pose proof (Z_div_mod m' (Zpos mb) ltac:(lia)) as DM.
  destruct (Z.div_eucl m' (Zpos mb)) as [q r]. destruct DM as [DM Hr].
  assert (Hp : (0 < 2 ^ s)%Z) by (apply Z.pow_pos_nonneg; lia).
  assert (Hq : (0 <= q)%Z) by nia.
  exists q, e', (new_location (Zpos mb) r).
  split; [reflexivity|]. split; [exact Hq|].
  destruct (Zdigits2_bounds (Zpos ma) ltac:(lia)) as [La Ha].
  destruct (Zdigits2_bounds (Zpos mb) ltac:(lia)) as [Lb Hb].
  fold d1 in La, Ha. fold d2 in Lb, Hb.
  assert (D1 : (0 < d1)%Z) by (apply Zdigits2_pos; lia).
  assert (D2 : (0 < d2)%Z) by (apply Zdigits2_pos; lia).
  split.
  - (* the exponent is at most the canonical one of the quotient *)
    destruct (Z.le_gt_cases 0 (d1 - 1 + s - d2)) as [Hk|Hk].
    + assert (Hq2 : (2 ^ (d1 - 1 + s - d2) <= q)%Z).
      { assert (H1 : (2 ^ (d1 - 1 + s - d2) * 2 ^ d2 <= m')%Z).
        { rewrite <- Z.pow_add_r by lia.
          replace (d1 - 1 + s - d2 + d2)%Z with ((d1 - 1) + s)%Z by lia.
          rewrite Z.pow_add_r, Hm' by lia. nia. }
        assert (P0 : (0 < 2 ^ (d1 - 1 + s - d2))%Z) by (apply Z.pow_pos_nonneg; lia).
        nia. }
      assert (Hdq : (d1 - 1 + s - d2 < Zdigits2 q)%Z).
      { apply digits_ge; [|exact Hq2|lia].
        assert (0 < 2 ^ (d1 - 1 + s - d2))%Z by (apply Z.pow_pos_nonneg; lia). lia. }
      clearbody m'. unfold s in *. unfold e' in *. rewrite ?fexp_eq in *. lia.
    + pose proof (Zdigits2_nonneg q).
      clearbody m'. unfold s in *. unfold e' in *. rewrite ?fexp_eq in *. lia.
  - (* the quotient is located *)
    assert (Vb : 0 < SF2Q (S754_finite false mb eb)) by apply SF2Q_pos.
    assert (Hscale : forall k : Z,
               inject_Z k * 2 ^ e' * SF2Q (S754_finite false mb eb)
               == inject_Z (k * Zpos mb) * 2 ^ (e' + eb)).
    { intros k. cbn [SF2Q]. rewrite inject_Z_mult, pow2_add. ring. }
    assert (Hnum : SF2Q (S754_finite false ma ea) == inject_Z m' * 2 ^ (e' + eb)).
    { cbn [SF2Q]. rewrite Hm', (Z.mul_comm (Zpos ma)), <- rescale by exact Hs.
      replace (e' + eb + s)%Z with ea by (unfold s; lia). reflexivity. }
    repeat split.
    + apply Qle_shift_div_l; [exact Vb|]. rewrite Hscale, Hnum.
      apply Qmult_pow2_le. nia.
    + apply Qlt_shift_div_r; [exact Vb|]. rewrite Hscale, Hnum.
      apply Qmult_pow2_lt. nia.
    + intros Hx.
      assert (H1 : SF2Q (S754_finite false ma ea)
                   == inject_Z q * 2 ^ e' * SF2Q (S754_finite false mb eb)).
      { rewrite <- Hx. field. intros H0. rewrite H0 in Vb. discriminate. }
      rewrite Hscale, Hnum in H1.
      assert (H2 : (m' <= q * Zpos mb)%Z) by (apply (Qmult_pow2_le _ _ (e' + eb)); rewrite H1; apply Qle_refl).
      assert (r = 0%Z) by nia. subst r. apply new_location_exact.
Qed.

Lemma binary_round_aux_rounds (m e : Z) (l : location) (x : Q) :
  (0 <= m)%Z -> (e <= fexp64 (Zdigits2 m + e))%Z -> locates x m e l ->
  rounds_to (binary_round_aux prec emax false m e l) x.
Proof.
  intros Hm He Hl C NC VC. split; intros Hx.
  - apply (binary_round_aux_upper m e l x C); assumption.
  - apply (binary_round_aux_lower m e l x C); assumption.
Qed.

Lemma exact_rounds (r : spec_float) (x : Q) :
  nonneg_finite r = true -> valid_binary r = true -> SF2Q r == x ->
  rounds_to r x.
Proof.
  intros Nr Vr Hx C NC VC. rewrite <- Hx. split; intros H.
  - apply SFleb_Qle; assumption.
  - apply SFleb_Qle; assumption.
Qed.

Lemma nonneg_finite_cases (a : spec_float) :
  nonneg_finite a = true ->
  (exists s, a = S754_zero s) \/ (exists m e, a = S754_finite false m e).
Proof.
  destruct a as [s|s| |[|] m e]; cbn [nonneg_finite]; try discriminate; intros _.
  - left. exists s. reflexivity.
  - right. exists m, e. reflexivity.
Qed.

Lemma SFadd_rounds (a b : spec_float) :
  nonneg_finite a = true -> nonneg_finite b = true ->
  valid_binary a = true -> valid_binary b = true ->
  rounds_to (SF64add a b) (SF2Q a + SF2Q b).
Proof.
  intros Na Nb Va Vb.
  destruct (nonneg_finite_cases a Na) as [[sa ->]|[ma [ea ->]]],
           (nonneg_finite_cases b Nb) as [[sb ->]|[mb [eb ->]]].
  - apply exact_rounds.
    + destruct sa, sb; reflexivity.
    + destruct sa, sb; reflexivity.
    + destruct sa, sb; reflexivity.
  - apply exact_rounds; try assumption. cbn [SF2Q SF64add SFadd]. ring.
  - apply exact_rounds; try assumption. cbn [SF2Q SF64add SFadd]. ring.
  - destruct (SFadd_locates ma mb ea eb) as [m [e [l [R [Hm [He Hl]]]]]].
    rewrite R. apply binary_round_aux_rounds; assumption.
Qed.

Lemma SFmul_rounds (a b : spec_float) :
  nonneg_finite a = true -> nonneg_finite b = true ->
  valid_binary a = true -> valid_binary b = true ->
  rounds_to (SF64mul a b) (SF2Q a * SF2Q b).
Proof.
  intros Na Nb Va Vb.
  destruct (nonneg_finite_cases a Na) as [[sa ->]|[ma [ea ->]]],
           (nonneg_finite_cases b Nb) as [[sb ->]|[mb [eb ->]]].
  - apply exact_rounds; try reflexivity.
  - apply exact_rounds; try reflexivity.
  - apply exact_rounds; try reflexivity. cbn [SF2Q SF64mul SFmul]. ring.
  - destruct (SFmul_locates ma mb ea eb Va Vb) as [m [e [l [R [Hm [He Hl]]]]]].
    rewrite R. apply binary_round_aux_rounds; assumption.
Qed.

Lemma SFdiv_rounds (a b : spec_float) :
  nonneg_finite a = true -> nonneg_finite b = true ->
  valid_binary a = true -> valid_binary b = true ->
  0 < SF2Q b ->
  rounds_to (SF64div a b) (SF2Q a / SF2Q b).
Proof.
  intros Na Nb Va Vb Hb.
  destruct (nonneg_finite_cases b Nb) as [[sb ->]|[mb [eb ->]]].
  - exfalso. cbn [SF2Q] in Hb. discriminate.
  - destruct (nonneg_finite_cases a Na) as [[sa ->]|[ma [ea ->]]].
    + apply exact_rounds; try reflexivity.
    + destruct (SFdiv_locates ma mb ea eb) as [m [e [l [R [Hm [He Hl]]]]]].
      rewrite R. apply binary_round_aux_rounds; assumption.
Qed.

Lemma rounds_to_nonneg (r : spec_float) (x : Q) (C : spec_float) :
  rounds_to r x -> nonneg_finite C = true -> valid_binary C = true ->
  0 <= x -> x <= SF2Q C ->
  nonneg_finite r = true.
Proof.
  intros Hr NC VC H0 Hx.
  destruct (Hr C NC VC) as [Hup _]. specialize (Hup Hx).
  destruct (Hr (S754_zero false) eq_refl eq_refl) as [_ Hlo]. specialize (Hlo H0).
  destruct r as [[|]|[|]| |[|] m e]; try reflexivity; try discriminate;
    destruct C as [c|c| |[|] c ec]; discriminate.
Qed.

(** *** Integers as numbers *)

Lemma rounded_small (q E : Z) :
  (E = emin64 \/ 2 ^ 52 <= q)%Z -> (0 <= q <= 2 ^ 53)%Z -> (emin64 <= E)%Z ->
  inject_Z q * 2 ^ E < 2 ^ 1024 ->
  nonneg_finite (rounded false q E) = true /\
  SF2Q (rounded false q E) == inject_Z q * 2 ^ E.
Proof.
  intros Hc Hq HE Hlt. unfold rounded.
  destruct (Z.eqb_spec q 0) as [Q0|Q0].
  - subst q. split; [reflexivity|]. cbn [SF2Q]. ring.
  - destruct (Z.eqb_spec q (2 ^ 53)) as [Q1|Q1].
    + assert (Hv : inject_Z q * 2 ^ E == inject_Z (2 ^ 52) * 2 ^ (E + 1)).
      { rewrite Q1, pow2_add. change (2 ^ 1) with 2.
        change (inject_Z (2 ^ 53)) with (inject_Z (2 ^ 52) * 2). ring. }
      destruct (Z.leb_spec (E + 1) 971) as [L|L].
      * split; [reflexivity|]. cbn [SF2Q]. rewrite Hv. reflexivity.
      * exfalso. apply (Qlt_irrefl (2 ^ 1024)).
        eapply Qle_lt_trans; [|exact Hlt]. rewrite Hv.
        change (inject_Z (2 ^ 52)) with (2 ^ 52).
        rewrite <- pow2_add. apply pow2_le. lia.
    + assert (Qp : (0 < q)%Z) by lia.
      destruct (Z.leb_spec E 971) as [L|L].
      * split; [reflexivity|]. cbn [SF2Q]. rewrite Z2Pos.id by exact Qp. reflexivity.
      * exfalso. apply (Qlt_irrefl (2 ^ 1024)).
        eapply Qle_lt_trans; [|exact Hlt].
        assert (Hq52 : (2 ^ 52 <= q)%Z) by (destruct Hc; lia).
        apply Qle_trans with (inject_Z (2 ^ 52) * 2 ^ E).
        -- change (inject_Z (2 ^ 52)) with (2 ^ 52).
           rewrite <- pow2_add. apply pow2_le. lia.
        -- apply Qmult_le_compat_r; [|apply Qlt_le_weak, pow2_pos].
           rewrite <- Zle_Qle. exact Hq52.
Qed.

Lemma binary_round_aux_opp (m e : Z) (l : location) :
  binary_round_aux prec emax true m e l
  = SFopp (binary_round_aux prec emax false m e l).
Proof.
  unfold binary_round_aux.
  destruct (shr_fexp prec emax m e l) as [mrs' e'].
  destruct (shr_fexp prec emax _ e' loc_Exact) as [mrs'' e''].
  destruct (shr_m mrs''); try reflexivity.
  destruct (e'' <=? emax - prec)%Z; reflexivity.
Qed.

Lemma binary_round_opp (m : positive) (e : Z) :
  binary_round prec emax true m e = SFopp (binary_round prec emax false m e).
Proof.
  unfold binary_round. destruct (shl_align m e _) as [mz ez].
  apply binary_round_aux_opp.
Qed.

Lemma SF2Q_opp (x : spec_float) : SF2Q (SFopp x) == - SF2Q x.
Proof.
  destruct x as [s|s| |s m e]; cbn [SFopp SF2Q]; try ring.
  destruct s; cbn [negb].
  - change (Z.neg m) with (- Zpos m)%Z. rewrite inject_Z_opp. ring.
  - change (Z.neg m) with (- Zpos m)%Z. rewrite inject_Z_opp. ring.
Qed.

Lemma valid_binary_opp (x : spec_float) :
  valid_binary (SFopp x) = valid_binary x.
Proof. destruct x; reflexivity. Qed.

(** An integer of at most 53 bits is its own rounding. *)
Lemma binary_round_integer (p : positive) :
  (Zpos p <= 2 ^ 53)%Z ->
  nonneg_finite (binary_round prec emax false p 0) = true /\
  valid_binary (binary_round prec emax false p 0) = true /\
  SF2Q (binary_round prec emax false p 0) == inject_Z (Zpos p).
Proof.
  intros Hp.
  destruct (binary_round_aligned false p 0) as [mz [ez [R [He Hv]]]].
  assert (Hx : inject_Z (Zpos mz) * 2 ^ ez == inject_Z (Zpos p)).
  { rewrite Hv. change (2 ^ 0) with 1. ring. }
  destruct (binary_round_aux_locates false (Zpos mz) ez loc_Exact (inject_Z (Zpos p))
              ltac:(lia) He (locates_exact _ _ _ (Qeq_sym _ _ Hx)))
    as [q [E [m1 [R' [Hc [Hm1 [HE [L1 [L2 Hq]]]]]]]]].
  rewrite R, R'.
  assert (Hgrid : inject_Z (Zpos p) == inject_Z m1 * 2 ^ E).
  { destruct (Z.le_gt_cases E 0) as [E0|E0].
    - pose proof (rescale (Zpos p) E (- E) ltac:(lia)) as Rs.
      replace (E + - E)%Z with 0%Z in Rs by lia.
      change (2 ^ 0) with 1 in Rs. rewrite Qmult_1_r in Rs.
      rewrite Rs in L1, L2 |- *.
      apply Qmult_pow2_le in L1. apply Qmult_pow2_lt in L2.
      replace m1 with (2 ^ (- E) * Zpos p)%Z by lia. reflexivity.
    - assert (Hm52 : (2 ^ 52 <= m1)%Z) by (destruct Hc; lia).
      assert (HE1 : (E <= 1)%Z).
      { destruct (Z.le_gt_cases E 1) as [H|H]; [exact H|]. exfalso.
        apply (Qlt_irrefl (inject_Z (2 ^ 53))).
        apply Qlt_le_trans with (inject_Z (2 ^ 52) * 2 ^ 2).
        - reflexivity.
        - apply Qle_trans with (inject_Z m1 * 2 ^ E).
          + apply Qle_trans with (inject_Z (2 ^ 52) * 2 ^ E).
            * apply Qmult_le_l; [reflexivity|]. apply pow2_le. lia.
            * apply Qmult_le_compat_r; [|apply Qlt_le_weak, pow2_pos].
              rewrite <- Zle_Qle. exact Hm52.
          + eapply Qle_trans; [exact L1|]. rewrite <- Zle_Qle. exact Hp. }
      assert (E = 1%Z) by lia. subst E.
      change (2 ^ 1) with 2 in *.
      assert (H1 : inject_Z m1 * 2 == inject_Z (m1 * 2)).
      { rewrite inject_Z_mult. reflexivity. }
      rewrite H1 in L1 |- *. rewrite <- Zle_Qle in L1.
      replace (m1 * 2)%Z with (Zpos p) by lia. reflexivity. }
  assert (Hqm : q = m1).
  { destruct Hq as [Hq|[_ Hne]]; [exact Hq|]. exfalso. apply Hne. exact Hgrid. }
  subst q.
  assert (Hsmall : inject_Z m1 * 2 ^ E < 2 ^ 1024).
  { rewrite <- Hgrid. apply Qle_lt_trans with (inject_Z (2 ^ 53)).
    - rewrite <- Zle_Qle. exact Hp.
    - change (inject_Z (2 ^ 53)) with (2 ^ 53). apply pow2_lt. lia. }
  destruct (rounded_small m1 E Hc ltac:(lia) HE Hsmall) as [N V].
  split; [exact N|]. split.
  - apply rounded_valid; try assumption. lia.
  - rewrite V. symmetry. exact Hgrid.
Qed.

Lemma binary_normalize_integer (n : Z) :
  (Z.abs n <= 2 ^ 53)%Z ->
  valid_binary (binary_normalize prec emax n 0 false) = true /\
  SF2Q (binary_normalize prec emax n 0 false) == inject_Z n /\
  ((0 <= n)%Z -> nonneg_finite (binary_normalize prec emax n 0 false) = true).
Proof.
  intros Hn. destruct n as [|p|p]; cbn [binary_normalize].
  - repeat split; reflexivity.
  - destruct (binary_round_integer p ltac:(lia)) as [N [V Hv]].
    repeat split; auto.
  - destruct (binary_round_integer p ltac:(lia)) as [N [V Hv]].
    rewrite binary_round_opp, valid_binary_opp, SF2Q_opp, Hv.
    split; [exact V|]. split; [|lia].
    change (Z.neg p) with (- Zpos p)%Z. rewrite inject_Z_opp. reflexivity.
Qed.

End Binary64.

(** ** Bounds on the primitive operations *)

Section FloatBounds.
Local Open Scope Q_scope.

Lemma F2Q_nonneg (x : float) : nonneg x -> 0 <= F2Q x.
Proof. apply SF2Q_nonneg. Qed.

Lemma leb_F2Q (a b : float) :
  nonneg a -> nonneg b -> ((a <=? b)%float = true <-> F2Q a <= F2Q b).
Proof.
  intros Na Nb. rewrite FloatAxioms.leb_spec.
  apply SFleb_Qle; try assumption; apply Prim2SF_valid.
Qed.

Lemma ltb_F2Q (a b : float) :
  nonneg a -> nonneg b -> ((a <? b)%float = true <-> F2Q a < F2Q b).
Proof.
  intros Na Nb. rewrite FloatAxioms.ltb_spec.
  apply SFltb_Qlt; try assumption; apply Prim2SF_valid.
Qed.

Lemma nonneg_between (a C : float) :
  (0 <=? a)%float = true -> (a <=? C)%float = true -> nonneg C -> nonneg a.
Proof.
  unfold nonneg. rewrite !FloatAxioms.leb_spec.
  change (Prim2SF 0%float) with (S754_zero false).
  destruct (Prim2SF a) as [[|]|[|]| |[|] m e], (Prim2SF C) as [c|c| |[|] c ec];
    cbn; congruence.
Qed.

Lemma nonneg_leb_zero (a : float) : nonneg a -> (0 <=? a)%float = true.
Proof.
  unfold nonneg. rewrite FloatAxioms.leb_spec.
  change (Prim2SF 0%float) with (S754_zero false). apply SFleb_zero_l.
Qed.

Lemma add_rounds (a b : float) :
  nonneg a -> nonneg b -> rounds_to (Prim2SF (a + b)%float) (F2Q a + F2Q b).
Proof.
  intros Na Nb. rewrite add_spec.
  apply SFadd_rounds; try assumption; apply Prim2SF_valid.
Qed.

Lemma mul_rounds (a b : float) :
  nonneg a -> nonneg b -> rounds_to (Prim2SF (a * b)%float) (F2Q a * F2Q b).
Proof.
  intros Na Nb. rewrite mul_spec.
  apply SFmul_rounds; try assumption; apply Prim2SF_valid.
Qed.

Lemma div_rounds (a b : float) :
  nonneg a -> nonneg b -> 0 < F2Q b ->
  rounds_to (Prim2SF (a / b)%float) (F2Q a / F2Q b).
Proof.
  intros Na Nb Hb. rewrite div_spec.
  apply SFdiv_rounds; try assumption; apply Prim2SF_valid.
Qed.

(** A rounded result stays within any bounds that are themselves numbers. *)
Lemma rounds_to_upper (r : float) (x : Q) (C : float) :
  rounds_to (Prim2SF r) x -> nonneg C -> 0 <= x -> x <= F2Q C ->
  nonneg r /\ F2Q r <= F2Q C.
Proof.
  intros Hr NC H0 Hx.
  assert (Nr : nonneg r).
  { apply (rounds_to_nonneg _ x (Prim2SF C)); try assumption. apply Prim2SF_valid. }
  split; [exact Nr|].
  apply leb_F2Q; try assumption. rewrite FloatAxioms.leb_spec.
  apply (Hr (Prim2SF C) NC (Prim2SF_valid C)). exact Hx.
Qed.

Lemma rounds_to_lower (r : float) (x : Q) (C : float) :
  rounds_to (Prim2SF r) x -> nonneg C -> F2Q C <= x ->
  (C <=? r)%float = true.
Proof.
  intros Hr NC Hx. rewrite FloatAxioms.leb_spec.
  apply (Hr (Prim2SF C) NC (Prim2SF_valid C)). exact Hx.
Qed.

(** Two non-negative numbers of the same non-zero value are the same. *)
Lemma F2Q_inj (a b : float) :
  nonneg a -> nonneg b -> F2Q a == F2Q b -> 0 < F2Q a -> a = b.
Proof.
  unfold nonneg, F2Q. intros Na Nb Heq Hpos. apply Prim2SF_inj.
  pose proof (SFcompare_Qcompare _ _ Na Nb (Prim2SF_valid a) (Prim2SF_valid b)) as Hc.
  rewrite (proj1 (Qeq_alt _ _) Heq) in Hc.
  rewrite Heq in Hpos.
  destruct (Prim2SF a) as [sa|sa| |[|] ma ea], (Prim2SF b) as [sb|sb| |[|] mb eb];
    cbn [nonneg_finite SF2Q] in *; try discriminate.
  cbn [SFcompare] in Hc.
  destruct (Z.compare_spec ea eb) as [He|He|He]; try discriminate.
  change (Pos.compare_cont Eq ma mb) with (Pos.compare ma mb) in Hc.
  destruct (Pos.compare_spec ma mb) as [Hm|Hm|Hm]; try discriminate.
  subst. reflexivity.
Qed.

Lemma number_of_Z_F2Q (n : Z) :
  (Z.abs n <= 2 ^ 53)%Z ->
  F2Q (number_of_Z n) == inject_Z n /\ ((0 <= n)%Z -> nonneg (number_of_Z n)).
Proof.
  intros Hn. unfold F2Q, nonneg, number_of_Z.
  destruct (binary_normalize_integer n Hn) as [V [Hv N]].
  rewrite Prim2SF_SF2Prim by exact V. split; assumption.
Qed.

Lemma Qfloor_unique (x : Q) (n : Z) :
  inject_Z n <= x -> x < inject_Z (n + 1) -> Qfloor x = n.
Proof.
  intros Hlo Hhi.
  pose proof (Qfloor_le x) as F1. pose proof (Qlt_floor x) as F2.
  assert (A : (n < Qfloor x + 1)%Z).
  { rewrite Zlt_Qlt. eapply Qle_lt_trans; [exact Hlo|exact F2]. }
  assert (B : (Qfloor x < n + 1)%Z).
  { rewrite Zlt_Qlt. eapply Qle_lt_trans; [exact F1|exact Hhi]. }
  lia.
Qed.

(** [Math.round] returns the floor of [x + 1/2]: the nearest integer, a
    tie going up. *)
Lemma Math_round_fraction (s : bool) (m : positive) (e : Z) :
  (e < 0)%Z ->
  let sm := if s then Zneg m else Zpos m in
  Qfloor (inject_Z sm * 2 ^ e + (1 # 2)) = ((2 * sm + 2 ^ (- e)) / 2 ^ (- e + 1))%Z.
Proof.
  intros He sm. set (k := (- e)%Z).
  assert (Hk : (0 < k)%Z) by (unfold k; lia).
  assert (Hp : (0 < 2 ^ (k + 1))%Z) by (apply Z.pow_pos_nonneg; lia).
  set (n := ((2 * sm + 2 ^ k) / 2 ^ (k + 1))%Z).
  assert (D1 : (2 ^ (k + 1) * n <= 2 * sm + 2 ^ k)%Z) by (apply Z.mul_div_le; exact Hp).
  assert (D2 : (2 * sm + 2 ^ k < 2 ^ (k + 1) * (n + 1))%Z).
  { change (n + 1)%Z with (Z.succ n). apply Z.mul_succ_div_gt; exact Hp. }
  assert (Hx : inject_Z sm * 2 ^ e + (1 # 2)
               == inject_Z (2 * sm + 2 ^ k) * 2 ^ (- (k + 1))).
  { rewrite inject_Z_plus, inject_Z_mult, inject_Z_pow2 by lia.
    replace (- (k + 1))%Z with (e + -1)%Z by (unfold k; lia).
    rewrite pow2_add. change (2 ^ (-1)) with (1 # 2).
    assert (Hke : 2 ^ k * 2 ^ e == 1).
    { rewrite <- pow2_add. replace (k + e)%Z with 0%Z by (unfold k; lia). reflexivity. }
    change (inject_Z 2) with 2.
    transitivity (inject_Z sm * 2 ^ e + (2 ^ k * 2 ^ e) * (1 # 2)); [rewrite Hke|]; ring. }
  assert (Hn : forall j : Z, inject_Z j == inject_Z (2 ^ (k + 1) * j) * 2 ^ (- (k + 1))).
  { intros j. rewrite <- rescale by lia.
    replace (- (k + 1) + (k + 1))%Z with 0%Z by lia. change (2 ^ 0) with 1. ring. }
  apply Qfloor_unique.
  - rewrite Hx, (Hn n). apply Qmult_pow2_le. exact D1.
  - rewrite Hx, (Hn (n + 1)%Z). apply Qmult_pow2_lt. exact D2.
Qed.

Lemma Qfloor_integer_half (z : Z) : Qfloor (inject_Z z + (1 # 2)) = z.
Proof.
  apply Qfloor_unique.
  - rewrite <- (Qplus_0_r (inject_Z z)) at 1. apply Qplus_le_r. discriminate.
  - rewrite inject_Z_plus. apply Qplus_lt_r. reflexivity.
Qed.

Lemma finite_mantissa_bound (s : bool) (m : positive) (e : Z) :
  bounded prec emax m e = true -> (Zpos m < 2 ^ 53)%Z /\ (emin64 <= e)%Z.
Proof.
  intros V. apply bounded_spec in V. destruct V as [V _]. rewrite fexp_eq in V.
  destruct (digits2_pos_bounds m) as [_ Hi].
  split; [|lia].
  eapply Z.lt_le_trans; [exact Hi|]. apply Z.pow_le_mono_r; lia.
Qed.

Lemma Math_round_value (t : float) :
  F2Q (Math_round t) == inject_Z (Qfloor (F2Q t + (1 # 2))).
Proof.
  unfold Math_round, F2Q at 2.
  pose proof (Prim2SF_valid t) as V.
  destruct (Prim2SF t) as [s|s| |s m e] eqn:Et.
  - unfold F2Q. rewrite Et. reflexivity.
  - unfold F2Q. rewrite Et. reflexivity.
  - unfold F2Q. rewrite Et. reflexivity.
  - cbn [valid_binary] in V. destruct (finite_mantissa_bound s m e V) as [Hm He].
    destruct (Z.leb_spec 0 e) as [E0|E0].
    + unfold F2Q. rewrite Et. cbn [SF2Q].
      set (sm := if s then Z.neg m else Z.pos m).
      assert (Hz : inject_Z sm * 2 ^ e == inject_Z (sm * 2 ^ e)).
      { rewrite inject_Z_mult, inject_Z_pow2 by exact E0. reflexivity. }
      rewrite Hz, Qfloor_integer_half. reflexivity.
    + cbn [SF2Q]. rewrite (Math_round_fraction s m e E0). cbv zeta.
      set (sm := if s then Z.neg m else Z.pos m).
      set (n := ((2 * sm + 2 ^ (- e)) / 2 ^ (- e + 1))%Z).
      destruct (Z.eqb_spec n 0) as [N0|N0].
      * rewrite N0. destruct s; reflexivity.
      * apply number_of_Z_F2Q.
        assert (Hp : (0 < 2 ^ (- e))%Z) by (apply Z.pow_pos_nonneg; lia).
        assert (Hp1 : (2 ^ (- e + 1) = 2 * 2 ^ (- e))%Z).
        { rewrite Z.pow_add_r by lia. lia. }
        assert (Hsm : (- 2 ^ 53 < sm < 2 ^ 53)%Z) by (unfold sm; destruct s; lia).
        assert (D1 : (2 ^ (- e + 1) * n <= 2 * sm + 2 ^ (- e))%Z)
          by (apply Z.mul_div_le; lia).
        assert (D2 : (2 * sm + 2 ^ (- e) < 2 ^ (- e + 1) * (n + 1))%Z).
        { change (n + 1)%Z with (Z.succ n). apply Z.mul_succ_div_gt; lia. }
        assert (H2 : (2 <= 2 ^ (- e))%Z).
        { change 2%Z with (2 ^ 1)%Z at 1. apply Z.pow_le_mono_r; lia. }
        rewrite Hp1 in D1, D2. nia.
Qed.

Lemma Math_round_nonneg (t : float) :
  nonneg t -> nonneg (Math_round t).
Proof.
  unfold nonneg, Math_round. intros Nt.
  pose proof (Prim2SF_valid t) as V.
  destruct (Prim2SF t) as [s|s| |[|] m e] eqn:Et; try discriminate.
  - rewrite Et. reflexivity.
  - cbn [valid_binary] in V. destruct (finite_mantissa_bound false m e V) as [Hm He].
    destruct (Z.leb_spec 0 e) as [E0|E0]; [rewrite Et; reflexivity|].
    set (n := ((2 * Zpos m + 2 ^ (- e)) / 2 ^ (- e + 1))%Z).
    assert (Hp : (0 < 2 ^ (- e))%Z) by (apply Z.pow_pos_nonneg; lia).
    assert (Hp1 : (2 ^ (- e + 1) = 2 * 2 ^ (- e))%Z).
    { rewrite Z.pow_add_r by lia. lia. }
    assert (D1 : (2 ^ (- e + 1) * n <= 2 * Zpos m + 2 ^ (- e))%Z)
      by (apply Z.mul_div_le; lia).
    assert (D2 : (2 * Zpos m + 2 ^ (- e) < 2 ^ (- e + 1) * (n + 1))%Z).
    { change (n + 1)%Z with (Z.succ n). apply Z.mul_succ_div_gt; lia. }
    assert (H2 : (2 <= 2 ^ (- e))%Z).
    { change 2%Z with (2 ^ 1)%Z at 1. apply Z.pow_le_mono_r; lia. }
    rewrite Hp1 in D1, D2.
    destruct (Z.eqb_spec n 0) as [N0|N0]; [reflexivity|].
    apply number_of_Z_F2Q; nia.
Qed.

End FloatBounds.

(** ** Exact identities *)

Lemma SFleb_antisym_finite (r : spec_float) (m : positive) (e : Z) :
  SFleb r (S754_finite false m e) = true ->
  SFleb (S754_finite false m e) r = true ->
  r = S754_finite false m e.
Proof.
  unfold SFleb.
  destruct r as [s|s| |s mr er]; cbn [SFcompare]; try (destruct s; discriminate).
  - discriminate.
  - destruct s; [discriminate|].
    change (Pos.compare_cont Eq) with Pos.compare.
    destruct (Z.compare_spec er e) as [He|He|He];
      destruct (Z.compare_spec e er) as [He'|He'|He']; try lia; try discriminate.
    subst er.
    destruct (Pos.compare_spec mr m) as [Hm|Hm|Hm];
      destruct (Pos.compare_spec m mr) as [Hm'|Hm'|Hm']; try lia; try discriminate.
    subst mr. reflexivity.
Qed.

Lemma SFdiv_one_positive (m : positive) (e : Z) :
  bounded prec emax m e = true ->
  SF64div (S754_finite false m e) (Prim2SF 1) = S754_finite false m e.
Proof.
  intros V.
  pose proof (SFdiv_rounds (S754_finite false m e) (Prim2SF 1)
                eq_refl eq_refl V eq_refl eq_refl) as R.
  assert (Hx : (SF2Q (S754_finite false m e) / SF2Q (Prim2SF 1)
                == SF2Q (S754_finite false m e))%Q).
  { assert (H1 : (SF2Q (Prim2SF 1) == 1)%Q) by (vm_compute; reflexivity).
    rewrite H1. unfold Qdiv. change (/ 1)%Q with 1%Q. apply Qmult_1_r. }
  destruct (R (S754_finite false m e) eq_refl V) as [Up Lo].
  apply SFleb_antisym_finite.
  - apply Up. rewrite Hx. apply Qle_refl.
  - apply Lo. rewrite Hx. apply Qle_refl.
Qed.

Lemma SFdiv_one (x : spec_float) :
  valid_binary x = true -> SF64div x (Prim2SF 1) = x.
Proof.
  intros V. destruct x as [s|s| |s m e].
  - destruct s; reflexivity.
  - destruct s; reflexivity.
  - reflexivity.
  - destruct s; [|apply SFdiv_one_positive; exact V].
    pose proof (SFdiv_one_positive m e V) as P.
    change (Prim2SF 1) with (S754_finite false 4503599627370496 (-52)) in *.
    unfold SF64div, SFdiv in *. cbn [xorb] in *.
    destruct (SFdiv_core_binary prec emax (Zpos m) e (Zpos 4503599627370496) (-52))
      as [[mz ez] lz].
    rewrite binary_round_aux_opp, P. reflexivity.
Qed.

(** [x / 1] is [x], for every number. *)
Lemma div_one (x : float) : x / 1 = x.
Proof.
  apply Prim2SF_inj. rewrite div_spec. apply SFdiv_one, Prim2SF_valid.
Qed.

(** [0 + x] is [x], except that [0 + -0] is [0]. *)
Lemma add_zero_l (x : float) :
  Prim2SF x <> S754_zero true -> 0 + x = x.
Proof.
  intros Hx. apply Prim2SF_inj. rewrite add_spec.
  change (Prim2SF 0) with (S754_zero false).
  destruct (Prim2SF x) as [[|]|s| |s m e]; try reflexivity. congruence.
Qed.

Lemma add_zero_neg_zero (x : float) :
  Prim2SF x = S754_zero true -> 0 + x = 0.
Proof.
  intros Hx. apply Prim2SF_inj. rewrite add_spec, Hx. reflexivity.
Qed.

Lemma neg_zero_Prim2SF (x : float) :
  Prim2SF x = S754_zero true <-> x = (-0)%float.
Proof.
  split.
  - intros H. apply Prim2SF_inj. rewrite H. reflexivity.
  - intros ->. reflexivity.
Qed.

(** ** The sign of zero, and the finite numbers *)

Section Signs.
Local Open Scope Q_scope.

Lemma valid_exponent (s : bool) (m : positive) (e : Z) :
  valid_binary (S754_finite s m e) = true -> (emin64 <= e)%Z.
Proof.
  cbn [valid_binary]. unfold bounded, canonical_mantissa. intros H.
  apply andb_prop in H. destruct H as [H _].
  apply Z.eqb_eq in H. rewrite fexp_eq in H. lia.
Qed.

(** A mantissa at an exponent a number can have is not rounded to zero. *)
Lemma binary_round_positive (m : positive) (e : Z) (s : bool) :
  (emin64 <= e)%Z -> binary_round prec emax false m e <> S754_zero s.
Proof.
  intros He H.
  destruct (binary_round_aligned false m e) as [mz [ez [R [Hz Hv]]]].
  pose proof (binary_round_aux_rounds (Zpos mz) ez loc_Exact
                (inject_Z (Zpos m) * 2 ^ e) ltac:(lia) Hz
                (locates_exact _ _ _ (Qeq_sym _ _ Hv))) as Hr.
  rewrite <- R, H in Hr.
  destruct (Hr (S754_finite false 1 emin64) eq_refl eq_refl) as [_ Hlo].
  assert (Hx : SF2Q (S754_finite false 1 emin64) <= inject_Z (Zpos m) * 2 ^ e).
  { cbn [SF2Q]. apply Qle_trans with (inject_Z 1 * 2 ^ e).
    - apply Qmult_le_l; [reflexivity|]. apply pow2_le. exact He.
    - apply Qmult_le_compat_r; [|apply Qlt_le_weak, pow2_pos].
      rewrite <- Zle_Qle. lia. }
  specialize (Hlo Hx). destruct s; discriminate.
Qed.

Lemma binary_round_nonzero (s : bool) (m : positive) (e : Z) (s' : bool) :
  (emin64 <= e)%Z -> binary_round prec emax s m e <> S754_zero s'.
Proof.
  intros He. destruct s; [|apply binary_round_positive; exact He].
  rewrite binary_round_opp. intros H.
  destruct (binary_round prec emax false m e) as [z|z| |z mz ez] eqn:E;
    try discriminate.
  revert E. apply binary_round_positive. exact He.
Qed.

(** A sum is the negative zero only when both numbers are. *)
Lemma SFadd_not_neg_zero (a b : spec_float) :
  valid_binary a = true -> valid_binary b = true ->
  a <> S754_zero true -> SF64add a b <> S754_zero true.
Proof.
  intros Va Vb Ha. unfold SF64add, SFadd.
  destruct a as [[|]|[|]| |sa ma ea], b as [[|]|[|]| |sb mb eb];
    try congruence; try discriminate.
  apply valid_exponent in Va, Vb.
  set (ez := Z.min ea eb).
  assert (He : (emin64 <= ez)%Z) by (unfold ez; lia).
  destruct (cond_Zopp sa (Zpos (fst (shl_align ma ea ez)))
            + cond_Zopp sb (Zpos (fst (shl_align mb eb ez))))%Z as [|p|p];
    cbn [binary_normalize].
  - discriminate.
  - apply binary_round_nonzero. exact He.
  - apply binary_round_nonzero. exact He.
Qed.

Lemma add_not_neg_zero (a b : float) :
  Prim2SF a <> S754_zero true -> Prim2SF (a + b) <> S754_zero true.
Proof.
  intros Ha. rewrite add_spec.
  apply SFadd_not_neg_zero; [apply Prim2SF_valid|apply Prim2SF_valid|exact Ha].
Qed.

(** The composite starts from 0, so it is never the negative zero, whatever
    the indicators are. *)
Lemma composite_not_neg_zero (input : AssessmentInput) :
  Prim2SF (composite input) <> S754_zero true.
Proof.
  unfold composite.
  assert (H : Prim2SF 0%float <> S754_zero true) by discriminate.
  revert H. generalize 0%float. generalize (theoryScores input).
  induction l as [|ts l IH]; intros acc H; cbn [fold_left]; [exact H|].
  apply IH. apply add_not_neg_zero. exact H.
Qed.

(** The finite numbers are the zeros and the numbers with a mantissa. *)
Lemma is_finite_Prim2SF (x : float) :
  is_finite x = match Prim2SF x with
                | S754_zero _ | S754_finite _ _ _ => true
                | _ => false
                end.
Proof.
  unfold is_finite, is_nan, is_infinity.
  rewrite !FloatAxioms.eqb_spec, abs_spec.
  change (Prim2SF infinity) with (S754_infinity false). unfold SFeqb.
  destruct (Prim2SF x) as [s|s| |s m e] eqn:E.
  - reflexivity.
  - destruct s; reflexivity.
  - reflexivity.
  - rewrite SFcompare_refl by discriminate. reflexivity.
Qed.

Lemma not_finite_cases (x : float) :
  is_finite x = false -> x = nan \/ x = infinity \/ x = neg_infinity.
Proof.
  rewrite is_finite_Prim2SF. intros H.
  destruct (Prim2SF x) as [s|[|]| |s m e] eqn:E; try discriminate.
  - right. right. apply Prim2SF_inj. rewrite E. reflexivity.
  - right. left. apply Prim2SF_inj. rewrite E. reflexivity.
  - left. apply Prim2SF_inj. rewrite E. reflexivity.
Qed.

(** Finite numbers that are the same value are the same number, unless
    one is the negative zero. *)
Lemma SameValueZero_finite (x y : float) :
  is_finite x = true -> is_finite y = true -> SameValueZero x y = true ->
  Prim2SF x <> S754_zero true -> Prim2SF y <> S754_zero true ->
  x = y.
Proof.
  rewrite !is_finite_Prim2SF. unfold SameValueZero, is_nan.
  rewrite !FloatAxioms.eqb_spec. unfold SFeqb.
  intros Fx Fy H Zx Zy. apply Prim2SF_inj.
  destruct (Prim2SF x) as [[|]|sx| |sx mx ex], (Prim2SF y) as [[|]|sy| |sy my ey];
    try discriminate; try congruence;
    try (destruct sx; discriminate); try (destruct sy; discriminate);
    rewrite ?SFcompare_refl in H by discriminate;
    cbn [negb andb] in H; rewrite Bool.orb_false_r in H;
    try (destruct sx; discriminate).
  cbn [SFcompare] in H.
  change (Pos.compare_cont Eq mx my) with (Pos.compare mx my) in H.
  destruct sx, sy; try discriminate;
    destruct (Z.compare_spec ex ey) as [He|He|He]; try discriminate;
    destruct (Pos.compare_spec mx my) as [Hm|Hm|Hm]; try discriminate;
    subst; reflexivity.
Qed.

End Signs.
(** ** Classification *)

Lemma nan_comparisons (c s : float) :
  is_nan s = true -> (c <=? s) = false /\ (s <? c) = false.
Proof.
  intros Hn. split.
  - destruct (c <=? s) eqn:E; [|reflexivity].
    apply leb_is_nan in E. destruct E; congruence.
  - destruct (s <? c) eqn:E; [|reflexivity].
    apply ltb_is_nan in E. destruct E; congruence.
Qed.

Lemma classify_cases (s : float) :
  classify s =
    if is_nan s then C0_Reactive
    else if s <? 0.20 then C0_Reactive
    else if s <? 0.50 then C1_Functional
    else if s <? 0.70 then C2_Emerging
    else if s <? 0.85 then C3_Autonomous
    else C4_Transcendent.
Proof.
  unfold classify. destruct (is_nan s) eqn:Hn.
  - rewrite !(proj1 (nan_comparisons _ s Hn)). reflexivity.
  - rewrite !(leb_negb_ltb s _ Hn) by reflexivity.
    destruct (s <? 0.20) eqn:H20.
    + assert (H50 : (s <? 0.50) = true) by (apply (ltb_trans _ _ _ H20); reflexivity).
      assert (H70 : (s <? 0.70) = true) by (apply (ltb_trans _ _ _ H50); reflexivity).
      assert (H85 : (s <? 0.85) = true) by (apply (ltb_trans _ _ _ H70); reflexivity).
      rewrite H50, H70, H85. reflexivity.
    + destruct (s <? 0.50) eqn:H50.
      * assert (H70 : (s <? 0.70) = true) by (apply (ltb_trans _ _ _ H50); reflexivity).
        assert (H85 : (s <? 0.85) = true) by (apply (ltb_trans _ _ _ H70); reflexivity).
        rewrite H70, H85. reflexivity.
      * destruct (s <? 0.70) eqn:H70.
        -- assert (H85 : (s <? 0.85) = true) by (apply (ltb_trans _ _ _ H70); reflexivity).
           rewrite H85. reflexivity.
        -- destruct (s <? 0.85); reflexivity.
Qed.

(** C2. [classify] is a total function of the score whose five bands
    partition the numbers at 0.20, 0.50, 0.70 and 0.85, a boundary value
    belonging to the band above it: the label is "C-4 Transcendent" exactly
    when s >= 0.85, "C-3 Autonomous" exactly when 0.70 <= s < 0.85,
    "C-2 Emerging" exactly when 0.50 <= s < 0.70, "C-1 Functional" exactly
    when 0.20 <= s < 0.50, and "C-0 Reactive" exactly when s < 0.20 (or s is
    NaN, which is no point of the real line). *)
Theorem classify_bands (s : float) :
  (label (classify s) = "C-4 Transcendent" <-> (0.85 <=? s) = true) /\
  (label (classify s) = "C-3 Autonomous"
     <-> (0.70 <=? s) = true /\ (s <? 0.85) = true) /\
  (label (classify s) = "C-2 Emerging"
     <-> (0.50 <=? s) = true /\ (s <? 0.70) = true) /\
  (label (classify s) = "C-1 Functional"
     <-> (0.20 <=? s) = true /\ (s <? 0.50) = true) /\
  (label (classify s) = "C-0 Reactive"
     <-> (s <? 0.20) = true \/ is_nan s = true).
Proof.
  rewrite classify_cases. destruct (is_nan s) eqn:Hn.
  - pose proof (fun c => proj1 (nan_comparisons c s Hn)) as Hle.
    pose proof (fun c => proj2 (nan_comparisons c s Hn)) as Hlt.
    rewrite !Hle, !Hlt. simpl.
    repeat split; intros; try discriminate; intuition (auto; discriminate).
  - rewrite !(leb_negb_ltb s _ Hn) by reflexivity.
    destruct (s <? 0.20) eqn:H20.
    + assert (H50 : (s <? 0.50) = true) by (apply (ltb_trans _ _ _ H20); reflexivity).
      assert (H70 : (s <? 0.70) = true) by (apply (ltb_trans _ _ _ H50); reflexivity).
      assert (H85 : (s <? 0.85) = true) by (apply (ltb_trans _ _ _ H70); reflexivity).
      rewrite H50, H70, H85. simpl.
      repeat split; intros; try discriminate; intuition (auto; discriminate).
    + destruct (s <? 0.50) eqn:H50.
      * assert (H70 : (s <? 0.70) = true) by (apply (ltb_trans _ _ _ H50); reflexivity).
        assert (H85 : (s <? 0.85) = true) by (apply (ltb_trans _ _ _ H70); reflexivity).
        rewrite H70, H85. simpl.
        repeat split; intros; try discriminate; intuition (auto; discriminate).
      * destruct (s <? 0.70) eqn:H70.
        -- assert (H85 : (s <? 0.85) = true) by (apply (ltb_trans _ _ _ H70); reflexivity).
           rewrite H85. simpl.
           repeat split; intros; try discriminate; intuition (auto; discriminate).
        -- destruct (s <? 0.85); simpl;
             repeat split; intros; try discriminate; intuition (auto; discriminate).
Qed.

(** ** The theory scores and the composite *)

(** C10. The result lists exactly six theory scores, in the order GWT, RPT,
    HOT, PP, AST, CROSS, each carrying its weight of the table (0.25, 0.15,
    0.20, 0.20, 0.10, 0.10), whatever the indicator values are. *)
Theorem theory_scores_layout (rt : Runtime) (input : AssessmentInput) (now : string) :
  List.length (theory_scores (assess input now)) = 6%nat /\
  map theory (theory_scores (assess input now))
  = ["GWT"; "RPT"; "HOT"; "PP"; "AST"; "CROSS"] /\
  map weight (theory_scores (assess input now))
  = [0.25; 0.15; 0.20; 0.20; 0.10; 0.10] /\
  Forall (fun ts => weight ts = get_property THEORY_WEIGHTS (theory ts))
         (theory_scores (assess input now)).
Proof.
  unfold assess. cbn [theory_scores theoryScores].
  split; [reflexivity|]. split; [reflexivity|]. split; [reflexivity|].
  repeat constructor.
Qed.

(** C1. The composite that [assess] computes is the sum, over the six
    categories in table order, of the category's score times its weight
    (0.25, 0.15, 0.20, 0.20, 0.10, 0.10), and the six weights add up to
    exactly 1. *)
Theorem composite_weighted_sum (rt : Runtime) (input : AssessmentInput) (now : string) :
  composite input
  = fold_left (fun sum ts => sum + score ts * weight ts)
              (theory_scores (assess input now)) 0 /\
  composite input
  = 0 + averageScore (gwt input) * 0.25 + averageScore (rpt input) * 0.15
      + averageScore (hot input) * 0.20 + averageScore (pp input) * 0.20
      + averageScore (ast input) * 0.10 + crossScore input * 0.10 /\
  Object_keys THEORY_WEIGHTS = ["GWT"; "RPT"; "HOT"; "PP"; "AST"; "CROSS"] /\
  fold_left (fun a w => a + w) (Object_values THEORY_WEIGHTS) 0 = 1 /\
  composite (uniform_input 1 (Some 1) (Some 1)) = 1.
Proof.
  split; [reflexivity|]. split; [reflexivity|]. split; [reflexivity|].
  split; vm_compute; reflexivity.
Qed.

(** ** Category scores *)

Lemma SameValueZero_refl (x : float) : SameValueZero x x = true.
Proof.
  unfold SameValueZero, is_nan. destruct (x =? x); reflexivity.
Qed.



Lemma add_neg_zero_l (x : float) : -0 + x = x.
Proof.
  apply Prim2SF_inj. rewrite add_spec.
  change (Prim2SF (-0)) with (S754_zero true).
  destruct (Prim2SF x) as [[|]|s| |s m e]; reflexivity.
Qed.

(** C6. The CROSS score is 0 when neither optional field is present, the
    present field's value when exactly one is, and the mean of the two
    values when both are. *)
Theorem crossScore_cases (input : AssessmentInput) :
  match recursive_self_reference input, proof_chain_continuity input with
  | None, None => crossScore input = 0
  | Some a, None => SameValueZero (crossScore input) a = true
  | None, Some b => SameValueZero (crossScore input) b = true
  | Some a, Some b =>
      crossScore input = (0 + a + b) / 2 /\
      SameValueZero (crossScore input) ((a + b) / 2) = true
  end.
Proof.
  unfold crossScore, crossIndicators.
  destruct (recursive_self_reference input) as [a|],
           (proof_chain_continuity input) as [b|];
    cbn [set_property String.eqb Ascii.eqb Bool.eqb Object_keys Object_values
         map List.length Nat.ltb Nat.leb fold_left fst snd].
  - change (length_number _) with 2. split; [reflexivity|].
    destruct (Prim2SF a) as [[|]|s| |s m e] eqn:Ea;
      try (rewrite (add_zero_l a) by (rewrite Ea; discriminate);
           apply SameValueZero_refl).
    rewrite (add_zero_neg_zero a Ea).
    apply neg_zero_Prim2SF in Ea. subst a.
    destruct (Prim2SF b) as [[|]|s| |s m e] eqn:Eb;
      try (rewrite (add_zero_l b) by (rewrite Eb; discriminate);
           rewrite (add_neg_zero_l b); apply SameValueZero_refl).
    apply neg_zero_Prim2SF in Eb. subst b. reflexivity.
  - change (length_number _) with 1. rewrite div_one.
    destruct (Prim2SF a) as [[|]|s| |s m e] eqn:Ea;
      try (rewrite add_zero_l by (rewrite Ea; discriminate); apply SameValueZero_refl).
    rewrite (add_zero_neg_zero a Ea).
    apply neg_zero_Prim2SF in Ea. subst a. reflexivity.
  - change (length_number _) with 1. rewrite div_one.
    destruct (Prim2SF b) as [[|]|s| |s m e] eqn:Eb;
      try (rewrite add_zero_l by (rewrite Eb; discriminate); apply SameValueZero_refl).
    rewrite (add_zero_neg_zero b Eb).
    apply neg_zero_Prim2SF in Eb. subst b. reflexivity.
  - reflexivity.
Qed.

(** ** Concatenation *)

Lemma append_assoc (a b c : string) : (a ++ b) ++ c = a ++ (b ++ c).
Proof.
  induction a as [|x a IH]; cbn [String.append]; [reflexivity|].
  rewrite IH. reflexivity.
Qed.

Lemma append_inv_head (a b c : string) : a ++ b = a ++ c -> b = c.
Proof.
  induction a as [|x a IH]; cbn [String.append]; intros H; [exact H|].
  injection H as H. exact (IH H).
Qed.

(** ** The unit-interval invariant *)

Section UnitInterval.
Local Open Scope Q_scope.

Lemma in_unit_bounds (v : float) :
  in_unit v = true -> nonneg v /\ F2Q v <= 1.
Proof.
  unfold in_unit. rewrite andb_true_iff. intros [H0 H1].
  assert (Nv : nonneg v) by (apply (nonneg_between v 1%float); [assumption..|reflexivity]).
  split; [exact Nv|].
  apply (leb_F2Q v 1%float Nv eq_refl) in H1.
  eapply Qle_trans; [exact H1|]. vm_compute. discriminate.
Qed.

Lemma bounds_in_unit (v : float) :
  nonneg v -> F2Q v <= F2Q 1%float -> in_unit v = true.
Proof.
  intros Nv Hv. unfold in_unit. rewrite andb_true_iff. split.
  - apply nonneg_leb_zero. exact Nv.
  - apply leb_F2Q; [exact Nv|reflexivity|exact Hv].
Qed.

(** The running sum of [k] values of the unit interval is at most [k]. *)
Lemma sum_bound (l : list float) :
  forall (acc : float) (k : Z),
    (0 <= k)%Z -> (k + Z.of_nat (List.length l) <= 2 ^ 53)%Z ->
    nonneg acc -> F2Q acc <= inject_Z k ->
    Forall (fun v => in_unit v = true) l ->
    nonneg (fold_left (fun a b => (a + b)%float) l acc) /\
    F2Q (fold_left (fun a b => (a + b)%float) l acc)
    <= inject_Z (k + Z.of_nat (List.length l)).
Proof.
  induction l as [|v l IH]; intros acc k Hk Hlen Nacc Hacc Hl.
  - cbn [fold_left List.length Z.of_nat]. rewrite Z.add_0_r. split; assumption.
  - cbn [fold_left]. inversion Hl as [|v' l' Hv Hl']; subst.
    destruct (in_unit_bounds v Hv) as [Nv Hv1].
    cbn [List.length] in *. rewrite Nat2Z.inj_succ in *.
    destruct (number_of_Z_F2Q (k + 1)) as [Fk Nk]; [lia|].
    destruct (rounds_to_upper (acc + v)%float (F2Q acc + F2Q v) (number_of_Z (k + 1)))
      as [Ns Hs].
    + apply add_rounds; assumption.
    + apply Nk. lia.
    + pose proof (F2Q_nonneg acc Nacc). pose proof (F2Q_nonneg v Nv). lra.
    + rewrite Fk, inject_Z_plus. change (inject_Z 1) with 1. lra.
    + rewrite Fk in Hs.
      replace (k + Z.succ (Z.of_nat (List.length l)))%Z
        with ((k + 1) + Z.of_nat (List.length l))%Z by lia.
      apply IH; try assumption; lia.
Qed.

Lemma averageScore_unit (o : Indicators) :
  unit_indicators o -> array_sized o ->
  nonneg (averageScore o) /\ F2Q (averageScore o) <= 1.
Proof.
  unfold unit_indicators, array_sized, averageScore. intros Ho Hn.
  set (values := Object_values o) in *.
  assert (Hlen : List.length values = List.length o) by apply length_map.
  destruct (Nat.eqb_spec (List.length values) 0) as [E|E].
  - split; [reflexivity|]. vm_compute. discriminate.
  - assert (P32 : (2 ^ 32 < 2 ^ 53)%Z) by reflexivity.
    destruct (sum_bound values 0%float 0%Z) as [Ns Hs];
      [lia|lia|reflexivity|vm_compute; discriminate|exact Ho|].
    rewrite Z.add_0_l in Hs.
    unfold length_number.
    set (n := Z.of_nat (List.length values)) in *.
    assert (Hn1 : (1 <= n)%Z) by (unfold n; lia).
    destruct (number_of_Z_F2Q n) as [Fn Nn]; [lia|].
    assert (Hpos : 0 < F2Q (number_of_Z n)).
    { rewrite Fn. rewrite <- (Zlt_Qlt 0). lia. }
    destruct (rounds_to_upper
                (fold_left (fun a b => (a + b)%float) values 0%float / number_of_Z n)%float
                (F2Q (fold_left (fun a b => (a + b)%float) values 0%float)
                 / F2Q (number_of_Z n))
                1%float) as [Nq Hq].
    + apply div_rounds; [exact Ns|apply Nn; lia|exact Hpos].
    + reflexivity.
    + apply Qle_shift_div_l; [exact Hpos|]. rewrite Qmult_0_l.
      apply F2Q_nonneg. exact Ns.
    + apply Qle_shift_div_r; [exact Hpos|].
      assert (H1 : F2Q 1%float == 1) by (vm_compute; reflexivity).
      rewrite H1, Qmult_1_l, Fn. exact Hs.
    + split; [exact Nq|]. eapply Qle_trans; [exact Hq|]. vm_compute. discriminate.
Qed.

Lemma crossScore_averageScore (input : AssessmentInput) :
  crossScore input = averageScore (crossIndicators input).
Proof.
  unfold crossScore, averageScore, crossIndicators.
  destruct (recursive_self_reference input), (proof_chain_continuity input); reflexivity.
Qed.

Lemma crossScore_unit (input : AssessmentInput) :
  unit_option (recursive_self_reference input) ->
  unit_option (proof_chain_continuity input) ->
  nonneg (crossScore input) /\ F2Q (crossScore input) <= 1.
Proof.
  intros Ha Hb. rewrite crossScore_averageScore.
  apply averageScore_unit.
  - unfold unit_indicators, crossIndicators.
    destruct (recursive_self_reference input), (proof_chain_continuity input);
      cbn in *; repeat constructor; assumption.
  - unfold array_sized, crossIndicators.
    destruct (recursive_self_reference input), (proof_chain_continuity input);
      cbn; lia.
Qed.

(** One step of the weighted sum. *)
Lemma weighted_step (acc s w A C : float) :
  nonneg acc -> F2Q acc <= F2Q A ->
  nonneg s -> F2Q s <= 1 ->
  nonneg w -> nonneg C -> F2Q A + F2Q w <= F2Q C ->
  nonneg (acc + s * w)%float /\ F2Q (acc + s * w)%float <= F2Q C.
Proof.
  intros Nacc Hacc Ns Hs Nw NC HC.
  pose proof (F2Q_nonneg acc Nacc) as P1. pose proof (F2Q_nonneg s Ns) as P2.
  pose proof (F2Q_nonneg w Nw) as P3.
  destruct (rounds_to_upper (s * w)%float (F2Q s * F2Q w) w) as [Np Hp].
  - apply mul_rounds; assumption.
  - exact Nw.
  - apply Qmult_le_0_compat; assumption.
  - rewrite <- (Qmult_1_l (F2Q w)) at 2. apply Qmult_le_compat_r; assumption.
  - pose proof (F2Q_nonneg (s * w)%float Np) as P4.
    apply (rounds_to_upper (acc + s * w)%float (F2Q acc + F2Q (s * w)%float) C).
    + apply add_rounds; assumption.
    + exact NC.
    + lra.
    + lra.
Qed.

Lemma composite_unit (input : AssessmentInput) :
  unit_input input ->
  nonneg (composite input) /\ F2Q (composite input) <= F2Q 1.0000005%float.
Proof.
  intros [Hcat [Ha Hb]].
  inversion Hcat as [|? ? [G1 G2] H1]; subst.
  inversion H1 as [|? ? [R1 R2] H2]; subst.
  inversion H2 as [|? ? [O1 O2] H3]; subst.
  inversion H3 as [|? ? [P1 P2] H4]; subst.
  inversion H4 as [|? ? [A1 A2] _]; subst.
  destruct (averageScore_unit _ G1 G2) as [Ng Hg].
  destruct (averageScore_unit _ R1 R2) as [Nr Hr].
  destruct (averageScore_unit _ O1 O2) as [No Ho].
  destruct (averageScore_unit _ P1 P2) as [Np Hp].
  destruct (averageScore_unit _ A1 A2) as [Na Hav].
  destruct (crossScore_unit input Ha Hb) as [Nc Hc].
  unfold composite, theoryScores.
  cbn [fold_left score weight get_property THEORY_WEIGHTS String.eqb Ascii.eqb Bool.eqb].
  assert (S1 := weighted_step 0 (averageScore (gwt input)) 0.25 0 0.25
                  eq_refl ltac:(apply Qle_refl) Ng Hg eq_refl eq_refl
                  ltac:(vm_compute; discriminate)).
  destruct S1 as [N1 B1].
  assert (S2 := weighted_step _ (averageScore (rpt input)) 0.15 0.25 0.4000001
                  N1 B1 Nr Hr eq_refl eq_refl ltac:(vm_compute; discriminate)).
  destruct S2 as [N2 B2].
  assert (S3 := weighted_step _ (averageScore (hot input)) 0.20 0.4000001 0.6000002
                  N2 B2 No Ho eq_refl eq_refl ltac:(vm_compute; discriminate)).
  destruct S3 as [N3 B3].
  assert (S4 := weighted_step _ (averageScore (pp input)) 0.20 0.6000002 0.8000003
                  N3 B3 Np Hp eq_refl eq_refl ltac:(vm_compute; discriminate)).
  destruct S4 as [N4 B4].
  assert (S5 := weighted_step _ (averageScore (ast input)) 0.10 0.8000003 0.9000004
                  N4 B4 Na Hav eq_refl eq_refl ltac:(vm_compute; discriminate)).
  destruct S5 as [N5 B5].
  exact (weighted_step _ (crossScore input) 0.10 0.9000004 1.0000005
           N5 B5 Nc Hc eq_refl eq_refl ltac:(vm_compute; discriminate)).
Qed.

(** Rounding to four decimals keeps a composite of at most 1.0000005
    within the unit interval. *)
Lemma round4_unit (c : float) :
  nonneg c -> F2Q c <= F2Q 1.0000005%float ->
  in_unit (Math_round (c * 10000) / 10000)%float = true.
Proof.
  intros Nc Hc.
  pose proof (F2Q_nonneg c Nc) as P0.
  destruct (rounds_to_upper (c * 10000)%float (F2Q c * F2Q 10000%float) 10000.25%float)
    as [Nt Ht].
  - apply mul_rounds; [exact Nc|reflexivity].
  - reflexivity.
  - apply Qmult_le_0_compat; [exact P0|]. vm_compute. discriminate.
  - apply Qle_trans with (F2Q 1.0000005%float * F2Q 10000%float).
    + apply Qmult_le_compat_r; [exact Hc|]. vm_compute. discriminate.
    + vm_compute. discriminate.
  - set (t := (c * 10000)%float) in *.
    pose proof (F2Q_nonneg t Nt) as Pt.
    pose proof (Math_round_nonneg t Nt) as Nr.
    pose proof (Math_round_value t) as Vr.
    assert (Hfl : (0 <= Qfloor (F2Q t + (1 # 2)) <= 10000)%Z).
    { split.
      - change 0%Z with (Qfloor 0). apply Qfloor_resp_le. lra.
      - change 10000%Z with (Qfloor (F2Q 10000.25%float + (1 # 2))).
        apply Qfloor_resp_le. lra. }
    assert (Hpos : 0 < F2Q 10000%float) by (vm_compute; reflexivity).
    destruct (rounds_to_upper (Math_round t / 10000)%float
                (F2Q (Math_round t) / F2Q 10000%float) 1%float) as [Nq Hq].
    + apply div_rounds; [exact Nr|reflexivity|exact Hpos].
    + reflexivity.
    + apply Qle_shift_div_l; [exact Hpos|]. rewrite Qmult_0_l.
      apply F2Q_nonneg. exact Nr.
    + apply Qle_shift_div_r; [exact Hpos|]. rewrite Vr.
      assert (H1 : F2Q 1%float * F2Q 10000%float == inject_Z 10000)
        by (vm_compute; reflexivity).
      rewrite H1, <- Zle_Qle. lia.
    + apply bounds_in_unit; assumption.
Qed.

(** C4. Whenever every supplied indicator value, the optional cross-theory
    scalars included, lies in the interval from 0 to 1, so does the
    composite score of the result. *)
Theorem composite_score_in_unit_interval
    (rt : Runtime) (input : AssessmentInput) (now : string) :
  unit_input input ->
  in_unit (composite_score (assess input now)) = true.
Proof.
  intros Hin. cbn [assess composite_score].
  destruct (composite_unit input Hin) as [Nc Hc].
  apply round4_unit; assumption.
Qed.

End UnitInterval.

(** ** Classifying before rounding *)

Section Boundary.
Local Open Scope Q_scope.

(** A number of the binade from 1/2 to 1 has exponent -53. *)
Lemma binade_half_one (s : float) :
  nonneg s -> (1 # 2) <= F2Q s -> F2Q s < 1 ->
  exists m : positive, Prim2SF s = S754_finite false m (-53).
Proof.
  unfold nonneg, F2Q. intros Ns Hlo Hhi.
  pose proof (Prim2SF_valid s) as V.
  destruct (Prim2SF s) as [z|z| |[|] m e]; cbn [nonneg_finite SF2Q] in *;
    try discriminate.
  - exfalso. apply (Qlt_irrefl 0). eapply Qlt_le_trans; [|exact Hlo]. reflexivity.
  - exists m. f_equal.
    cbn [valid_binary] in V. apply bounded_spec in V. destruct V as [V _].
    rewrite fexp_eq in V.
    assert (H1 : (Zpos (digits2_pos m) + e - 1 < 0)%Z).
    { destruct (Z.lt_ge_cases (Zpos (digits2_pos m) + e - 1) 0) as [H|H]; [exact H|].
      exfalso. apply (Qlt_irrefl 1).
      eapply Qle_lt_trans; [|exact Hhi].
      eapply Qle_trans; [|apply Qmag_lo].
      change 1 with (2 ^ 0). apply pow2_le. exact H. }
    assert (H2 : (-1 < Zpos (digits2_pos m) + e)%Z).
    { destruct (Z.lt_ge_cases (-1) (Zpos (digits2_pos m) + e)) as [H|H]; [exact H|].
      exfalso. apply (Qlt_irrefl (1 # 2)).
      eapply Qle_lt_trans; [exact Hlo|].
      eapply Qlt_le_trans; [apply Qmag_hi|].
      change (1 # 2) with (2 ^ (-1)). apply pow2_le. exact H. }
    lia.
Qed.

(** Scaling a composite of the last band below 0.70 by 10000 gives a
    number that [Math.round] takes to 7000. *)
Lemma round4_below_070 (s : float) :
  (0.69995 <=? s)%float = true -> (s <? 0.70)%float = true ->
  (Math_round (s * 10000) / 10000)%float = 0.7%float.
Proof.
  intros Hlo Hhi.
  assert (Ns : nonneg s).
  { apply (nonneg_between s 0.70%float).
    - apply (leb_trans _ 0.69995%float); [reflexivity|exact Hlo].
    - apply ltb_leb. exact Hhi.
    - reflexivity. }
  pose proof (proj1 (leb_F2Q 0.69995%float s eq_refl Ns) Hlo) as Qlo.
  pose proof (proj1 (ltb_F2Q s 0.70%float Ns eq_refl) Hhi) as Qhi.
  destruct (binade_half_one s Ns) as [m Em].
  { eapply Qle_trans; [|exact Qlo]. vm_compute. discriminate. }
  { eapply Qlt_trans; [exact Qhi|]. vm_compute. reflexivity. }
  assert (Fs : F2Q s == inject_Z (Zpos m) * 2 ^ (-53)).
  { unfold F2Q. rewrite Em. reflexivity. }
  assert (F0 : F2Q 0.69995%float == inject_Z 6304589118355957 * 2 ^ (-53))
    by (vm_compute; reflexivity).
  rewrite Fs, F0 in Qlo. apply Qmult_pow2_le in Qlo.
  destruct (Z.eq_dec (Zpos m) 6304589118355957) as [E0|E0].
  - (* the least such number: its product is 6999.5 exactly *)
    assert (s = 0.69995%float).
    { apply Prim2SF_inj. rewrite Em. injection E0 as ->. reflexivity. }
    subst s. vm_compute. reflexivity.
  - assert (Hm : (6304589118355958 <= Zpos m)%Z) by lia.
    assert (Qlo' : inject_Z 6304589118355958 * 2 ^ (-53) <= F2Q s).
    { rewrite Fs. apply Qmult_pow2_le. exact Hm. }
    pose proof (mul_rounds s 10000%float Ns eq_refl) as R.
    assert (P10 : 0 < F2Q 10000%float) by (vm_compute; reflexivity).
    destruct (rounds_to_upper (s * 10000)%float _ 7000%float R eq_refl) as [Nt Ht].
    + apply Qmult_le_0_compat; [apply F2Q_nonneg; exact Ns|apply Qlt_le_weak; exact P10].
    + apply Qle_trans with (F2Q 0.70%float * F2Q 10000%float).
      * apply Qmult_le_compat_r; [apply Qlt_le_weak; exact Qhi|apply Qlt_le_weak; exact P10].
      * vm_compute. discriminate.
    + assert (Hl : (6999.5 <=? s * 10000)%float = true).
      { apply (rounds_to_lower (s * 10000)%float _ 6999.5%float R eq_refl).
        apply Qle_trans with (inject_Z 6304589118355958 * 2 ^ (-53) * F2Q 10000%float).
        - vm_compute. discriminate.
        - apply Qmult_le_compat_r; [exact Qlo'|apply Qlt_le_weak; exact P10]. }
      apply (leb_F2Q 6999.5%float (s * 10000)%float eq_refl Nt) in Hl.
      set (t := (s * 10000)%float) in *.
      assert (H7 : F2Q 7000%float == 7000) by (vm_compute; reflexivity).
      assert (H6 : F2Q 6999.5%float == 6999 + (1 # 2)) by (vm_compute; reflexivity).
      assert (Hr : Math_round t = 7000%float).
      { apply F2Q_inj.
        - apply Math_round_nonneg. exact Nt.
        - reflexivity.
        - rewrite (Math_round_value t), H7.
          rewrite (Qfloor_unique (F2Q t + (1 # 2)) 7000); [reflexivity| |].
          + change (inject_Z 7000) with 7000. lra.
          + change (inject_Z (7000 + 1)) with 7001. lra.
        - rewrite (Math_round_value t).
          rewrite (Qfloor_unique (F2Q t + (1 # 2)) 7000); [reflexivity| |].
          + change (inject_Z 7000) with 7000. lra.
          + change (inject_Z (7000 + 1)) with 7001. lra. }
      rewrite Hr. vm_compute. reflexivity.
Qed.

Lemma classify_below_070 (s : float) :
  (0.50 <=? s)%float = true -> (s <? 0.70)%float = true ->
  classify s = C2_Emerging.
Proof.
  intros Hlo Hhi. rewrite classify_cases.
  destruct (leb_is_nan _ _ Hlo) as [_ Hn]. rewrite Hn.
  assert (H50 : (s <? 0.50)%float = false).
  { rewrite (leb_negb_ltb s 0.50%float Hn eq_refl) in Hlo.
    destruct (s <? 0.50)%float; [discriminate|reflexivity]. }
  assert (H20 : (s <? 0.20)%float = false).
  { destruct (s <? 0.20)%float eqn:E; [|reflexivity].
    rewrite (ltb_trans s 0.20%float 0.50%float E eq_refl) in H50. discriminate. }
  rewrite H20, H50, Hhi. reflexivity.
Qed.

(** C3. [assess] classifies the composite before rounding it, and stores the
    rounded composite in the result.  So when the composite is at least
    0.69995 and below 0.70, the composite score of the result is 0.7 while
    the classification is still "C-2 Emerging", not "C-3 Autonomous". *)
Theorem classification_uses_unrounded_composite
    (rt : Runtime) (input : AssessmentInput) (now : string) :
  (0.69995 <=? composite input)%float = true ->
  (composite input <? 0.70)%float = true ->
  classification (assess input now) = label (classify (composite input)) /\
  composite_score (assess input now) = 0.7%float /\
  classification (assess input now) = "C-2 Emerging" /\
  classification_level (assess input now) = "C-2" /\
  label (classify (composite_score (assess input now))) = "C-3 Autonomous".
Proof.
  intros Hlo Hhi.
  assert (Hs : composite_score (assess input now) = 0.7%float).
  { cbn [assess composite_score]. apply round4_below_070; assumption. }
  assert (Hc : classify (composite input) = C2_Emerging).
  { apply classify_below_070; [|exact Hhi].
    apply (leb_trans _ 0.69995%float); [reflexivity|exact Hlo]. }
  split; [reflexivity|]. split; [exact Hs|].
  cbn [assess classification classification_level]. rewrite Hc, Hs.
  repeat split; reflexivity.
Qed.

End Boundary.

(** ** The serialisation keeps its fields apart *)

Lemma append_nil_r (a : string) : a ++ "" = a.
Proof.
  induction a as [|x a IH]; cbn [String.append]; [reflexivity|].
  rewrite IH. reflexivity.
Qed.

Lemma string_rev_append (a b : string) :
  string_rev (a ++ b) = string_rev b ++ string_rev a.
Proof.
  induction a as [|x a IH]; cbn [String.append string_rev].
  - rewrite append_nil_r. reflexivity.
  - rewrite IH, append_assoc. reflexivity.
Qed.

Lemma string_rev_involutive (a : string) : string_rev (string_rev a) = a.
Proof.
  induction a as [|x a IH]; cbn [string_rev]; [reflexivity|].
  rewrite string_rev_append, IH. reflexivity.
Qed.

Lemma append_inv_tail (a b c : string) : a ++ c = b ++ c -> a = b.
Proof.
  intros H. apply (f_equal string_rev) in H.
  rewrite !string_rev_append in H. apply append_inv_head in H.
  apply (f_equal string_rev) in H. rewrite !string_rev_involutive in H. exact H.
Qed.

(** One escaped character reads back as the character. *)
Lemma unquote_escape_char (c : ascii) (rest : string) :
  unquote_body (json_escape_char c ++ rest) = cons_char c (unquote_body rest).
Proof.
  destruct c as [[|] [|] [|] [|] [|] [|] [|] [|]]; reflexivity.
Qed.

(** Round trip: a quoted string reads back as the string, and the reader
    stops at its closing quote. *)
Lemma unquote_QuoteJSONString (a rest : string) :
  unquote (QuoteJSONString a ++ rest) = Some (a, rest).
Proof.
  unfold QuoteJSONString. rewrite !append_assoc.
  cbn [dquote String.append unquote]. cbn [Ascii.eqb Bool.eqb].
  induction a as [|c a IH]; cbn [json_escape String.append].
  - reflexivity.
  - rewrite append_assoc, unquote_escape_char, IH. reflexivity.
Qed.

Lemma QuoteJSONString_prefix_free (a b r1 r2 : string) :
  QuoteJSONString a ++ r1 = QuoteJSONString b ++ r2 -> a = b /\ r1 = r2.
Proof.
  intros H. apply (f_equal unquote) in H.
  rewrite !unquote_QuoteJSONString in H. injection H as -> ->. split; reflexivity.
Qed.

Lemma label_tail_injective (n1 n2 : string) (l1 l2 : Classification) :
  n1 ++ "," ++ QuoteJSONString "classification" ++ ":"
     ++ QuoteJSONString (label l1) ++ "}"
  = n2 ++ "," ++ QuoteJSONString "classification" ++ ":"
       ++ QuoteJSONString (label l2) ++ "}" ->
  l1 = l2 /\ n1 = n2.
Proof.
  intros H.
  assert (Hl : l1 = l2).
  { apply (f_equal string_rev) in H. rewrite !string_rev_append in H.
    destruct l1, l2; try reflexivity; vm_compute in H; discriminate. }
  subst l2. split; [reflexivity|]. exact (append_inv_tail _ _ _ H).
Qed.

Section Serialisation.
Context {rt : Runtime}.

(** The hashed string determines the subject, the timestamp, the
    classification and the text of the composite. *)
Lemma proofData_injective (i1 i2 : AssessmentInput) (t1 t2 : string) :
  proofData i1 t1 = proofData i2 t2 ->
  name i1 = name i2 /\ t1 = t2 /\
  classify (composite i1) = classify (composite i2) /\
  JSON_value (JSNumber (composite i1)) = JSON_value (JSNumber (composite i2)).
Proof.
  unfold proofData, JSON_stringify.
  cbn [JSON_members JSON_value]. rewrite !append_assoc. intros H.
  apply append_inv_head, append_inv_head, append_inv_head in H.
  apply QuoteJSONString_prefix_free in H. destruct H as [Hn H].
  apply append_inv_head, append_inv_head, append_inv_head in H.
  apply QuoteJSONString_prefix_free in H. destruct H as [Ht H].
  apply append_inv_head, append_inv_head, append_inv_head in H.
  apply label_tail_injective in H. destruct H as [Hl Hc].
  repeat split; assumption.
Qed.

End Serialisation.

(** A string without control characters, quotation marks and backslashes
    is quoted as it is. *)
Lemma json_escape_plain (s : string) : plain s = true -> json_escape s = s.
Proof.
  induction s as [|c s IH]; cbn [plain json_escape]; [reflexivity|].
  intros H. apply andb_prop in H. destruct H as [Hc Hs].
  rewrite (IH Hs). clear IH Hs. revert Hc.
  destruct c as [[|] [|] [|] [|] [|] [|] [|] [|]];
    first [discriminate | reflexivity].
Qed.

(** ** The proof hash *)

(** C8. The proof hash is the SHA-256 digest, in hexadecimal, of the JSON
    serialisation of exactly four fields, in this order: the subject, the
    timestamp, the composite before rounding, and the classification.
    The text is the one [JSON.stringify] writes: the keys and the string
    values between quotation marks, with the escapes of JSON and otherwise
    unchanged; the composite as the host prints it, or [null] when it is
    not finite.  Each quoted field reads back as the field, and the text
    determines the four fields.  No indicator value enters it: inputs with
    the same name and the same composite get, at the same time, the same
    hash.  The number in the text is the composite and not the rounded
    score: with every indicator at 0.7 it is 0.69999999999999984, while
    the composite score of the result is 0.7. *)
Theorem proof_hash_of_tuple (rt : Runtime) (input : AssessmentInput) (now : string) :
  proof_hash (assess input now)
  = sha256_hex
      (JSON_stringify
         [ ("subject", JSString (name input));
           ("timestamp", JSString now);
           ("composite", JSNumber (composite input));
           ("classification", JSString (label (classify (composite input)))) ]) /\
  JSON_stringify
    [ ("subject", JSString (name input));
      ("timestamp", JSString now);
      ("composite", JSNumber (composite input));
      ("classification", JSString (label (classify (composite input)))) ]
  = "{" ++ dquote ++ "subject" ++ dquote ++ ":"
    ++ dquote ++ json_escape (name input) ++ dquote
    ++ "," ++ dquote ++ "timestamp" ++ dquote ++ ":"
    ++ dquote ++ json_escape now ++ dquote
    ++ "," ++ dquote ++ "composite" ++ dquote ++ ":"
    ++ (if is_finite (composite input)
        then Number_toString (composite input) else "null")
    ++ "," ++ dquote ++ "classification" ++ dquote ++ ":"
    ++ dquote ++ classification (assess input now) ++ dquote ++ "}" /\
  (plain (name input) = true -> json_escape (name input) = name input) /\
  (plain now = true -> json_escape now = now) /\
  json_escape ("a" ++ dquote ++ "\/" ++ String "010" (String "001" em_dash))
  = "a\" ++ dquote ++ "\\/\n\u0001" ++ em_dash /\
  (forall rest : string,
     unquote (QuoteJSONString (name input) ++ rest) = Some (name input, rest) /\
     unquote (QuoteJSONString now ++ rest) = Some (now, rest)) /\
  (forall (input' : AssessmentInput) (now' : string),
     proofData input' now' = proofData input now ->
     name input' = name input /\ now' = now /\
     classification (assess input' now') = classification (assess input now) /\
     JSON_value (JSNumber (composite input'))
     = JSON_value (JSNumber (composite input))) /\
  (forall input' : AssessmentInput,
     name input' = name input -> composite input' = composite input ->
     proof_hash (assess input' now) = proof_hash (assess input now)) /\
  proofData (uniform_input 0.7 (Some 0.7) (Some 0.7)) now
  = "{" ++ dquote ++ "subject" ++ dquote ++ ":" ++ dquote ++ "uniform" ++ dquote
    ++ "," ++ dquote ++ "timestamp" ++ dquote ++ ":"
    ++ dquote ++ json_escape now ++ dquote
    ++ "," ++ dquote ++ "composite" ++ dquote ++ ":"
    ++ Number_toString 0.69999999999999984
    ++ "," ++ dquote ++ "classification" ++ dquote ++ ":"
    ++ dquote ++ "C-2 Emerging" ++ dquote ++ "}" /\
  composite_score (assess (uniform_input 0.7 (Some 0.7) (Some 0.7)) now) = 0.7.
Proof.
  assert (Text : forall (i : AssessmentInput) (t : string),
            proofData i t
            = "{" ++ dquote ++ "subject" ++ dquote ++ ":"
              ++ dquote ++ json_escape (name i) ++ dquote
              ++ "," ++ dquote ++ "timestamp" ++ dquote ++ ":"
              ++ dquote ++ json_escape t ++ dquote
              ++ "," ++ dquote ++ "composite" ++ dquote ++ ":"
              ++ (if is_finite (composite i)
                  then Number_toString (composite i) else "null")
              ++ "," ++ dquote ++ "classification" ++ dquote ++ ":"
              ++ dquote ++ label (classify (composite i)) ++ dquote ++ "}").
  { intros i t. unfold proofData, JSON_stringify.
    cbn [JSON_members JSON_value]. unfold QuoteJSONString.
    assert (El : json_escape (label (classify (composite i)))
                 = label (classify (composite i))).
    { destruct (classify (composite i)); reflexivity. }
    rewrite El. change (json_escape "subject") with "subject".
    change (json_escape "timestamp") with "timestamp".
    change (json_escape "composite") with "composite".
    change (json_escape "classification") with "classification".
    rewrite !append_assoc. reflexivity. }
  split; [reflexivity|]. split; [exact (Text input now)|].
  split; [apply json_escape_plain|]. split; [apply json_escape_plain|].
  split; [reflexivity|]. split; [|split; [|split; [|split]]].
  - intros rest. split; apply unquote_QuoteJSONString.
  - intros input' now' H. apply proofData_injective in H.
    destruct H as [Hn [Ht [Hl Hc]]].
    cbn [assess classification]. rewrite Hl. repeat split; assumption.
  - intros input' Hn Hc. unfold assess, proofData. cbn [proof_hash].
    rewrite Hn, Hc. reflexivity.
  - rewrite Text.
    change (composite (uniform_input 0.7 (Some 0.7) (Some 0.7)))
      with 0.69999999999999984%float.
    reflexivity.
  - reflexivity.
Qed.

(** ** A host that keeps the promises of the language *)

Lemma print_positive_prefix_free (p q : positive) (r1 r2 : string) :
  print_positive p ++ r1 = print_positive q ++ r2 -> p = q /\ r1 = r2.
Proof.
  revert q. induction p as [p IH|p IH|]; intros [q|q|];
    cbn [print_positive String.append]; intros H;
    try discriminate; injection H as H.
  - destruct (IH q H) as [-> ->]. split; reflexivity.
  - destruct (IH q H) as [-> ->]. split; reflexivity.
  - split; [reflexivity|exact H].
Qed.

Lemma print_Z_injective (a b : Z) : print_Z a = print_Z b -> a = b.
Proof.
  destruct a as [|p|p], b as [|q|q]; cbn [print_Z]; intros H;
    try discriminate; try reflexivity; injection H as H;
    rewrite <- (append_nil_r (print_positive p)),
            <- (append_nil_r (print_positive q)) in H;
    apply print_positive_prefix_free in H; destruct H as [-> _]; reflexivity.
Qed.

Lemma lawful_host_laws : Number_toString_laws lawful_host.
Proof.
  split; cbn [Number_toString lawful_host]; unfold print_number.
  - intros x y Fx Fy H. rewrite is_finite_Prim2SF in Fx, Fy.
    assert (E : Prim2SF x = Prim2SF y \/
                (exists s s', Prim2SF x = S754_zero s /\ Prim2SF y = S754_zero s')).
    { destruct (Prim2SF x) as [sx|sx| |sx mx ex], (Prim2SF y) as [sy|sy| |sy my ey];
        try discriminate.
      - right. exists sx, sy. split; reflexivity.
      - destruct sy; discriminate.
      - destruct sx; discriminate.
      - left. injection H as Hs H.
        apply print_positive_prefix_free in H. destruct H as [-> H].
        apply print_Z_injective in H. subst ey.
        destruct sx, sy; try discriminate; reflexivity. }
    destruct E as [E|[s [s' [Ex Ey]]]].
    + apply Prim2SF_inj in E. subst y. apply SameValueZero_refl.
    + unfold SameValueZero. rewrite FloatAxioms.eqb_spec, Ex, Ey. reflexivity.
  - intros x _. destruct (Prim2SF x) as [s|[|]| |[|] m e]; discriminate.
Qed.


(** ** Sensitivity of the proof hash *)

(** C9, as stated, fails: a composite of NaN and one of -Infinity are
    different numbers of the same class, both serialise as [null], and the
    two assessments get the same proof hash at the same time, whatever the
    hash function is. *)
Lemma proof_hash_blind_to_nonfinite_composite :
  name (outlier_input nan) = name (outlier_input neg_infinity) /\
  composite (outlier_input nan) <> composite (outlier_input neg_infinity) /\
  classify (composite (outlier_input nan))
  = classify (composite (outlier_input neg_infinity)) /\
  forall (rt : Runtime) (now : string),
    proof_hash (assess (outlier_input nan) now)
    = proof_hash (assess (outlier_input neg_infinity) now).
Proof.
  assert (E1 : composite (outlier_input nan) = nan) by (vm_compute; reflexivity).
  assert (E2 : composite (outlier_input neg_infinity) = neg_infinity)
    by (vm_compute; reflexivity).
  split; [reflexivity|]. split; [|split].
  - rewrite E1, E2. intros H. apply (f_equal is_nan) in H.
    vm_compute in H. discriminate.
  - rewrite E1, E2. reflexivity.
  - intros rt now. unfold assess, proofData. cbn [proof_hash].
    rewrite E1, E2. reflexivity.
Qed.

Section Sensitivity.
Context {rt : Runtime}.

Lemma same_serialised_classify (c1 c2 : float) :
  same_serialised c1 c2 -> classify c1 = classify c2.
Proof. intros [->|[[-> ->]|[-> ->]]]; reflexivity. Qed.

Lemma same_serialised_value (c1 c2 : float) :
  same_serialised c1 c2 -> JSON_value (JSNumber c1) = JSON_value (JSNumber c2).
Proof. intros [->|[[-> ->]|[-> ->]]]; reflexivity. Qed.

(** When two assessments hash the same string. *)
Lemma proofData_same (L : Number_toString_laws rt)
    (i1 i2 : AssessmentInput) (t1 t2 : string) :
  proofData i1 t1 = proofData i2 t2 <->
  name i1 = name i2 /\ t1 = t2 /\ same_serialised (composite i1) (composite i2).
Proof.
  split.
  - intros H. apply proofData_injective in H. destruct H as [Hn [Ht [Hl Hc]]].
    split; [exact Hn|]. split; [exact Ht|]. cbn [JSON_value] in Hc.
    destruct (is_finite (composite i1)) eqn:F1, (is_finite (composite i2)) eqn:F2.
    + left. apply SameValueZero_finite; try assumption;
        try apply composite_not_neg_zero.
      apply Number_toString_distinct; assumption.
    + exfalso. apply (Number_toString_not_null _ F1). exact Hc.
    + exfalso. apply (Number_toString_not_null _ F2). symmetry. exact Hc.
    + destruct (not_finite_cases _ F1) as [E1|[E1|E1]],
               (not_finite_cases _ F2) as [E2|[E2|E2]];
        rewrite E1, E2 in Hl |- *;
        first [ left; reflexivity
              | right; left; split; reflexivity
              | right; right; split; reflexivity
              | vm_compute in Hl; discriminate ].
  - intros [Hn [Ht Hs]]. unfold proofData, JSON_stringify.
    cbn [JSON_members].
    rewrite Hn, Ht, (same_serialised_classify _ _ Hs),
            (same_serialised_value _ _ Hs).
    reflexivity.
Qed.

End Sensitivity.

(** C9, amended.  The proof hash is a function of the subject, the
    timestamp and the composite before rounding, which fixes the
    classification: assessments that agree on them get the same hash.
    On a host that prints different finite numbers differently, as the
    language requires, two assessments hash the same string exactly when
    their subjects are equal, their timestamps are equal, and their
    composites are equal or are NaN and -Infinity.  So their hashes are
    equal exactly then, or when the two different strings are a collision
    of SHA-256; and a change of the subject, of the timestamp, of the
    classification, or of the composite other than between NaN and
    -Infinity, changes the hashed string. *)
Theorem proof_hash_function_of_tuple
    (rt : Runtime) (L : Number_toString_laws rt)
    (i1 i2 : AssessmentInput) (t1 t2 : string) :
  (name i1 = name i2 -> t1 = t2 -> composite i1 = composite i2 ->
   classify (composite i1) = classify (composite i2) /\
   proof_hash (assess i1 t1) = proof_hash (assess i2 t2)) /\
  (proofData i1 t1 = proofData i2 t2 <->
   name i1 = name i2 /\ t1 = t2 /\
   same_serialised (composite i1) (composite i2)) /\
  (proof_hash (assess i1 t1) = proof_hash (assess i2 t2) <->
   (name i1 = name i2 /\ t1 = t2 /\
    same_serialised (composite i1) (composite i2)) \/
   collision sha256_hex (proofData i1 t1) (proofData i2 t2)) /\
  (name i1 <> name i2 \/ t1 <> t2 \/
   classify (composite i1) <> classify (composite i2) \/
   ~ same_serialised (composite i1) (composite i2) ->
   proofData i1 t1 <> proofData i2 t2).
Proof.
  pose proof (proofData_same L i1 i2 t1 t2) as Same.
  split; [|split; [exact Same|split]].
  - intros Hn Ht Hc. split; [rewrite Hc; reflexivity|].
    unfold assess, proofData. cbn [proof_hash]. rewrite Hn, Ht, Hc. reflexivity.
  - cbn [assess proof_hash]. split.
    + intros H.
      destruct (string_dec (proofData i1 t1) (proofData i2 t2)) as [E|E].
      * left. apply Same. exact E.
      * right. split; assumption.
    + intros [H|[_ H]]; [|exact H]. apply Same in H. rewrite H. reflexivity.
  - intros Hd H. apply Same in H. destruct H as [Hn [Ht Hs]].
    pose proof (same_serialised_classify _ _ Hs) as Hl. tauto.
Qed.

(** ** Closed instances *)

(** The composite of every indicator at 0.7 is just below 0.70: the result
    shows 0.7 and is classified "C-2 Emerging". *)
Lemma classification_uses_unrounded_composite_witness :
  composite (uniform_input 0.7 (Some 0.7) (Some 0.7)) = 0.69999999999999984 /\
  composite_score (assess (rt := example_host)
                     (uniform_input 0.7 (Some 0.7) (Some 0.7)) "now") = 0.7 /\
  classification (assess (rt := example_host)
                    (uniform_input 0.7 (Some 0.7) (Some 0.7)) "now")
  = "C-2 Emerging".
Proof.
  split; [vm_compute; reflexivity|].
  pose proof (classification_uses_unrounded_composite example_host
                (uniform_input 0.7 (Some 0.7) (Some 0.7)) "now"
                ltac:(vm_compute; reflexivity) ltac:(vm_compute; reflexivity))
    as [_ [H1 [H2 _]]].
  split; [exact H1|exact H2].
Defined.

Lemma well_typed_sized (input : AssessmentInput) :
  well_typed input ->
  Forall array_sized [gwt input; rpt input; hot input; pp input; ast input].
Proof.
  unfold well_typed, implements, array_sized, Object_keys.
  intros [G [R [H [P A]]]].
  apply Permutation_length in G, R, H, P, A. rewrite length_map in *.
  repeat constructor; cbn [List.length GWTIndicators RPTIndicators HOTIndicators
                           PPIndicators ASTIndicators] in *; lia.
Qed.

Lemma well_typed_uniform (v : float) (rsr pcc : option float) :
  well_typed (uniform_input v rsr pcc).
Proof.
  unfold well_typed, implements. repeat split; apply Permutation_refl.
Qed.

Lemma unit_input_uniform (v : float) (rsr pcc : option float) :
  in_unit v = true -> unit_option rsr -> unit_option pcc ->
  unit_input (uniform_input v rsr pcc).
Proof.
  intros Hv Ha Hb. unfold unit_input, uniform_input.
  cbn [gwt rpt hot pp ast recursive_self_reference proof_chain_continuity].
  split; [|split; assumption].
  repeat constructor; try assumption; unfold array_sized; cbn; lia.
Qed.

Lemma composite_score_in_unit_interval_witness :
  unit_input (uniform_input 1 (Some 1) (Some 1)) /\
  in_unit (composite_score (assess (rt := example_host)
                              (uniform_input 1 (Some 1) (Some 1)) "now")) = true.
Proof.
  assert (H : unit_input (uniform_input 1 (Some 1) (Some 1))).
  { apply unit_input_uniform; reflexivity. }
  split; [exact H|].
  exact (composite_score_in_unit_interval example_host _ "now" H).
Defined.

(** Raising every indicator from 0.6 to 0.7 changes the composite from 0.54
    to 0.63 within "C-2 Emerging": the hashed strings differ, and so do the
    hashes of a host that does not collide. *)
Lemma proof_hash_function_of_tuple_witness :
  Number_toString_laws lawful_host /\
  classify (composite (uniform_input 0.6 None None))
  = classify (composite (uniform_input 0.7 None None)) /\
  proofData (rt := lawful_host) (uniform_input 0.6 None None)
            "2026-01-01T00:00:00.000Z"
  <> proofData (rt := lawful_host) (uniform_input 0.7 None None)
               "2026-01-01T00:00:00.000Z" /\
  proof_hash (assess (rt := lawful_host) (uniform_input 0.6 None None)
                "2026-01-01T00:00:00.000Z")
  <> proof_hash (assess (rt := lawful_host) (uniform_input 0.7 None None)
                   "2026-01-01T00:00:00.000Z").
Proof.
  split; [exact lawful_host_laws|]. split; [reflexivity|].
  pose proof (proof_hash_function_of_tuple lawful_host lawful_host_laws
                (uniform_input 0.6 None None) (uniform_input 0.7 None None)
                "2026-01-01T00:00:00.000Z" "2026-01-01T00:00:00.000Z")
    as [_ [_ [Hh Hd]]].
  assert (Hs : ~ same_serialised (composite (uniform_input 0.6 None None))
                                 (composite (uniform_input 0.7 None None))).
  { intros [H|[[H _]|[H _]]];
      apply (f_equal (fun c => andb (c <=? 0.6)%float (is_finite c))) in H;
      vm_compute in H; discriminate. }
  assert (Hp := Hd (or_intror (or_intror (or_intror Hs)))).
  split; [exact Hp|].
  intros H. apply Hh in H. destruct H as [[_ [_ H]]|[_ H]].
  - exact (Hs H).
  - exact (Hp H).
Defined.

(** [Math.round] on ties, on both sides of zero, and just below one half. *)
Example Math_round_examples :
  map Math_round [2.5; -2.5; 0.5; -0.5; 0.4; -0.4; 6999.5; 0.49999999999999994;
                  4503599627370497; nan; infinity]
  = [3; -2; 1; -0; 0; -0; 7000; 0; 4503599627370497; nan; infinity].
Proof. vm_compute. reflexivity. Qed.

(** A quoted string: the quotes, an escaped line feed and an escaped
    backslash. *)
Example QuoteJSONString_example :
  QuoteJSONString (String "010"%char "a\")
  = dquote ++ "\na\\" ++ dquote.
Proof. vm_compute. reflexivity. Qed.

Example split_example :
  split " " "C-2 Emerging" = ["C-2"; "Emerging"].
Proof. vm_compute. reflexivity. Qed.

(** The examples of the specification. *)
Example spec_examples :
  map (fun i => (composite_score (assess (rt := example_host) i "now"),
                 classification (assess (rt := example_host) i "now")))
      [ uniform_input 1 None None; uniform_input 0 None None;
        uniform_input 0.6 None None; uniform_input 0.5 (Some 1) (Some 1) ]
  = [ (0.9, "C-4 Transcendent"); (0, "C-0 Reactive");
      (0.54, "C-2 Emerging"); (0.55, "C-2 Emerging") ].
Proof. vm_compute. reflexivity. Qed.

(** The demonstration run. *)
Example systems_assessed :
  map (fun i => (name i,
                 composite_score (assess (rt := example_host) i "now"),
                 classification_level (assess (rt := example_host) i "now")))
      systems
  = [ ("ORION C-4", 0.87, "C-4"); ("Claude 4 Opus", 0.7678, "C-3");
      ("GPT-4o", 0.6566, "C-2"); ("Gemini 2.5 Pro", 0.7028, "C-3") ].
Proof. vm_compute. reflexivity. Qed.
(** * Further properties of the assessor *)

(** A closed comparison of rationals or integers, by computation. *)
Ltac closed_Q := vm_compute; first [discriminate | reflexivity].

(** ** The bands are ordered *)

(** X1. A larger score never gets a lower band: [classify] is monotone
    in the order of the numbers. *)
Theorem classify_monotone (s1 s2 : float) :
  (s1 <=? s2) = true -> (band (classify s1) <= band (classify s2))%nat.
Proof.
  intros H. unfold classify.
  destruct (0.85 <=? s1) eqn:E1.
  { rewrite (leb_trans _ _ _ E1 H). apply Nat.le_refl. }
  destruct (0.70 <=? s1) eqn:E2.
  { rewrite (leb_trans _ _ _ E2 H). destruct (0.85 <=? s2); cbn; lia. }
  destruct (0.50 <=? s1) eqn:E3.
  { rewrite (leb_trans _ _ _ E3 H).
    destruct (0.85 <=? s2), (0.70 <=? s2); cbn; lia. }
  destruct (0.20 <=? s1) eqn:E4.
  { rewrite (leb_trans _ _ _ E4 H).
    destruct (0.85 <=? s2), (0.70 <=? s2), (0.50 <=? s2); cbn; lia. }
  cbn. lia.
Qed.

Lemma classify_monotone_witness :
  (0.3 <=? 0.6) = true /\
  (band (classify 0.3) <= band (classify 0.6))%nat /\
  classify 0.3 = C1_Functional /\ classify 0.6 = C2_Emerging.
Proof.
  split; [reflexivity|]. split; [|split; reflexivity].
  apply (classify_monotone 0.3 0.6). reflexivity.
Defined.

(** ** The classification level *)

(** X2. The level of a result is its label up to the first space: "C-" and
    the digit of the band.  The label is the level, a space and one word,
    and the level alone tells the classification. *)
Theorem classification_level_is_band
    (rt : Runtime) (input : AssessmentInput) (now : string) :
  classification_level (assess input now)
  = "C-" ++ decimal_digits (N.of_nat (band (classify (composite input)))) /\
  String.length (classification_level (assess input now)) = 3%nat /\
  classification_level (assess input now)
  = substring 0 3 (classification (assess input now)) /\
  (exists word : string,
     classification (assess input now)
     = classification_level (assess input now) ++ " " ++ word /\
     split " " word = [word]) /\
  (forall input' now',
     classification_level (assess input' now')
     = classification_level (assess input now) ->
     classification (assess input' now') = classification (assess input now)).
Proof.
  cbn [assess classification classification_level].
  destruct (classify (composite input)) eqn:E;
    (split; [reflexivity|]; split; [reflexivity|]; split; [reflexivity|]; split;
     [eexists; split; reflexivity|]);
    intros input' now'; destruct (classify (composite input'));
    cbn; intros H; try reflexivity; discriminate H.
Qed.

(** ** What each theory score reports *)

Lemma get_set_property_same (o : Indicators) (k : string) (v : float) :
  get_property (set_property o k v) k = v.
Proof.
  induction o as [|[k' v'] o IH]; cbn.
  - rewrite String.eqb_refl. reflexivity.
  - destruct (String.eqb k' k) eqn:E; cbn; rewrite E; [reflexivity|exact IH].
Qed.

Lemma get_set_property_other (o : Indicators) (k k' : string) (v : float) :
  k <> k' -> get_property (set_property o k v) k' = get_property o k'.
Proof.
  intros Hk. induction o as [|[k0 v0] o IH]; cbn.
  - destruct (String.eqb_spec k k') as [E|E]; [contradiction|reflexivity].
  - destruct (String.eqb_spec k0 k) as [E|E]; cbn.
    + subst k0. destruct (String.eqb_spec k k') as [E'|E']; [contradiction|reflexivity].
    + destruct (String.eqb k0 k'); [reflexivity|exact IH].
Qed.

(** X3. Every entry of the result carries the indicators its score was
    computed from: the five categories carry the objects of the input, the
    CROSS entry an object of its own, and each score is [averageScore] of
    the entry's own indicators. *)
Theorem theory_scores_report_their_indicators
    (rt : Runtime) (input : AssessmentInput) (now : string) :
  map indicators (theory_scores (assess input now))
  = [gwt input; rpt input; hot input; pp input; ast input; crossIndicators input] /\
  Forall (fun ts => score ts = averageScore (indicators ts))
         (theory_scores (assess input now)).
Proof.
  split; [reflexivity|].
  cbn [assess theory_scores]. unfold theoryScores.
  repeat constructor. cbn [score indicators]. apply crossScore_averageScore.
Qed.

(** X4. The indicators of the CROSS entry are the optional fields the input
    supplies and no others, [recursive_self_reference] first, and each reads
    back as the number supplied. *)
Theorem cross_indicators_are_the_supplied_fields (input : AssessmentInput) :
  Object_keys (crossIndicators input)
  = (match recursive_self_reference input with
     | Some _ => ["recursive_self_reference"] | None => [] end
     ++ match proof_chain_continuity input with
        | Some _ => ["proof_chain_continuity"] | None => [] end)%list /\
  (forall v, recursive_self_reference input = Some v ->
     get_property (crossIndicators input) "recursive_self_reference" = v) /\
  (forall v, proof_chain_continuity input = Some v ->
     get_property (crossIndicators input) "proof_chain_continuity" = v).
Proof.
  unfold crossIndicators.
  split; [|split].
  - destruct (recursive_self_reference input), (proof_chain_continuity input);
      reflexivity.
  - intros v ->. destruct (proof_chain_continuity input).
    + rewrite get_set_property_other by discriminate.
      apply get_set_property_same.
    + apply get_set_property_same.
  - intros v ->. apply get_set_property_same.
Qed.

(** ** Scores of the unit interval *)

(** X5. When every supplied indicator lies between 0 and 1, so does each
    of the six theory scores of the result. *)
Theorem theory_scores_in_unit_interval
    (rt : Runtime) (input : AssessmentInput) (now : string) :
  unit_input input ->
  Forall (fun ts => in_unit (score ts) = true) (theory_scores (assess input now)).
Proof.
  intros [Hcat [Ha Hb]].
  assert (U : forall v : float, nonneg v /\ (F2Q v <= 1)%Q -> in_unit v = true).
  { intros v [Nv Hv]. apply bounds_in_unit; [exact Nv|].
    eapply Qle_trans; [exact Hv|]. vm_compute. discriminate. }
  inversion Hcat as [|? ? [G1 G2] H1]; subst.
  inversion H1 as [|? ? [R1 R2] H2]; subst.
  inversion H2 as [|? ? [O1 O2] H3]; subst.
  inversion H3 as [|? ? [P1 P2] H4]; subst.
  inversion H4 as [|? ? [A1 A2] _]; subst.
  cbn [assess theory_scores]. unfold theoryScores.
  repeat constructor; cbn [score]; apply U;
    first [apply averageScore_unit; assumption | apply crossScore_unit; assumption].
Qed.

Lemma theory_scores_in_unit_interval_witness :
  unit_input (uniform_input 0.5 (Some 1) None) /\
  map score (theory_scores (assess (rt := example_host)
                              (uniform_input 0.5 (Some 1) None) "now"))
  = [0.5; 0.5; 0.5; 0.5; 0.5; 1] /\
  Forall (fun ts => in_unit (score ts) = true)
         (theory_scores (assess (rt := example_host)
                           (uniform_input 0.5 (Some 1) None) "now")).
Proof.
  assert (H : unit_input (uniform_input 0.5 (Some 1) None)).
  { apply unit_input_uniform; reflexivity || exact I. }
  split; [exact H|]. split; [reflexivity|].
  apply (theory_scores_in_unit_interval example_host _ "now" H).
Defined.

(** ** The order of the properties *)

Lemma SFadd_comm (x y : spec_float) :
  SFadd prec emax x y = SFadd prec emax y x.
Proof.
  destruct x as [sx|sx| |sx mx ex], y as [sy|sy| |sy my ey]; try reflexivity.
  - destruct sx, sy; reflexivity.
  - destruct sx, sy; reflexivity.
  - cbn [SFadd]. rewrite (Z.min_comm ey ex). f_equal. apply Z.add_comm.
Qed.

Lemma add_comm (x y : float) : x + y = y + x.
Proof.
  apply Prim2SF_inj. rewrite !add_spec. apply SFadd_comm.
Qed.

Lemma neg_zero_cases (x : float) :
  x = (-0) \/ Prim2SF x <> S754_zero true.
Proof.
  destruct (Prim2SF x) as [[|]| | |] eqn:E;
    try (right; discriminate).
  left. apply neg_zero_Prim2SF. exact E.
Qed.

(** Adding two numbers to 0 in either order gives the same sum. *)
Lemma add_zero_pair (a b : float) : 0 + a + b = 0 + b + a.
Proof.
  destruct (neg_zero_cases a) as [->|Ha]; destruct (neg_zero_cases b) as [->|Hb].
  - reflexivity.
  - change (0 + -0) with 0. rewrite (add_zero_l b Hb).
    rewrite (add_comm b (-0)). symmetry. apply add_neg_zero_l.
  - change (0 + -0) with 0. rewrite (add_zero_l a Ha).
    rewrite (add_comm a (-0)). apply add_neg_zero_l.
  - rewrite (add_zero_l a Ha), (add_zero_l b Hb). apply add_comm.
Qed.

(** X6. An object of at most two properties has the same mean whichever
    order it lists them in, so the scores of RPT, HOT, AST and CROSS do not
    depend on the order of the keys.  With three properties, as GWT and PP
    have, the order can show in the last digit: the sum is taken left to
    right. *)
Theorem averageScore_order (o o' : Indicators) :
  Permutation o o' -> (List.length o <= 2)%nat ->
  averageScore o = averageScore o'.
Proof.
  intros P L.
  destruct o as [|[k1 a] [|[k2 b] [|? ?]]]; cbn in L; try lia.
  - apply Permutation_nil in P. subst o'. reflexivity.
  - apply Permutation_length_1_inv in P. subst o'. reflexivity.
  - apply Permutation_length_2_inv in P. destruct P as [->| ->]; [reflexivity|].
    unfold averageScore, length_number.
    cbn [Object_values map List.length Nat.eqb fold_left snd].
    rewrite (add_zero_pair b a). reflexivity.
Qed.

Lemma averageScore_order_witness :
  Permutation [("feedback_loops", 0.91); ("algorithmic_recurrence", 0.89)]
              [("algorithmic_recurrence", 0.89); ("feedback_loops", 0.91)] /\
  averageScore [("feedback_loops", 0.91); ("algorithmic_recurrence", 0.89)]
  = averageScore [("algorithmic_recurrence", 0.89); ("feedback_loops", 0.91)].
Proof.
  assert (P : Permutation
                [("feedback_loops", 0.91); ("algorithmic_recurrence", 0.89)]
                [("algorithmic_recurrence", 0.89); ("feedback_loops", 0.91)])
    by apply perm_swap.
  split; [exact P|].
  apply (averageScore_order _ _ P). cbn. lia.
Defined.

(** Three values of the unit interval whose mean depends on their order. *)
Example averageScore_order_of_three :
  averageScore [("information_broadcast", 0.7); ("attention_selection", 0.1);
                ("cross_module_integration", 0.3)] = 0.36666666666666664 /\
  averageScore [("cross_module_integration", 0.3); ("attention_selection", 0.1);
                ("information_broadcast", 0.7)] = 0.3666666666666667.
Proof. split; reflexivity. Qed.

(** ** Numbers that are not numbers *)

Lemma add_nan_l (x : float) : nan + x = nan.
Proof. apply Prim2SF_inj. rewrite add_spec. reflexivity. Qed.

Lemma add_nan_r (x : float) : x + nan = nan.
Proof.
  apply Prim2SF_inj. rewrite add_spec.
  change (Prim2SF nan) with S754_nan. destruct (Prim2SF x); reflexivity.
Qed.

Lemma mul_nan_l (x : float) : nan * x = nan.
Proof. apply Prim2SF_inj. rewrite mul_spec. reflexivity. Qed.

Lemma div_nan_l (x : float) : nan / x = nan.
Proof. apply Prim2SF_inj. rewrite div_spec. reflexivity. Qed.

Lemma sum_nan_acc (l : list float) :
  fold_left (fun a b => a + b) l nan = nan.
Proof.
  induction l as [|v l IH]; [reflexivity|].
  cbn [fold_left]. rewrite add_nan_l. exact IH.
Qed.

Lemma sum_nan (l : list float) (acc : float) :
  In nan l -> fold_left (fun a b => a + b) l acc = nan.
Proof.
  revert acc. induction l as [|v l IH]; intros acc Hin; [destruct Hin|].
  cbn [fold_left]. destruct Hin as [->|Hin].
  - rewrite add_nan_r. apply sum_nan_acc.
  - apply IH. exact Hin.
Qed.

Lemma averageScore_nan (o : Indicators) :
  In nan (Object_values o) -> averageScore o = nan.
Proof.
  intros Hin. unfold averageScore.
  destruct (Object_values o) as [|v l] eqn:E; [destruct Hin|].
  cbn [List.length Nat.eqb]. rewrite (sum_nan _ _ Hin). apply div_nan_l.
Qed.

Lemma weighted_sum_nan_acc (l : list TheoryScore) :
  fold_left (fun sum ts => sum + score ts * weight ts) l nan = nan.
Proof.
  induction l as [|ts l IH]; [reflexivity|].
  cbn [fold_left]. rewrite add_nan_l. exact IH.
Qed.

Lemma weighted_sum_nan (l : list TheoryScore) (acc : float) :
  Exists (fun ts => score ts = nan) l ->
  fold_left (fun sum ts => sum + score ts * weight ts) l acc = nan.
Proof.
  intros H. revert acc. induction H as [ts l Hs|ts l _ IH]; intros acc.
  - cbn [fold_left]. rewrite Hs, mul_nan_l, add_nan_r. apply weighted_sum_nan_acc.
  - cbn [fold_left]. apply IH.
Qed.

(** X7. [assess] does not check its input.  When a supplied indicator is
    NaN, the composite is NaN: the result is classified "C-0 Reactive",
    its composite score is NaN, and the hashed string holds [null] for the
    composite. *)
Theorem nan_indicator_gives_C0
    (rt : Runtime) (input : AssessmentInput) (now : string) :
  has_nan input ->
  composite input = nan /\
  composite_score (assess input now) = nan /\
  classification (assess input now) = "C-0 Reactive" /\
  classification_level (assess input now) = "C-0" /\
  JSON_value (JSNumber (composite input)) = "null".
Proof.
  intros H.
  assert (Hs : Exists (fun ts => score ts = nan) (theoryScores input)).
  { unfold theoryScores. destruct H as [H|H].
    - repeat match goal with
             | H : Exists _ (_ :: _) |- _ =>
                 apply Exists_cons in H; destruct H as [H|H]
             | H : Exists _ [] |- _ => apply Exists_nil in H; destruct H
             end.
      + apply Exists_cons_hd. apply averageScore_nan. exact H.
      + do 1 apply Exists_cons_tl. apply Exists_cons_hd.
        apply averageScore_nan. exact H.
      + do 2 apply Exists_cons_tl. apply Exists_cons_hd.
        apply averageScore_nan. exact H.
      + do 3 apply Exists_cons_tl. apply Exists_cons_hd.
        apply averageScore_nan. exact H.
      + do 4 apply Exists_cons_tl. apply Exists_cons_hd.
        apply averageScore_nan. exact H.
    - do 5 apply Exists_cons_tl. apply Exists_cons_hd. cbn [score].
      rewrite crossScore_averageScore. apply averageScore_nan.
      unfold crossIndicators. destruct H as [H|H]; rewrite H.
      + destruct (proof_chain_continuity input); cbn; auto.
      + destruct (recursive_self_reference input); cbn; auto. }
  assert (Hc : composite input = nan).
  { unfold composite. apply weighted_sum_nan. exact Hs. }
  split; [exact Hc|].
  cbn [assess composite_score classification classification_level JSON_value].
  rewrite Hc. repeat split; reflexivity.
Qed.

Lemma nan_indicator_gives_C0_witness :
  has_nan (outlier_input nan) /\
  classification (assess (rt := example_host) (outlier_input nan) "now")
  = "C-0 Reactive".
Proof.
  assert (H : has_nan (outlier_input nan)).
  { left. apply Exists_cons_hd. left. reflexivity. }
  split; [exact H|].
  exact (proj1 (proj2 (proj2 (nan_indicator_gives_C0 example_host _ "now" H)))).
Defined.

(** ** Rounding to four decimals *)

Section FourDecimals.
Local Open Scope Q_scope.

Lemma F2Q_10000 : F2Q 10000%float == 10000.
Proof. vm_compute. reflexivity. Qed.

(** A number that is not below a non-negative finite one is itself
    non-negative and finite, or it is infinite. *)
Lemma leb_nonneg_cases (C a : float) :
  nonneg C -> (C <=? a)%float = true -> nonneg a \/ a = infinity.
Proof.
  unfold nonneg. rewrite FloatAxioms.leb_spec. intros NC H.
  destruct (Prim2SF a) as [s|s| |s m e] eqn:E.
  - left. reflexivity.
  - right. apply Prim2SF_inj. rewrite E.
    destruct s; [|reflexivity].
    destruct (Prim2SF C) as [?|?| |[|] ? ?]; discriminate.
  - destruct (Prim2SF C) as [?|?| |[|] ? ?]; discriminate.
  - left. destruct s; [|reflexivity].
    destruct (Prim2SF C) as [?|?| |[|] ? ?]; discriminate.
Qed.

Lemma leb_infinity (C : float) : nonneg C -> (C <=? infinity)%float = true.
Proof.
  unfold nonneg. rewrite FloatAxioms.leb_spec. intros NC.
  destruct (Prim2SF C) as [[|]|?| |[|] ? ?]; try discriminate; reflexivity.
Qed.

(** A non-negative number whose value is the integer [k] is the Number
    value of [k]; for 0 it may be the negative zero. *)
Lemma integer_number (r : float) (k : Z) :
  nonneg r -> F2Q r == inject_Z k -> (0 <= k <= 2 ^ 53)%Z ->
  r = number_of_Z k \/ (k = 0%Z /\ r = (-0)%float).
Proof.
  intros Nr Hr Hk.
  destruct (Z.eq_dec k 0) as [->|Hk0].
  - unfold nonneg, F2Q in *.
    destruct (Prim2SF r) as [[|]|?| |[|] m e] eqn:E; try discriminate.
    + right. split; [reflexivity|]. apply neg_zero_Prim2SF. exact E.
    + left. apply Prim2SF_inj. rewrite E. reflexivity.
    + exfalso. cbn [SF2Q] in Hr. pose proof (SF2Q_pos m e) as P.
      rewrite Hr in P. revert P. apply Qlt_irrefl.
  - left. destruct (number_of_Z_F2Q k) as [Fk Nk]; [lia|].
    apply F2Q_inj.
    + exact Nr.
    + apply Nk. lia.
    + rewrite Hr, Fk. reflexivity.
    + rewrite Hr. rewrite <- (Zlt_Qlt 0). lia.
Qed.

(** [Math.round] of a product by 10000 that lies between two numbers. *)
Lemma scaled_round (c Tlo Tup : float) (Klo Kup : Z) :
  nonneg c -> nonneg Tlo -> nonneg Tup ->
  F2Q Tlo <= F2Q c * F2Q 10000%float ->
  F2Q c * F2Q 10000%float <= F2Q Tup ->
  (Klo <= Qfloor (F2Q Tlo + (1 # 2)))%Z ->
  (Qfloor (F2Q Tup + (1 # 2)) <= Kup)%Z ->
  exists k : Z,
    (Klo <= k <= Kup)%Z /\
    nonneg (Math_round (c * 10000)) /\
    F2Q (Math_round (c * 10000)) == inject_Z k.
Proof.
  intros Nc Nlo Nup Hlo Hup Hklo Hkup.
  pose proof (mul_rounds c 10000%float Nc eq_refl) as R.
  pose proof (F2Q_nonneg c Nc) as P0.
  assert (P1 : 0 <= F2Q c * F2Q 10000%float).
  { apply Qmult_le_0_compat; [exact P0|]. rewrite F2Q_10000. discriminate. }
  destruct (rounds_to_upper (c * 10000)%float _ Tup R Nup P1 Hup) as [Nt Ht].
  pose proof (rounds_to_lower (c * 10000)%float _ Tlo R Nlo Hlo) as Hl.
  apply (leb_F2Q Tlo (c * 10000)%float Nlo Nt) in Hl.
  exists (Qfloor (F2Q (c * 10000)%float + (1 # 2))).
  split; [|split].
  - split.
    + eapply Z.le_trans; [exact Hklo|]. apply Qfloor_resp_le. lra.
    + eapply Z.le_trans; [|exact Hkup]. apply Qfloor_resp_le. lra.
  - apply Math_round_nonneg. exact Nt.
  - apply Math_round_value.
Qed.

(** The rounded composite is not below a number [C] the composite is not
    below, when [C] is [K / 10000] as a Number. *)
Lemma round4_ge (c C Tlo : float) (K : Z) :
  (C <=? c)%float = true -> nonneg C -> nonneg Tlo ->
  F2Q Tlo <= F2Q C * F2Q 10000%float ->
  (K <= Qfloor (F2Q Tlo + (1 # 2)))%Z -> (0 < K < 2 ^ 53)%Z ->
  (C <=? number_of_Z K / 10000)%float = true ->
  F2Q C * F2Q 10000%float <= inject_Z (K + 1) ->
  (C <=? Math_round (c * 10000) / 10000)%float = true.
Proof.
  intros Hc NC Nlo Hlo HK HK' HCK HC1.
  assert (P10 : 0 < F2Q 10000%float) by (rewrite F2Q_10000; reflexivity).
  assert (Hinf : (C <=? Math_round infinity / 10000)%float = true).
  { change (Math_round infinity / 10000)%float with infinity.
    apply leb_infinity. exact NC. }
  destruct (leb_nonneg_cases C c NC Hc) as [Nc| ->];
    [|change (infinity * 10000)%float with infinity; exact Hinf].
  apply (leb_F2Q C c NC Nc) in Hc.
  pose proof (mul_rounds c 10000%float Nc eq_refl) as R.
  assert (Hl : (Tlo <=? c * 10000)%float = true).
  { apply (rounds_to_lower (c * 10000)%float _ Tlo R Nlo).
    eapply Qle_trans; [exact Hlo|].
    apply Qmult_le_compat_r; [exact Hc|apply Qlt_le_weak; exact P10]. }
  destruct (leb_nonneg_cases Tlo _ Nlo Hl) as [Nt|Et];
    [|rewrite Et; exact Hinf].
  apply (leb_F2Q Tlo (c * 10000)%float Nlo Nt) in Hl.
  set (t := (c * 10000)%float) in *.
  pose proof (Math_round_nonneg t Nt) as Nr.
  pose proof (Math_round_value t) as Vr.
  set (k := Qfloor (F2Q t + (1 # 2))) in *.
  assert (Hk : (K <= k)%Z).
  { eapply Z.le_trans; [exact HK|]. apply Qfloor_resp_le. lra. }
  destruct (Z.eq_dec k K) as [E|E].
  - destruct (integer_number (Math_round t) k Nr Vr) as [Er|[E0 _]]; [lia| |lia].
    rewrite Er, E. exact HCK.
  - apply (rounds_to_lower (Math_round t / 10000)%float
             (F2Q (Math_round t) / F2Q 10000%float) C).
    + apply div_rounds; [exact Nr|reflexivity|exact P10].
    + exact NC.
    + apply Qle_shift_div_l; [exact P10|].
      eapply Qle_trans; [exact HC1|]. rewrite Vr, <- Zle_Qle. lia.
Qed.

End FourDecimals.

(** ** An infinite indicator *)

Section Infinite.
Local Open Scope Q_scope.

Lemma add_infinity_l (x : float) : extended x -> (infinity + x)%float = infinity.
Proof.
  intros [N| ->]; [|reflexivity].
  apply Prim2SF_inj. rewrite add_spec. unfold nonneg in N.
  destruct (Prim2SF x) as [?|?| |[|] ? ?]; try discriminate; reflexivity.
Qed.

Lemma add_infinity_r (x : float) : extended x -> (x + infinity)%float = infinity.
Proof. intros H. rewrite add_comm. apply add_infinity_l. exact H. Qed.

Lemma add_extended (a b : float) :
  extended a -> extended b -> extended (a + b)%float.
Proof.
  intros [Na| ->] Hb; [|right; apply add_infinity_l; exact Hb].
  destruct Hb as [Nb| ->]; [|right; apply add_infinity_r; left; exact Na].
  apply (leb_nonneg_cases 0%float); [reflexivity|].
  apply (rounds_to_lower _ _ 0%float (add_rounds a b Na Nb)); [reflexivity|].
  pose proof (F2Q_nonneg a Na). pose proof (F2Q_nonneg b Nb).
  change (F2Q 0%float) with 0. lra.
Qed.

Lemma positive_finite (w : float) :
  nonneg w -> 0 < F2Q w -> exists m e, Prim2SF w = S754_finite false m e.
Proof.
  unfold nonneg, F2Q. intros N P.
  destruct (Prim2SF w) as [?|?| |[|] m e]; try discriminate.
  exists m, e. reflexivity.
Qed.

Lemma mul_infinity_l (w : float) :
  nonneg w -> 0 < F2Q w -> (infinity * w)%float = infinity.
Proof.
  intros N P. destruct (positive_finite w N P) as [m [e E]].
  apply Prim2SF_inj. rewrite mul_spec, E. reflexivity.
Qed.

Lemma div_infinity_l (w : float) :
  nonneg w -> 0 < F2Q w -> (infinity / w)%float = infinity.
Proof.
  intros N P. destruct (positive_finite w N P) as [m [e E]].
  apply Prim2SF_inj. rewrite div_spec, E. reflexivity.
Qed.

Lemma mul_extended (s w : float) :
  extended s -> nonneg w -> 0 < F2Q w -> extended (s * w)%float.
Proof.
  intros [Ns| ->] Nw Pw; [|right; apply mul_infinity_l; assumption].
  apply (leb_nonneg_cases 0%float); [reflexivity|].
  apply (rounds_to_lower _ _ 0%float (mul_rounds s w Ns Nw)); [reflexivity|].
  change (F2Q 0%float) with 0.
  apply Qmult_le_0_compat; [apply F2Q_nonneg; exact Ns|apply Qlt_le_weak; exact Pw].
Qed.

Lemma unit_or_infinity_extended (v : float) : unit_or_infinity v -> extended v.
Proof.
  intros [H| ->]; [left|right; reflexivity].
  apply in_unit_bounds. exact H.
Qed.

Lemma sum_infinity (l : list float) (acc : float) :
  extended acc -> Forall unit_or_infinity l ->
  acc = infinity \/ In infinity l ->
  fold_left (fun a b => (a + b)%float) l acc = infinity.
Proof.
  revert acc. induction l as [|v l IH]; intros acc Ha Hl Hi.
  - destruct Hi as [->|[]]. reflexivity.
  - inversion Hl as [|? ? Hv Hl']; subst. cbn [fold_left].
    pose proof (unit_or_infinity_extended v Hv) as Ev.
    apply IH; [apply add_extended; assumption|exact Hl'|].
    destruct Hi as [->|[->|Hi]].
    + left. apply add_infinity_l. exact Ev.
    + left. apply add_infinity_r. exact Ha.
    + right. exact Hi.
Qed.

Lemma averageScore_infinity (o : Indicators) :
  Forall unit_or_infinity (Object_values o) -> array_sized o ->
  In infinity (Object_values o) -> averageScore o = infinity.
Proof.
  unfold array_sized, averageScore. intros Ho Hn Hin.
  set (values := Object_values o) in *.
  assert (Hlen : List.length values = List.length o) by apply length_map.
  destruct values as [|v l] eqn:E; [destruct Hin|].
  cbn [Nat.eqb List.length]. rewrite <- E in *.
  rewrite (sum_infinity values 0%float); [|left; reflexivity|exact Ho|right; exact Hin].
  unfold length_number.
  assert (P32 : (2 ^ 32 < 2 ^ 53)%Z) by reflexivity.
  assert (H1 : (1 <= Z.of_nat (List.length values))%Z) by (rewrite E; cbn [List.length]; lia).
  destruct (number_of_Z_F2Q (Z.of_nat (List.length values))) as [Fn Nn]; [lia|].
  apply div_infinity_l; [apply Nn; lia|].
  rewrite Fn. rewrite <- (Zlt_Qlt 0). lia.
Qed.

Lemma averageScore_extended (o : Indicators) :
  Forall unit_or_infinity (Object_values o) -> array_sized o ->
  extended (averageScore o).
Proof.
  intros Ho Hn.
  assert (D : Forall (fun v => in_unit v = true) (Object_values o)
              \/ In infinity (Object_values o)).
  { induction Ho as [|v l [Hv| ->] _ IH].
    - left. constructor.
    - destruct IH as [IH|IH]; [left; constructor; assumption|right; right; exact IH].
    - right. left. reflexivity. }
  destruct D as [D|D].
  - left. apply averageScore_unit; assumption.
  - right. apply averageScore_infinity; assumption.
Qed.

Lemma weighted_sum_extended (l : list TheoryScore) (acc : float) :
  extended acc ->
  Forall (fun ts => extended (score ts) /\ nonneg (weight ts) /\ 0 < F2Q (weight ts)) l ->
  extended (fold_left (fun sum ts => (sum + score ts * weight ts)%float) l acc) /\
  (acc = infinity \/ Exists (fun ts => score ts = infinity) l ->
   fold_left (fun sum ts => (sum + score ts * weight ts)%float) l acc = infinity).
Proof.
  revert acc. induction l as [|ts l IH]; intros acc Ha Hl.
  - split; [exact Ha|]. intros [->|H]; [reflexivity|inversion H].
  - inversion Hl as [|? ? [Hs [Nw Pw]] Hl']; subst. cbn [fold_left].
    pose proof (mul_extended _ _ Hs Nw Pw) as Ep.
    destruct (IH (acc + score ts * weight ts)%float) as [IH1 IH2];
      [apply add_extended; assumption|exact Hl'|].
    split; [exact IH1|]. intros Hi. apply IH2.
    destruct Hi as [->|Hi].
    + left. apply add_infinity_l. exact Ep.
    + apply Exists_cons in Hi. destruct Hi as [Hi|Hi]; [|right; exact Hi].
      left. rewrite Hi, (mul_infinity_l _ Nw Pw). apply add_infinity_r. exact Ha.
Qed.

(** X8. [assess] does not check that the indicators are finite either.
    When the supplied indicators are numbers of the unit interval except
    that one or more of them is positive infinity, the composite is
    infinite: the result is classified "C-4 Transcendent", its composite
    score is infinite, and the hashed string holds [null] for the
    composite. *)
Theorem infinite_indicator_gives_C4
    (rt : Runtime) (input : AssessmentInput) (now : string) :
  has_infinity input ->
  composite input = infinity /\
  composite_score (assess input now) = infinity /\
  classification (assess input now) = "C-4 Transcendent"%string /\
  classification_level (assess input now) = "C-4"%string /\
  JSON_value (JSNumber (composite input)) = "null"%string.
Proof.
  intros [Hcat [Ha [Hb Hi]]].
  assert (Hc : composite input = infinity).
  { inversion Hcat as [|? ? [G1 G2] H1]; subst.
    inversion H1 as [|? ? [R1 R2] H2]; subst.
    inversion H2 as [|? ? [O1 O2] H3]; subst.
    inversion H3 as [|? ? [P1 P2] H4]; subst.
    inversion H4 as [|? ? [A1 A2] _]; subst.
    assert (Xc : Forall unit_or_infinity (Object_values (crossIndicators input))).
    { unfold crossIndicators.
      destruct (recursive_self_reference input) as [a|] eqn:Ea,
               (proof_chain_continuity input) as [b|] eqn:Eb;
        cbn; repeat apply Forall_cons; try apply Forall_nil; auto. }
    assert (Sc : array_sized (crossIndicators input)).
    { unfold array_sized, crossIndicators.
      destruct (recursive_self_reference input), (proof_chain_continuity input);
        cbn; lia. }
    assert (W : Forall (fun ts => extended (score ts) /\ nonneg (weight ts)
                                 /\ 0 < F2Q (weight ts)) (theoryScores input)).
    { unfold theoryScores.
      repeat apply Forall_cons; try apply Forall_nil; cbn [score weight];
        (split; [|split; reflexivity]);
        first [ apply averageScore_extended; assumption
              | rewrite crossScore_averageScore; apply averageScore_extended; assumption ]. }
    unfold composite.
    apply (proj2 (weighted_sum_extended (theoryScores input) 0%float
                    (or_introl eq_refl) W)).
    right. unfold theoryScores. destruct Hi as [Hi|Hi].
    - repeat match goal with
             | H : Exists _ (_ :: _) |- _ =>
                 apply Exists_cons in H; destruct H as [H|H]
             | H : Exists _ [] |- _ => apply Exists_nil in H; destruct H
             end.
      + apply Exists_cons_hd. apply averageScore_infinity; assumption.
      + do 1 apply Exists_cons_tl. apply Exists_cons_hd.
        apply averageScore_infinity; assumption.
      + do 2 apply Exists_cons_tl. apply Exists_cons_hd.
        apply averageScore_infinity; assumption.
      + do 3 apply Exists_cons_tl. apply Exists_cons_hd.
        apply averageScore_infinity; assumption.
      + do 4 apply Exists_cons_tl. apply Exists_cons_hd.
        apply averageScore_infinity; assumption.
    - do 5 apply Exists_cons_tl. apply Exists_cons_hd. cbn [score].
      rewrite crossScore_averageScore.
      apply averageScore_infinity; [exact Xc|exact Sc|].
      unfold crossIndicators. destruct Hi as [Hi|Hi]; rewrite Hi.
      + destruct (proof_chain_continuity input); cbn; auto.
      + destruct (recursive_self_reference input); cbn; auto. }
  split; [exact Hc|].
  cbn [assess composite_score classification classification_level JSON_value].
  rewrite Hc. repeat split; reflexivity.
Qed.

End Infinite.

Lemma infinite_indicator_gives_C4_witness :
  has_infinity (outlier_input infinity) /\
  classification (assess (rt := example_host) (outlier_input infinity) "now")
  = "C-4 Transcendent".
Proof.
  assert (H : has_infinity (outlier_input infinity)).
  { split; [|split; [|split]].
    - repeat apply Forall_cons; try apply Forall_nil;
        (split; [|reflexivity]); cbn;
        repeat apply Forall_cons; try apply Forall_nil;
        first [right; reflexivity | left; reflexivity].
    - intros v E. discriminate E.
    - intros v E. discriminate E.
    - left. apply Exists_cons_hd. left. reflexivity. }
  split; [exact H|].
  exact (proj1 (proj2 (proj2 (infinite_indicator_gives_C4 example_host _ "now" H)))).
Defined.

Section RoundedBand.
Local Open Scope Q_scope.

(** Each threshold of [classify] the composite reaches, the rounded
    composite reaches too. *)
Lemma round4_keeps_threshold (c : float) :
  Forall (fun T => (T <=? c)%float = true ->
                   (T <=? Math_round (c * 10000) / 10000)%float = true)
         [0.20; 0.50; 0.70; 0.85]%float.
Proof.
  repeat constructor; intros H.
  - apply (round4_ge c 0.20 1999.5 2000 H); try reflexivity; try closed_Q.
    split; reflexivity.
  - apply (round4_ge c 0.50 4999.5 5000 H); try reflexivity; try closed_Q.
    split; reflexivity.
  - apply (round4_ge c 0.70 6999.5 7000 H); try reflexivity; try closed_Q.
    split; reflexivity.
  - apply (round4_ge c 0.85 8499.5 8500 H); try reflexivity; try closed_Q.
    split; reflexivity.
Qed.

(** X9. Classifying the rounded composite score of a result never gives a
    lower band than the classification of the result, which is made from
    the composite before rounding: the two differ in one direction only. *)
Theorem rounding_never_lowers_band
    (rt : Runtime) (input : AssessmentInput) (now : string) :
  (band (classify (composite input))
   <= band (classify (composite_score (assess input now))))%nat /\
  classification (assess input now) = label (classify (composite input)).
Proof.
  split; [|reflexivity].
  cbn [assess composite_score].
  pose proof (round4_keeps_threshold (composite input)) as F.
  inversion F as [|? ? H20 F1]; subst. inversion F1 as [|? ? H50 F2]; subst.
  inversion F2 as [|? ? H70 F3]; subst. inversion F3 as [|? ? H85 _]; subst.
  set (c := composite input) in *.
  set (r := (Math_round (c * 10000) / 10000)%float) in *.
  unfold classify.
  destruct (0.85 <=? c)%float eqn:E1.
  { rewrite (H85 eq_refl). apply Nat.le_refl. }
  destruct (0.70 <=? c)%float eqn:E2.
  { rewrite (H70 eq_refl). destruct (0.85 <=? r)%float; cbn; lia. }
  destruct (0.50 <=? c)%float eqn:E3.
  { rewrite (H50 eq_refl).
    destruct (0.85 <=? r)%float, (0.70 <=? r)%float; cbn; lia. }
  destruct (0.20 <=? c)%float eqn:E4.
  { rewrite (H20 eq_refl).
    destruct (0.85 <=? r)%float, (0.70 <=? r)%float, (0.50 <=? r)%float; cbn; lia. }
  cbn. lia.
Qed.

End RoundedBand.

(** ** Composites just below a threshold *)

Section Thresholds.
Local Open Scope Q_scope.

(** A positive number of the binade from 2^(n-1) to 2^n has exponent
    n - 53, when the binade holds normal numbers. *)
Lemma binade (s : float) (n : Z) :
  (-1021 <= n)%Z ->
  nonneg s -> 2 ^ (n - 1) <= F2Q s -> F2Q s < 2 ^ n ->
  exists m : positive, Prim2SF s = S754_finite false m (n - 53).
Proof.
  unfold nonneg, F2Q. intros Hn Ns Hlo Hhi.
  pose proof (Prim2SF_valid s) as V.
  destruct (Prim2SF s) as [z|z| |[|] m e]; cbn [nonneg_finite SF2Q] in *;
    try discriminate.
  - exfalso. apply (Qlt_irrefl 0). eapply Qlt_le_trans; [|exact Hlo]. apply pow2_pos.
  - exists m. f_equal.
    cbn [valid_binary] in V. apply bounded_spec in V. destruct V as [V _].
    rewrite fexp_eq in V.
    assert (H1 : (Zpos (digits2_pos m) + e - 1 < n)%Z).
    { destruct (Z.lt_ge_cases (Zpos (digits2_pos m) + e - 1) n) as [H|H]; [exact H|].
      exfalso. apply (Qlt_irrefl (2 ^ n)).
      eapply Qle_lt_trans; [|exact Hhi].
      eapply Qle_trans; [|apply Qmag_lo].
      apply pow2_le. exact H. }
    assert (H2 : (n - 1 < Zpos (digits2_pos m) + e)%Z).
    { destruct (Z.lt_ge_cases (n - 1) (Zpos (digits2_pos m) + e)) as [H|H]; [exact H|].
      exfalso. apply (Qlt_irrefl (2 ^ (n - 1))).
      eapply Qle_lt_trans; [exact Hlo|].
      eapply Qlt_le_trans; [apply Qmag_hi|].
      apply pow2_le. exact H. }
    lia.
Qed.

(** A composite from [lo], whose mantissa is [M] in the binade of [n], up
    to but not including the threshold [T] is rounded to [T], which is
    [K / 10000]. *)
Lemma round4_below (s lo T Tlo Tup : float) (n : Z) (M : positive) (K : Z) :
  (lo <=? s)%float = true -> (s <? T)%float = true ->
  nonneg lo -> nonneg T -> nonneg Tlo -> nonneg Tup ->
  (-1021 <= n)%Z -> (0 < K < 2 ^ 53)%Z ->
  Prim2SF lo = S754_finite false M (n - 53) ->
  2 ^ (n - 1) <= F2Q lo -> F2Q T <= 2 ^ n ->
  (Math_round (lo * 10000) / 10000)%float = T ->
  (number_of_Z K / 10000)%float = T ->
  F2Q Tlo <= inject_Z (Zpos M + 1) * 2 ^ (n - 53) * F2Q 10000%float ->
  F2Q T * F2Q 10000%float <= F2Q Tup ->
  (K <= Qfloor (F2Q Tlo + (1 # 2)))%Z ->
  (Qfloor (F2Q Tup + (1 # 2)) <= K)%Z ->
  (Math_round (s * 10000) / 10000)%float = T.
Proof.
  intros Hlo Hhi Nlo NT NTlo NTup Hn HK Elo Blo BT Rlo RK Qlo Qup Flo Fup.
  assert (Ns : nonneg s).
  { apply (nonneg_between s T); [|apply ltb_leb; exact Hhi|exact NT].
    apply (leb_trans _ lo); [apply nonneg_leb_zero; exact Nlo|exact Hlo]. }
  pose proof (proj1 (leb_F2Q lo s Nlo Ns) Hlo) as Ls.
  pose proof (proj1 (ltb_F2Q s T Ns NT) Hhi) as Us.
  destruct (binade s n Hn Ns) as [m Em].
  { eapply Qle_trans; [exact Blo|exact Ls]. }
  { eapply Qlt_le_trans; [exact Us|exact BT]. }
  assert (Fs : F2Q s == inject_Z (Zpos m) * 2 ^ (n - 53)).
  { unfold F2Q. rewrite Em. reflexivity. }
  assert (F0 : F2Q lo == inject_Z (Zpos M) * 2 ^ (n - 53)).
  { unfold F2Q. rewrite Elo. reflexivity. }
  rewrite Fs, F0 in Ls. apply Qmult_pow2_le in Ls.
  destruct (Pos.eq_dec m M) as [E0|E0].
  - assert (s = lo) by (apply Prim2SF_inj; rewrite Em, Elo, E0; reflexivity).
    subst s. exact Rlo.
  - assert (Hm : (Zpos M + 1 <= Zpos m)%Z) by lia.
    assert (P10 : 0 < F2Q 10000%float) by (rewrite F2Q_10000; reflexivity).
    destruct (scaled_round s Tlo Tup K K Ns NTlo NTup) as [k [Hk [Nr Vr]]].
    + eapply Qle_trans; [exact Qlo|].
      apply Qmult_le_compat_r; [|apply Qlt_le_weak; exact P10].
      rewrite Fs. apply Qmult_pow2_le. exact Hm.
    + eapply Qle_trans; [|exact Qup].
      apply Qmult_le_compat_r; [apply Qlt_le_weak; exact Us|apply Qlt_le_weak; exact P10].
    + exact Flo.
    + exact Fup.
    + assert (k = K) by lia. subst k.
      destruct (integer_number _ K Nr Vr) as [Er|[E _]]; [lia| |lia].
      rewrite Er. exact RK.
Qed.

Lemma round4_at_boundary (c lo T : float) (below above : Classification) :
  In (lo, T, below, above) boundaries ->
  (lo <=? c)%float = true -> (c <? T)%float = true ->
  (Math_round (c * 10000) / 10000)%float = T.
Proof.
  intros Hin Hlo Hhi. cbn [In boundaries] in Hin.
  destruct Hin as [E|[E|[E|[E|[]]]]]; injection E as <- <- <- <-.
  - apply (round4_below c _ _ 1999.5 2000.25 (-2) 7203957963941845 2000 Hlo Hhi);
      try reflexivity; try closed_Q; split; reflexivity.
  - apply (round4_below c _ _ 4999.5 5000.25 (-1) 9006298534815518 5000 Hlo Hhi);
      try reflexivity; try closed_Q; split; reflexivity.
  - apply (round4_below c _ _ 6999.5 7000.25 0 6304589118355957 7000 Hlo Hhi);
      try reflexivity; try closed_Q; split; reflexivity.
  - apply (round4_below c _ _ 8499.5 8500.25 0 7655669006567106 8500 Hlo Hhi);
      try reflexivity; try closed_Q; split; reflexivity.
Qed.

Lemma ltb_false_of_leb (a c : float) :
  (a <=? c)%float = true -> (c <? a)%float = false.
Proof.
  intros H. destruct (leb_is_nan _ _ H) as [Na Nc].
  rewrite (leb_negb_ltb c a Nc Na) in H.
  destruct (c <? a)%float; [discriminate|reflexivity].
Qed.

Lemma classify_at_boundary (c lo T : float) (below above : Classification) :
  In (lo, T, below, above) boundaries ->
  (lo <=? c)%float = true -> (c <? T)%float = true ->
  classify c = below /\ classify T = above.
Proof.
  intros Hin Hlo Hhi. cbn [In boundaries] in Hin.
  destruct (ltb_is_nan _ _ Hhi) as [Nc _].
  rewrite classify_cases, Nc.
  destruct Hin as [E|[E|[E|[E|[]]]]]; injection E as <- <- <- <-;
    (split; [|reflexivity]);
    repeat match goal with
           | |- context [(c <? ?t)%float] =>
               first [ rewrite Hhi
                     | rewrite (ltb_false_of_leb t c)
                         by (eapply leb_trans; [|exact Hlo]; reflexivity) ]
           end; reflexivity.
Qed.

(** X10. At each of the four thresholds: when the composite is below the
    threshold by 0.00005 or less, the composite score of the result is the
    threshold itself, while the classification is the band below it; the
    rounded score, classified, would give the band above. *)
Theorem composite_score_reaches_threshold_first
    (rt : Runtime) (input : AssessmentInput) (now : string)
    (lo T : float) (below above : Classification) :
  In (lo, T, below, above) boundaries ->
  (lo <=? composite input)%float = true ->
  (composite input <? T)%float = true ->
  composite_score (assess input now) = T /\
  classification (assess input now) = label below /\
  classify (composite_score (assess input now)) = above /\
  band above = S (band below).
Proof.
  intros Hin Hlo Hhi.
  pose proof (round4_at_boundary _ _ _ _ _ Hin Hlo Hhi) as Hs.
  destruct (classify_at_boundary _ _ _ _ _ Hin Hlo Hhi) as [Hc HT].
  cbn [assess composite_score classification]. rewrite Hs, Hc, HT.
  repeat split.
  cbn [In boundaries] in Hin.
  destruct Hin as [E|[E|[E|[E|[]]]]]; injection E as <- <- <- <-; reflexivity.
Qed.

End Thresholds.

Lemma composite_score_reaches_threshold_first_witness :
  composite (uniform_input 0.94444 None None) = 0.84999599999999986%float /\
  composite_score (assess (rt := example_host)
                     (uniform_input 0.94444 None None) "now") = 0.85%float /\
  classification (assess (rt := example_host)
                    (uniform_input 0.94444 None None) "now") = "C-3 Autonomous".
Proof.
  split; [reflexivity|].
  destruct (composite_score_reaches_threshold_first example_host
              (uniform_input 0.94444 None None) "now"
              0.84995%float 0.85%float C3_Autonomous C4_Transcendent)
    as [H1 [H2 _]].
  - cbn. auto 6.
  - reflexivity.
  - reflexivity.
  - split; assumption.
Defined.

(** ** The score without the cross-theory fields *)

Section WithoutCross.
Local Open Scope Q_scope.

Lemma composite_without_cross (input : AssessmentInput) :
  unit_input input ->
  recursive_self_reference input = None -> proof_chain_continuity input = None ->
  nonneg (composite input) /\ F2Q (composite input) <= F2Q 0.9000004%float.
Proof.
  intros [Hcat _] Ea Eb.
  inversion Hcat as [|? ? [G1 G2] H1]; subst.
  inversion H1 as [|? ? [R1 R2] H2]; subst.
  inversion H2 as [|? ? [O1 O2] H3]; subst.
  inversion H3 as [|? ? [P1 P2] H4]; subst.
  inversion H4 as [|? ? [A1 A2] _]; subst.
  destruct (averageScore_unit _ G1 G2) as [Ng Hg].
  destruct (averageScore_unit _ R1 R2) as [Nr Hr].
  destruct (averageScore_unit _ O1 O2) as [No Ho].
  destruct (averageScore_unit _ P1 P2) as [Np Hp].
  destruct (averageScore_unit _ A1 A2) as [Na Hav].
  assert (Ec : crossScore input = 0%float).
  { unfold crossScore, crossIndicators. rewrite Ea, Eb. reflexivity. }
  unfold composite, theoryScores.
  cbn [fold_left score weight get_property THEORY_WEIGHTS String.eqb Ascii.eqb Bool.eqb].
  rewrite Ec. change (0 * 0.1)%float with 0%float.
  destruct (weighted_step 0 (averageScore (gwt input)) 0.25 0 0.25
              eq_refl ltac:(apply Qle_refl) Ng Hg eq_refl eq_refl ltac:(closed_Q))
    as [N1 B1].
  destruct (weighted_step _ (averageScore (rpt input)) 0.15 0.25 0.4000001
              N1 B1 Nr Hr eq_refl eq_refl ltac:(closed_Q)) as [N2 B2].
  destruct (weighted_step _ (averageScore (hot input)) 0.20 0.4000001 0.6000002
              N2 B2 No Ho eq_refl eq_refl ltac:(closed_Q)) as [N3 B3].
  destruct (weighted_step _ (averageScore (pp input)) 0.20 0.6000002 0.8000003
              N3 B3 Np Hp eq_refl eq_refl ltac:(closed_Q)) as [N4 B4].
  destruct (weighted_step _ (averageScore (ast input)) 0.10 0.8000003 0.9000004
              N4 B4 Na Hav eq_refl eq_refl ltac:(closed_Q)) as [N5 B5].
  set (acc := (0 + averageScore (gwt input) * 0.25 + averageScore (rpt input) * 0.15
               + averageScore (hot input) * 0.2 + averageScore (pp input) * 0.2
               + averageScore (ast input) * 0.1)%float) in *.
  pose proof (F2Q_nonneg acc N5) as P5.
  apply (rounds_to_upper (acc + 0)%float (F2Q acc + F2Q 0%float) 0.9000004%float).
  - apply add_rounds; [exact N5|reflexivity].
  - reflexivity.
  - change (F2Q 0%float) with 0. lra.
  - change (F2Q 0%float) with 0. lra.
Qed.

(** X11. Without the two optional cross-theory fields the CROSS score is
    0, and an input of the unit interval scores at most 0.9. *)
Theorem composite_score_without_cross_fields
    (rt : Runtime) (input : AssessmentInput) (now : string) :
  unit_input input ->
  recursive_self_reference input = None -> proof_chain_continuity input = None ->
  crossScore input = 0%float /\
  (composite_score (assess input now) <=? 0.9)%float = true.
Proof.
  intros Hin Ea Eb.
  split.
  { unfold crossScore, crossIndicators. rewrite Ea, Eb. reflexivity. }
  destruct (composite_without_cross input Hin Ea Eb) as [Nc Hc].
  cbn [assess composite_score].
  assert (P10 : 0 < F2Q 10000%float) by (rewrite F2Q_10000; reflexivity).
  destruct (scaled_round (composite input) 0 9000.25 0 9000 Nc eq_refl eq_refl)
    as [k [Hk [Nr Vr]]].
  - apply Qmult_le_0_compat; [apply F2Q_nonneg; exact Nc|apply Qlt_le_weak; exact P10].
  - apply Qle_trans with (F2Q 0.9000004%float * F2Q 10000%float).
    + apply Qmult_le_compat_r; [exact Hc|apply Qlt_le_weak; exact P10].
    + closed_Q.
  - closed_Q.
  - closed_Q.
  - destruct (rounds_to_upper
                (Math_round (composite input * 10000) / 10000)%float
                (F2Q (Math_round (composite input * 10000)) / F2Q 10000%float)
                0.9%float) as [Nq Hq].
    + apply div_rounds; [exact Nr|reflexivity|exact P10].
    + reflexivity.
    + apply Qle_shift_div_l; [exact P10|]. rewrite Qmult_0_l.
      apply F2Q_nonneg. exact Nr.
    + apply Qle_shift_div_r; [exact P10|]. rewrite Vr.
      apply Qle_trans with (inject_Z 9000).
      * rewrite <- Zle_Qle. lia.
      * closed_Q.
    + apply leb_F2Q; [exact Nq|reflexivity|exact Hq].
Qed.

End WithoutCross.

Lemma composite_score_without_cross_fields_witness :
  unit_input (uniform_input 1 None None) /\
  composite_score (assess (rt := example_host) (uniform_input 1 None None) "now")
  = 0.9 /\
  (composite_score (assess (rt := example_host) (uniform_input 1 None None) "now")
   <=? 0.9) = true.
Proof.
  assert (H : unit_input (uniform_input 1 None None)).
  { apply unit_input_uniform; reflexivity || exact I. }
  split; [exact H|]. split; [reflexivity|].
  apply (composite_score_without_cross_fields example_host _ "now" H);
    reflexivity.
Defined.

(** ** The error of a rounded product or quotient *)

Section RoundingError.
Local Open Scope Q_scope.

Lemma pow2_lt_inv (a b : Z) : 2 ^ a < 2 ^ b -> (a < b)%Z.
Proof.
  intros H. destruct (Z.lt_ge_cases a b) as [L|L]; [exact L|].
  exfalso. apply (Qlt_irrefl (2 ^ a)).
  eapply Qlt_le_trans; [exact H|apply pow2_le; exact L].
Qed.

(** The value of a rounded mantissa, below the largest exponent. *)
Lemma rounded_value (q E : Z) :
  (0 <= q <= 2 ^ 53)%Z -> (E < 971)%Z ->
  nonneg_finite (rounded false q E) = true /\
  SF2Q (rounded false q E) == inject_Z q * 2 ^ E.
Proof.
  intros Hq HE. unfold rounded.
  destruct (Z.eqb_spec q 0) as [Q0|Q0].
  - subst q. split; [reflexivity|]. cbn [SF2Q]. ring.
  - destruct (Z.eqb_spec q (2 ^ 53)) as [Q1|Q1].
    + destruct (Z.leb_spec (E + 1) 971) as [L|L]; [|lia].
      split; [reflexivity|]. cbn [SF2Q]. subst q.
      rewrite (rescale (2 ^ 52) E 1) by lia. reflexivity.
    + destruct (Z.leb_spec E 971) as [L|L]; [|lia].
      split; [reflexivity|]. cbn [SF2Q].
      rewrite Z2Pos.id by lia. reflexivity.
Qed.

(** A located value below 2^n is rounded with an error below one unit of
    the last place of its binade. *)
Lemma binary_round_aux_error (m e : Z) (l : location) (x : Q) (n : Z) :
  (0 <= m)%Z -> (e <= fexp64 (Zdigits2 m + e))%Z -> locates x m e l ->
  x < 2 ^ n -> (n <= 1023)%Z ->
  nonneg_finite (binary_round_aux prec emax false m e l) = true /\
  x - 2 ^ Z.max (n - 53) emin64 < SF2Q (binary_round_aux prec emax false m e l) /\
  SF2Q (binary_round_aux prec emax false m e l) < x + 2 ^ Z.max (n - 53) emin64.
Proof.
  intros Hm He Hl Hx Hn.
  destruct (binary_round_aux_locates false m e l x Hm He Hl)
    as [q [E [m1 [R [Hc [Hm1 [HE [L1 [L2 Hq]]]]]]]]].
  assert (HE' : (E <= Z.max (n - 53) emin64)%Z).
  { destruct Hc as [Hc|Hc]; [lia|].
    assert (H : 2 ^ (52 + E) < 2 ^ n).
    { eapply Qle_lt_trans; [|exact Hx]. eapply Qle_trans; [|exact L1].
      rewrite pow2_add. apply Qmult_le_compat_r; [|apply Qlt_le_weak, pow2_pos].
      rewrite <- inject_Z_pow2 by lia. rewrite <- Zle_Qle. exact Hc. }
    apply pow2_lt_inv in H. lia. }
  pose proof (pow2_le _ _ HE') as PE.
  assert (Hq' : (0 <= q <= 2 ^ 53)%Z) by (destruct Hq as [->|[-> _]]; lia).
  destruct (rounded_value q E Hq') as [N V]; [lia|].
  rewrite R. split; [exact N|]. rewrite V.
  assert (S1 : inject_Z (m1 + 1) * 2 ^ E == inject_Z m1 * 2 ^ E + 2 ^ E).
  { rewrite inject_Z_plus. change (inject_Z 1) with 1. ring. }
  rewrite S1 in L2.
  pose proof (pow2_pos (Z.max (n - 53) emin64)) as PP.
  destruct Hq as [->|[-> Hne]].
  - set (v := inject_Z m1 * 2 ^ E) in *.
    set (u := 2 ^ E) in *. set (w := 2 ^ Z.max (n - 53) emin64) in *.
    split; lra.
  - assert (L1' : inject_Z m1 * 2 ^ E < x).
    { destruct (Qle_lt_or_eq _ _ L1) as [H|H]; [exact H|].
      exfalso. apply Hne. symmetry. exact H. }
    rewrite S1. set (v := inject_Z m1 * 2 ^ E) in *.
    set (u := 2 ^ E) in *. set (w := 2 ^ Z.max (n - 53) emin64) in *.
    split; lra.
Qed.

Lemma SFmul_error (a b : spec_float) (n : Z) :
  nonneg_finite a = true -> nonneg_finite b = true ->
  valid_binary a = true -> valid_binary b = true ->
  SF2Q a * SF2Q b < 2 ^ n -> (n <= 1023)%Z ->
  nonneg_finite (SF64mul a b) = true /\
  SF2Q a * SF2Q b - 2 ^ Z.max (n - 53) emin64 < SF2Q (SF64mul a b) /\
  SF2Q (SF64mul a b) < SF2Q a * SF2Q b + 2 ^ Z.max (n - 53) emin64.
Proof.
  intros Na Nb Va Vb Hx Hn.
  pose proof (pow2_pos (Z.max (n - 53) emin64)) as PP.
  destruct (nonneg_finite_cases a Na) as [[sa ->]|[ma [ea ->]]],
           (nonneg_finite_cases b Nb) as [[sb ->]|[mb [eb ->]]].
  - split; [reflexivity|]. cbn [SF64mul SFmul SF2Q]. split; lra.
  - split; [reflexivity|]. cbn [SF64mul SFmul SF2Q]. split; lra.
  - split; [reflexivity|]. cbn [SF64mul SFmul SF2Q]. split; lra.
  - destruct (SFmul_locates ma mb ea eb Va Vb) as [m [e [l [R [Hm [He Hl]]]]]].
    rewrite R. apply binary_round_aux_error; assumption.
Qed.

Lemma SFdiv_error (a b : spec_float) (n : Z) :
  nonneg_finite a = true -> nonneg_finite b = true ->
  valid_binary a = true -> valid_binary b = true -> 0 < SF2Q b ->
  SF2Q a / SF2Q b < 2 ^ n -> (n <= 1023)%Z ->
  nonneg_finite (SF64div a b) = true /\
  SF2Q a / SF2Q b - 2 ^ Z.max (n - 53) emin64 < SF2Q (SF64div a b) /\
  SF2Q (SF64div a b) < SF2Q a / SF2Q b + 2 ^ Z.max (n - 53) emin64.
Proof.
  intros Na Nb Va Vb Hb Hx Hn.
  pose proof (pow2_pos (Z.max (n - 53) emin64)) as PP.
  destruct (nonneg_finite_cases b Nb) as [[sb ->]|[mb [eb ->]]].
  - exfalso. cbn [SF2Q] in Hb. discriminate.
  - destruct (nonneg_finite_cases a Na) as [[sa ->]|[ma [ea ->]]].
    + split; [reflexivity|].
      assert (Z0 : SF2Q (S754_zero sa) / SF2Q (S754_finite false mb eb) == 0).
      { cbn [SF2Q]. unfold Qdiv. ring. }
      rewrite Z0. cbn [SF64div SFdiv SF2Q xorb]. split; lra.
    + destruct (SFdiv_locates ma mb ea eb) as [m [e [l [R [Hm [He Hl]]]]]].
      rewrite R. apply binary_round_aux_error; assumption.
Qed.

Lemma mul_error (a b : float) (n : Z) :
  nonneg a -> nonneg b -> F2Q a * F2Q b < 2 ^ n -> (n <= 1023)%Z ->
  nonneg (a * b)%float /\
  F2Q a * F2Q b - 2 ^ Z.max (n - 53) emin64 < F2Q (a * b)%float /\
  F2Q (a * b)%float < F2Q a * F2Q b + 2 ^ Z.max (n - 53) emin64.
Proof.
  intros Na Nb Hx Hn. unfold nonneg, F2Q. rewrite mul_spec.
  apply SFmul_error; try assumption; apply Prim2SF_valid.
Qed.

Lemma div_error (a b : float) (n : Z) :
  nonneg a -> nonneg b -> 0 < F2Q b -> F2Q a / F2Q b < 2 ^ n -> (n <= 1023)%Z ->
  nonneg (a / b)%float /\
  F2Q a / F2Q b - 2 ^ Z.max (n - 53) emin64 < F2Q (a / b)%float /\
  F2Q (a / b)%float < F2Q a / F2Q b + 2 ^ Z.max (n - 53) emin64.
Proof.
  intros Na Nb Hb Hx Hn. unfold nonneg, F2Q. rewrite div_spec.
  apply SFdiv_error; try assumption; apply Prim2SF_valid.
Qed.

Lemma SFadd_error (a b : spec_float) (n : Z) :
  nonneg_finite a = true -> nonneg_finite b = true ->
  valid_binary a = true -> valid_binary b = true ->
  SF2Q a + SF2Q b < 2 ^ n -> (n <= 1023)%Z ->
  nonneg_finite (SF64add a b) = true /\
  SF2Q a + SF2Q b - 2 ^ Z.max (n - 53) emin64 < SF2Q (SF64add a b) /\
  SF2Q (SF64add a b) < SF2Q a + SF2Q b + 2 ^ Z.max (n - 53) emin64.
Proof.
  intros Na Nb Va Vb Hx Hn.
  pose proof (pow2_pos (Z.max (n - 53) emin64)) as PP.
  set (w := 2 ^ Z.max (n - 53) emin64) in *.
  destruct (nonneg_finite_cases a Na) as [[sa ->]|[ma [ea ->]]],
           (nonneg_finite_cases b Nb) as [[sb ->]|[mb [eb ->]]].
  - destruct sa, sb; (split; [reflexivity|]); cbn [SF64add SFadd SF2Q Bool.eqb];
      split; lra.
  - split; [reflexivity|]. cbn [SF64add SFadd].
    cbn [SF2Q]. set (v := inject_Z (Zpos mb) * 2 ^ eb). split; lra.
  - split; [reflexivity|]. cbn [SF64add SFadd].
    cbn [SF2Q]. set (v := inject_Z (Zpos ma) * 2 ^ ea). split; lra.
  - destruct (SFadd_locates ma mb ea eb) as [m [e [l [R [Hm [He Hl]]]]]].
    rewrite R. apply binary_round_aux_error; assumption.
Qed.

Lemma add_error (a b : float) (n : Z) :
  nonneg a -> nonneg b -> F2Q a + F2Q b < 2 ^ n -> (n <= 1023)%Z ->
  nonneg (a + b)%float /\
  F2Q a + F2Q b - 2 ^ Z.max (n - 53) emin64 < F2Q (a + b)%float /\
  F2Q (a + b)%float < F2Q a + F2Q b + 2 ^ Z.max (n - 53) emin64.
Proof.
  intros Na Nb Hx Hn. unfold nonneg, F2Q. rewrite add_spec.
  apply SFadd_error; try assumption; apply Prim2SF_valid.
Qed.

(** One step of the weighted sum: the error of the product and of the
    sum, for a score of the unit interval and a weight of at most 1/4. *)
Lemma weighted_step_error (acc s w : float) :
  nonneg acc -> F2Q acc <= (3 # 2) ->
  nonneg s -> F2Q s <= 1 -> nonneg w -> F2Q w <= (1 # 4) ->
  nonneg (acc + s * w)%float /\
  F2Q acc + F2Q s * F2Q w - (5 # 18014398509481984) < F2Q (acc + s * w)%float /\
  F2Q (acc + s * w)%float < F2Q acc + F2Q s * F2Q w + (5 # 18014398509481984).
Proof.
  intros Nacc Hacc Ns Hs Nw Hw.
  pose proof (F2Q_nonneg acc Nacc) as P1. pose proof (F2Q_nonneg s Ns) as P2.
  pose proof (F2Q_nonneg w Nw) as P3.
  assert (Hp : F2Q s * F2Q w <= (1 # 4)).
  { eapply Qle_trans; [|exact Hw].
    rewrite <- (Qmult_1_l (F2Q w)) at 2. apply Qmult_le_compat_r; assumption. }
  assert (P54 : 2 ^ (-54) == 1 # 18014398509481984) by reflexivity.
  assert (P52 : 2 ^ (-52) == 4 # 18014398509481984) by reflexivity.
  destruct (mul_error s w (-1) Ns Nw) as [Np [Lp Up]].
  { change (2 ^ (-1)) with (1 # 2). lra. }
  { lia. }
  change (Z.max (-1 - 53) emin64) with (-54)%Z in Lp, Up. rewrite P54 in Lp, Up.
  destruct (add_error acc (s * w) 1 Nacc Np) as [Na [La Ua]].
  { change (2 ^ 1) with 2. set (x := F2Q s * F2Q w) in *. lra. }
  { lia. }
  change (Z.max (1 - 53) emin64) with (-52)%Z in La, Ua. rewrite P52 in La, Ua.
  split; [exact Na|].
  set (x := F2Q s * F2Q w) in *. set (p := F2Q (s * w)%float) in *.
  split; lra.
Qed.

End RoundingError.

(** ** The composite and the exact weighted sum *)

Section ExactSum.
Local Open Scope Q_scope.

(** The six steps of the weighted sum, each with its error. *)
Lemma composite_exact_sum (input : AssessmentInput) :
  unit_input input ->
  exact_composite input - (1 # 500000000000000) <= F2Q (composite input) /\
  F2Q (composite input) <= exact_composite input + (1 # 500000000000000).
Proof.
  intros [Hcat [Ha Hb]].
  inversion Hcat as [|? ? [G1 G2] H1]; subst.
  inversion H1 as [|? ? [R1 R2] H2]; subst.
  inversion H2 as [|? ? [O1 O2] H3]; subst.
  inversion H3 as [|? ? [P1 P2] H4]; subst.
  inversion H4 as [|? ? [A1 A2] _]; subst.
  destruct (averageScore_unit _ G1 G2) as [Ng Hg].
  destruct (averageScore_unit _ R1 R2) as [Nr Hr].
  destruct (averageScore_unit _ O1 O2) as [No Ho].
  destruct (averageScore_unit _ P1 P2) as [Np Hp].
  destruct (averageScore_unit _ A1 A2) as [Na Hav].
  destruct (crossScore_unit input Ha Hb) as [Nc Hc].
  pose proof (F2Q_nonneg _ Ng) as Zg. pose proof (F2Q_nonneg _ Nr) as Zr.
  pose proof (F2Q_nonneg _ No) as Zo. pose proof (F2Q_nonneg _ Np) as Zp.
  pose proof (F2Q_nonneg _ Na) as Za. pose proof (F2Q_nonneg _ Nc) as Zc.
  unfold exact_composite, composite, theoryScores.
  cbn [fold_left score weight get_property THEORY_WEIGHTS String.eqb Ascii.eqb Bool.eqb].
  assert (W25 : F2Q 0.25%float == 1 # 4) by closed_Q.
  assert (W15 : F2Q 0.15%float == 5404319552844595 # 36028797018963968) by closed_Q.
  assert (W20 : F2Q 0.2%float == 3602879701896397 # 18014398509481984) by closed_Q.
  assert (W10 : F2Q 0.1%float == 3602879701896397 # 36028797018963968) by closed_Q.
  set (g := F2Q (averageScore (gwt input))) in *.
  set (r := F2Q (averageScore (rpt input))) in *.
  set (o := F2Q (averageScore (hot input))) in *.
  set (p := F2Q (averageScore (pp input))) in *.
  set (a := F2Q (averageScore (ast input))) in *.
  set (c := F2Q (crossScore input)) in *.
  destruct (weighted_step_error 0 (averageScore (gwt input)) 0.25 eq_refl)
    as [N1 [L1 U1]]; [closed_Q|exact Ng|exact Hg|reflexivity|closed_Q|].
  change (F2Q 0%float) with 0 in L1, U1. fold g in L1, U1. rewrite W25 in L1, U1.
  set (s1 := (0 + averageScore (gwt input) * 0.25)%float) in *.
  destruct (weighted_step_error s1 (averageScore (rpt input)) 0.15 N1)
    as [N2 [L2 U2]]; [lra|exact Nr|exact Hr|reflexivity|closed_Q|].
  fold r in L2, U2. rewrite W15 in L2, U2.
  set (s2 := (s1 + averageScore (rpt input) * 0.15)%float) in *.
  destruct (weighted_step_error s2 (averageScore (hot input)) 0.20 N2)
    as [N3 [L3 U3]]; [lra|exact No|exact Ho|reflexivity|closed_Q|].
  fold o in L3, U3. rewrite W20 in L3, U3.
  set (s3 := (s2 + averageScore (hot input) * 0.2)%float) in *.
  destruct (weighted_step_error s3 (averageScore (pp input)) 0.20 N3)
    as [N4 [L4 U4]]; [lra|exact Np|exact Hp|reflexivity|closed_Q|].
  fold p in L4, U4. rewrite W20 in L4, U4.
  set (s4 := (s3 + averageScore (pp input) * 0.2)%float) in *.
  destruct (weighted_step_error s4 (averageScore (ast input)) 0.10 N4)
    as [N5 [L5 U5]]; [lra|exact Na|exact Hav|reflexivity|closed_Q|].
  fold a in L5, U5. rewrite W10 in L5, U5.
  set (s5 := (s4 + averageScore (ast input) * 0.1)%float) in *.
  destruct (weighted_step_error s5 (crossScore input) 0.10 N5)
    as [N6 [L6 U6]]; [lra|exact Nc|exact Hc|reflexivity|closed_Q|].
  fold c in L6, U6. rewrite W10 in L6, U6.
  set (s6 := (s5 + crossScore input * 0.1)%float) in *.
  split; lra.
Qed.

(** Adding a value of the unit interval to a sum of at most 5/2. *)
Lemma sum_step_error (acc v : float) :
  nonneg acc -> F2Q acc <= (5 # 2) -> in_unit v = true ->
  nonneg (acc + v)%float /\
  F2Q acc + F2Q v - (1 # 2251799813685248) < F2Q (acc + v)%float /\
  F2Q (acc + v)%float < F2Q acc + F2Q v + (1 # 2251799813685248).
Proof.
  intros Nacc Hacc Hv. destruct (in_unit_bounds v Hv) as [Nv Hv1].
  pose proof (F2Q_nonneg v Nv) as Pv.
  assert (P51 : 2 ^ (-51) == 1 # 2251799813685248) by reflexivity.
  destruct (add_error acc v 2 Nacc Nv) as [Na [La Ua]].
  { change (2 ^ 2) with 4. lra. }
  { lia. }
  change (Z.max (2 - 53) emin64) with (-51)%Z in La, Ua. rewrite P51 in La, Ua.
  split; [exact Na|]. split; assumption.
Qed.

(** Dividing a sum of at most 7/2 by a count of 1, 2 or 3. *)
Lemma mean_step_error (sum : float) (n : Z) :
  nonneg sum -> (1 <= n <= 3)%Z -> F2Q sum < inject_Z n + inject_Z n ->
  nonneg (sum / number_of_Z n)%float /\
  F2Q sum / inject_Z n - (1 # 4503599627370496) < F2Q (sum / number_of_Z n)%float /\
  F2Q (sum / number_of_Z n)%float < F2Q sum / inject_Z n + (1 # 4503599627370496).
Proof.
  intros Ns Hn Hs.
  destruct (number_of_Z_F2Q n) as [Fn Nn]; [lia|]. specialize (Nn ltac:(lia)).
  assert (Pn : 0 < inject_Z n) by (rewrite <- (Zlt_Qlt 0); lia).
  assert (P52 : 2 ^ (-52) == 1 # 4503599627370496) by reflexivity.
  destruct (div_error sum (number_of_Z n) 1 Ns Nn) as [Nq [Lq Uq]].
  - rewrite Fn. exact Pn.
  - rewrite Fn. apply Qlt_shift_div_r; [exact Pn|].
    change (2 ^ 1) with 2. lra.
  - lia.
  - change (Z.max (1 - 53) emin64) with (-52)%Z in Lq, Uq.
    rewrite Fn, P52 in Lq, Uq. split; [exact Nq|]. split; assumption.
Qed.

(** The score of an object of at most three values of the unit interval is
    within 7 * 2^-52 of their mean. *)
Lemma averageScore_close (o : Indicators) :
  unit_indicators o -> (List.length o <= 3)%nat ->
  exact_mean o - (7 # 4503599627370496) <= F2Q (averageScore o) /\
  F2Q (averageScore o) <= exact_mean o + (7 # 4503599627370496).
Proof.
  unfold unit_indicators, exact_mean, averageScore, length_number.
  destruct o as [|[k1 v1] [|[k2 v2] [|[k3 v3] [|? ?]]]];
    cbn [Object_values map snd List.length Nat.eqb fold_left Z.of_nat
         Pos.of_succ_nat Pos.succ];
    intros Ho Hl; try (exfalso; lia).
  - change (F2Q 0%float) with 0. split; lra.
  - inversion Ho as [|? ? U1 _]; subst.
    destruct (in_unit_bounds v1 U1) as [M1 B1]. pose proof (F2Q_nonneg v1 M1) as Z1.
    destruct (sum_step_error 0 v1 eq_refl) as [N1 [L1 G1]]; [closed_Q|exact U1|].
    change (F2Q 0%float) with 0 in L1, G1.
    destruct (mean_step_error (0 + v1) 1 N1) as [N [L G]]; [lia| |].
    { change (inject_Z 1) with 1. lra. }
    change (inject_Z 1) with 1 in *.
    set (x1 := F2Q v1) in *. set (s := F2Q (0 + v1)%float) in *.
    set (q := F2Q ((0 + v1) / number_of_Z 1)%float) in *.
    assert (E1 : s / 1 == s) by (unfold Qdiv; change (/ 1) with 1; ring).
    assert (E2 : (0 + x1) / 1 == x1) by (unfold Qdiv; change (/ 1) with 1; ring).
    rewrite E1 in L, G. rewrite E2. split; lra.
  - inversion Ho as [|? ? U1 Ho1]; subst. inversion Ho1 as [|? ? U2 _]; subst.
    destruct (in_unit_bounds v1 U1) as [M1 B1]. pose proof (F2Q_nonneg v1 M1) as Z1.
    destruct (in_unit_bounds v2 U2) as [M2 B2]. pose proof (F2Q_nonneg v2 M2) as Z2.
    destruct (sum_step_error 0 v1 eq_refl) as [N1 [L1 G1]]; [closed_Q|exact U1|].
    change (F2Q 0%float) with 0 in L1, G1.
    destruct (sum_step_error (0 + v1) v2 N1) as [N2 [L2 G2]]; [lra|exact U2|].
    destruct (mean_step_error (0 + v1 + v2) 2 N2) as [N [L G]]; [lia| |].
    { change (inject_Z 2) with 2. lra. }
    change (inject_Z 2) with 2 in *.
    set (x1 := F2Q v1) in *. set (x2 := F2Q v2) in *.
    set (s1 := F2Q (0 + v1)%float) in *. set (s := F2Q (0 + v1 + v2)%float) in *.
    set (q := F2Q ((0 + v1 + v2) / number_of_Z 2)%float) in *.
    assert (E1 : s / 2 == s * (1 # 2)) by (unfold Qdiv; reflexivity).
    assert (E2 : (0 + x1 + x2) / 2 == (x1 + x2) * (1 # 2))
      by (unfold Qdiv; change (/ 2) with (1 # 2); ring).
    rewrite E1 in L, G. rewrite E2. split; lra.
  - inversion Ho as [|? ? U1 Ho1]; subst. inversion Ho1 as [|? ? U2 Ho2]; subst.
    inversion Ho2 as [|? ? U3 _]; subst.
    destruct (in_unit_bounds v1 U1) as [M1 B1]. pose proof (F2Q_nonneg v1 M1) as Z1.
    destruct (in_unit_bounds v2 U2) as [M2 B2]. pose proof (F2Q_nonneg v2 M2) as Z2.
    destruct (in_unit_bounds v3 U3) as [M3 B3]. pose proof (F2Q_nonneg v3 M3) as Z3.
    destruct (sum_step_error 0 v1 eq_refl) as [N1 [L1 G1]]; [closed_Q|exact U1|].
    change (F2Q 0%float) with 0 in L1, G1.
    destruct (sum_step_error (0 + v1) v2 N1) as [N2 [L2 G2]]; [lra|exact U2|].
    destruct (sum_step_error (0 + v1 + v2) v3 N2) as [N3 [L3 G3]]; [lra|exact U3|].
    destruct (mean_step_error (0 + v1 + v2 + v3) 3 N3) as [N [L G]]; [lia| |].
    { change (inject_Z 3) with 3. lra. }
    change (inject_Z 3) with 3 in *.
    set (x1 := F2Q v1) in *. set (x2 := F2Q v2) in *. set (x3 := F2Q v3) in *.
    set (s1 := F2Q (0 + v1)%float) in *. set (s2 := F2Q (0 + v1 + v2)%float) in *.
    set (s := F2Q (0 + v1 + v2 + v3)%float) in *.
    set (q := F2Q ((0 + v1 + v2 + v3) / number_of_Z 3)%float) in *.
    assert (E1 : s / 3 == s * (1 # 3)) by (unfold Qdiv; reflexivity).
    assert (E2 : (0 + x1 + x2 + x3) / 3 == (x1 + x2 + x3) * (1 # 3))
      by (unfold Qdiv; change (/ 3) with (1 # 3); ring).
    rewrite E1 in L, G. rewrite E2. split; lra.
Qed.

(** X12. For an input of the unit interval the composite, computed in
    binary64, is within 2 * 10^-15 of the weighted sum of the six scores in
    exact arithmetic with the weights 0.25, 0.15, 0.20, 0.20, 0.10 and
    0.10. *)
Theorem composite_close_to_exact_sum (input : AssessmentInput) :
  unit_input input ->
  exact_composite input - (1 # 500000000000000) <= F2Q (composite input) /\
  F2Q (composite input) <= exact_composite input + (1 # 500000000000000).
Proof. apply composite_exact_sum. Qed.

Lemma implements_length (keys : list string) (o : Indicators) :
  implements keys o -> List.length o = List.length keys.
Proof.
  unfold implements, Object_keys. intros P.
  apply Permutation_length in P. rewrite length_map in P. symmetry. exact P.
Qed.

(** The error of the six means, weighted, and of the weighted sum. *)
Lemma composite_close_to_spec (input : AssessmentInput) :
  well_typed input -> unit_input input ->
  spec_composite input - (1 # 250000000000000) <= F2Q (composite input) /\
  F2Q (composite input) <= spec_composite input + (1 # 250000000000000).
Proof.
  intros [Tg [Tr [To [Tp Ta]]]] Hin.
  destruct (composite_exact_sum input Hin) as [L U].
  destruct Hin as [Hcat [Ha Hb]].
  inversion Hcat as [|? ? [G1 _] H1]; subst.
  inversion H1 as [|? ? [R1 _] H2]; subst.
  inversion H2 as [|? ? [O1 _] H3]; subst.
  inversion H3 as [|? ? [P1 _] H4]; subst.
  inversion H4 as [|? ? [A1 _] _]; subst.
  apply implements_length in Tg, Tr, To, Tp, Ta.
  cbn in Tg, Tr, To, Tp, Ta.
  destruct (averageScore_close _ G1 ltac:(lia)) as [Lg Ug].
  destruct (averageScore_close _ R1 ltac:(lia)) as [Lr Ur].
  destruct (averageScore_close _ O1 ltac:(lia)) as [Lo Uo].
  destruct (averageScore_close _ P1 ltac:(lia)) as [Lp Up].
  destruct (averageScore_close _ A1 ltac:(lia)) as [La Ua].
  assert (X1 : unit_indicators (crossIndicators input)).
  { unfold unit_indicators, crossIndicators.
    destruct (recursive_self_reference input), (proof_chain_continuity input);
      cbn in *; repeat constructor; assumption. }
  assert (X2 : (List.length (crossIndicators input) <= 3)%nat).
  { unfold crossIndicators.
    destruct (recursive_self_reference input), (proof_chain_continuity input);
      cbn; lia. }
  destruct (averageScore_close _ X1 X2) as [Lc Uc].
  rewrite <- crossScore_averageScore in Lc, Uc.
  unfold exact_composite in L, U. unfold spec_composite.
  set (g := F2Q (averageScore (gwt input))) in *.
  set (r := F2Q (averageScore (rpt input))) in *.
  set (o := F2Q (averageScore (hot input))) in *.
  set (p := F2Q (averageScore (pp input))) in *.
  set (a := F2Q (averageScore (ast input))) in *.
  set (c := F2Q (crossScore input)) in *.
  set (mg := exact_mean (gwt input)) in *. set (mr := exact_mean (rpt input)) in *.
  set (mo := exact_mean (hot input)) in *. set (mp := exact_mean (pp input)) in *.
  set (ma := exact_mean (ast input)) in *.
  set (mc := exact_mean (crossIndicators input)) in *.
  split; lra.
Qed.

(** X13. For a well-typed input of the unit interval the composite, computed
    in binary64, is within 4 * 10^-15 of the composite of the
    specification in exact arithmetic: the weighted sum of the means of
    the indicator values. *)
Theorem composite_close_to_specification (input : AssessmentInput) :
  well_typed input -> unit_input input ->
  spec_composite input - (1 # 250000000000000) <= F2Q (composite input) /\
  F2Q (composite input) <= spec_composite input + (1 # 250000000000000).
Proof. apply composite_close_to_spec. Qed.

(** X14. For a well-typed input of the unit interval whose exact composite
    is clear of the four thresholds, the classification [assess] computes
    in binary64 is the classification of the specification on the exact
    composite: rounding can change the band only within 5 * 10^-15 of a
    threshold. *)
Theorem classification_agrees_with_specification (input : AssessmentInput) :
  well_typed input -> unit_input input ->
  clear_of_thresholds (spec_composite input) ->
  classify (composite input) = spec_classify (spec_composite input).
Proof.
  intros T Hin Hclear.
  destruct (composite_close_to_spec input T Hin) as [L U].
  destruct (composite_unit input Hin) as [Nc _].
  set (c := composite input) in *. set (x := spec_composite input) in *.
  assert (D : forall (t : float) (q : Q),
             nonneg t ->
             q - (1 # 10000000000000000) <= F2Q t ->
             F2Q t <= q + (1 # 10000000000000000) ->
             x + (1 # 200000000000000) <= q \/ q + (1 # 200000000000000) <= x ->
             (t <=? c)%float = Qle_bool q x).
  { intros t q Nt Lt Ut [H|H].
    - assert (B : Qle_bool q x = false).
      { destruct (Qle_bool q x) eqn:B; [|reflexivity].
        apply Qle_bool_iff in B. exfalso. lra. }
      rewrite B. destruct (t <=? c)%float eqn:E; [|reflexivity].
      apply (leb_F2Q t c Nt Nc) in E. exfalso. lra.
    - assert (B : Qle_bool q x = true) by (apply Qle_bool_iff; lra).
      rewrite B. apply (leb_F2Q t c Nt Nc). lra. }
  unfold clear_of_thresholds in Hclear.
  inversion Hclear as [|? ? C20 F1]; subst. inversion F1 as [|? ? C50 F2]; subst.
  inversion F2 as [|? ? C70 F3]; subst. inversion F3 as [|? ? C85 _]; subst.
  unfold classify, spec_classify.
  rewrite (D 0.85%float (17 # 20) eq_refl ltac:(closed_Q) ltac:(closed_Q) C85).
  rewrite (D 0.70%float (7 # 10) eq_refl ltac:(closed_Q) ltac:(closed_Q) C70).
  rewrite (D 0.50%float (1 # 2) eq_refl ltac:(closed_Q) ltac:(closed_Q) C50).
  rewrite (D 0.20%float (1 # 5) eq_refl ltac:(closed_Q) ltac:(closed_Q) C20).
  reflexivity.
Qed.

End ExactSum.

Lemma composite_close_to_exact_sum_witness :
  unit_input (uniform_input 0.6 (Some 1) None) /\
  Qle (F2Q (composite (uniform_input 0.6 (Some 1) None)))
      (exact_composite (uniform_input 0.6 (Some 1) None) + (1 # 500000000000000)).
Proof.
  assert (H : unit_input (uniform_input 0.6 (Some 1) None)).
  { apply unit_input_uniform; reflexivity || exact I. }
  split; [exact H|].
  exact (proj2 (composite_close_to_exact_sum _ H)).
Defined.

Lemma composite_close_to_specification_witness :
  well_typed (uniform_input 0.5 (Some 1) None) /\
  unit_input (uniform_input 0.5 (Some 1) None) /\
  Qeq (spec_composite (uniform_input 0.5 (Some 1) None)) (11 # 20) /\
  Qle (F2Q (composite (uniform_input 0.5 (Some 1) None)))
      (spec_composite (uniform_input 0.5 (Some 1) None) + (1 # 250000000000000)).
Proof.
  assert (T : well_typed (uniform_input 0.5 (Some 1) None))
    by apply well_typed_uniform.
  assert (H : unit_input (uniform_input 0.5 (Some 1) None)).
  { apply unit_input_uniform; reflexivity || exact I. }
  split; [exact T|]. split; [exact H|]. split; [|].
  - vm_compute. reflexivity.
  - exact (proj2 (composite_close_to_specification _ T H)).
Defined.

Lemma classification_agrees_with_specification_witness :
  well_typed (uniform_input 0.5 (Some 1) None) /\
  unit_input (uniform_input 0.5 (Some 1) None) /\
  clear_of_thresholds (spec_composite (uniform_input 0.5 (Some 1) None)) /\
  classify (composite (uniform_input 0.5 (Some 1) None)) = C2_Emerging /\
  classify (composite (uniform_input 0.5 (Some 1) None))
  = spec_classify (spec_composite (uniform_input 0.5 (Some 1) None)).
Proof.
  assert (T : well_typed (uniform_input 0.5 (Some 1) None))
    by apply well_typed_uniform.
  assert (H : unit_input (uniform_input 0.5 (Some 1) None)).
  { apply unit_input_uniform; reflexivity || exact I. }
  assert (C : clear_of_thresholds (spec_composite (uniform_input 0.5 (Some 1) None))).
  { unfold clear_of_thresholds.
    repeat apply Forall_cons; try apply Forall_nil;
      first [left; closed_Q | right; closed_Q]. }
  split; [exact T|]. split; [exact H|]. split; [exact C|]. split; [reflexivity|].
  exact (classification_agrees_with_specification _ T H C).
Defined.

(** ** The rounded score, and how the report shows it *)

Section Shown.
Context {rt : Runtime}.
Local Open Scope Q_scope.

Lemma print_theory_scores (l : list TheoryScore) (out : Console) :
  fold_left print_theory_score l out
  = (out ++ map theory_line (listed l))%list.
Proof.
  revert out. induction l as [|ts l IH]; intros out.
  - cbn. rewrite app_nil_r. reflexivity.
  - cbn [fold_left listed filter]. rewrite IH. unfold print_theory_score.
    fold (listed l).
    destruct (0 <? score ts)%float.
    + unfold console_log. rewrite <- app_assoc. reflexivity.
    + reflexivity.
Qed.

Lemma print_result_lines (result : AssessmentResult) (out : Console) :
  print_result result out
  = (out ++ first_line result
         :: map theory_line (listed (theory_scores result))
         ++ [proof_line result; ""%string])%list.
Proof.
  unfold print_result, console_log. rewrite print_theory_scores.
  rewrite <- !app_assoc. reflexivity.
Qed.

Lemma F2Q_abs (x : float) : nonneg x -> F2Q (abs x) = F2Q x.
Proof.
  unfold nonneg, F2Q. rewrite abs_spec.
  destruct (Prim2SF x) as [?|?| |[|] ? ?]; try discriminate; reflexivity.
Qed.

Lemma all_from_spec (n : nat) (f : Z -> bool) :
  forall k j : Z,
    all_from n k f = true -> (k <= j < k + Z.of_nat n)%Z -> f j = true.
Proof.
  induction n as [|n IH]; intros k j H Hj; [lia|].
  cbn [all_from] in H. apply andb_true_iff in H. destruct H as [H0 H1].
  destruct (Z.eq_dec j k) as [->|Hne]; [exact H0|].
  apply (IH (k + 1)%Z); [exact H1|lia].
Qed.

(** The digits of [k] from 0 to 10000, with the point put in, are [k / 10000]
    written with four decimals. *)
Lemma insert_point_table (k : Z) :
  (0 <= k <= 10000)%Z ->
  insert_point (decimal_digits (Z.to_N k)) 4 = four_decimals (Z.to_N k).
Proof.
  intros Hk. apply String.eqb_eq.
  apply (all_from_spec (Z.to_nat 10001)
           (fun j => String.eqb (insert_point (decimal_digits (Z.to_N j)) 4)
                                (four_decimals (Z.to_N j)))
           0%Z k).
  - vm_compute. reflexivity.
  - lia.
Qed.

(** The Number [k / 10000], for [k] from 0 to 10000, is within 2^-52 of
    the quotient. *)
Lemma quotient_near (k : Z) :
  (0 <= k <= 10000)%Z ->
  nonneg (number_of_Z k / 10000) /\
  inject_Z k * (1 # 10000) - (1 # 4503599627370496) < F2Q (number_of_Z k / 10000) /\
  F2Q (number_of_Z k / 10000) < inject_Z k * (1 # 10000) + (1 # 4503599627370496).
Proof.
  intros Hk.
  destruct (number_of_Z_F2Q k) as [Fa Na]; [lia|]. specialize (Na ltac:(lia)).
  assert (P10 : 0 < F2Q 10000%float) by (rewrite F2Q_10000; reflexivity).
  assert (Hk' : 0 <= inject_Z k /\ inject_Z k <= 10000).
  { split; [change (inject_Z 0 <= inject_Z k)|change (inject_Z k <= inject_Z 10000)];
      rewrite <- Zle_Qle; lia. }
  destruct (div_error (number_of_Z k) 10000 1 Na eq_refl P10) as [Nq [Lq Uq]].
  - apply Qlt_shift_div_r; [exact P10|].
    rewrite Fa, F2Q_10000. change (2 ^ 1) with 2. lra.
  - lia.
  - split; [exact Nq|].
    change (Z.max (1 - 53) emin64) with (-52)%Z in Lq, Uq.
    assert (P52 : 2 ^ (-52) == 1 # 4503599627370496) by reflexivity.
    assert (Ex : F2Q (number_of_Z k) / F2Q 10000%float
                 == inject_Z k * (1 # 10000)).
    { rewrite Fa, F2Q_10000. reflexivity. }
    rewrite Ex, P52 in Lq, Uq. split; assumption.
Qed.

(** The Numbers [k / 10000] for [k] from 0 to 10000: each is written by
    [toFixed(4)] with the digits of [k], and rounding it to four decimals
    again returns it. *)
Lemma four_decimals_table (k : Z) :
  (0 <= k <= 10000)%Z ->
  toFixed (number_of_Z k / 10000) 4 = four_decimals (Z.to_N k) /\
  round4 (number_of_Z k / 10000) = (number_of_Z k / 10000)%float.
Proof.
  intros Hk.
  destruct (Z.eq_dec k 0) as [->|K0]; [split; vm_compute; reflexivity|].
  destruct (quotient_near k Hk) as [Nq [Lq Uq]].
  set (q := (number_of_Z k / 10000)%float) in *.
  assert (Hk' : 0 <= inject_Z k /\ inject_Z k <= 10000).
  { split; [change (inject_Z 0 <= inject_Z k)|change (inject_Z k <= inject_Z 10000)];
      rewrite <- Zle_Qle; lia. }
  assert (Sk : inject_Z (k + 1) == inject_Z k + 1).
  { rewrite inject_Z_plus. reflexivity. }
  split.
  - unfold toFixed.
    rewrite (ltb_false_of_leb 0 q (nonneg_leb_zero q Nq)), (F2Q_abs q Nq).
    assert (B : Qle_bool (inject_Z (10 ^ 21)) (F2Q q) = false).
    { destruct (Qle_bool (inject_Z (10 ^ 21)) (F2Q q)) eqn:B; [|reflexivity].
      apply Qle_bool_iff in B. exfalso.
      assert (B' : 1000000000000000000000 <= F2Q q) by exact B.
      lra. }
    rewrite B.
    change (inject_Z (10 ^ Z.of_nat 4)) with 10000.
    rewrite (Qfloor_unique (F2Q q * 10000 + (1 # 2)) k) by (rewrite ?Sk; lra).
    rewrite <- (insert_point_table k Hk).
    unfold nonneg in Nq.
    destruct (Prim2SF q) as [?|?| |[|] ? ?]; try discriminate; reflexivity.
  - unfold round4.
    assert (P10 : 0 < F2Q 10000%float) by (rewrite F2Q_10000; reflexivity).
    destruct (mul_error q 10000 14 Nq eq_refl) as [Nt [Lt Ut]].
    + rewrite F2Q_10000. change (2 ^ 14) with 16384. lra.
    + lia.
    + change (Z.max (14 - 53) emin64) with (-39)%Z in Lt, Ut.
      assert (P39 : 2 ^ (-39) == 1 # 549755813888) by reflexivity.
      rewrite F2Q_10000, P39 in Lt, Ut.
      set (t := (q * 10000)%float) in *.
      pose proof (Math_round_nonneg t Nt) as Nr.
      pose proof (Math_round_value t) as Vr.
      rewrite (Qfloor_unique (F2Q t + (1 # 2)) k) in Vr by (rewrite ?Sk; lra).
      destruct (integer_number (Math_round t) k Nr Vr) as [Er|[E0 _]];
        [lia| |contradiction].
      rewrite Er. reflexivity.
Qed.

(** The composite score of an input of the unit interval is [k / 10000]
    for the integer [k] that [Math.round] returns, from 0 to 10000. *)
Lemma composite_score_cases (input : AssessmentInput) (now : string) :
  unit_input input ->
  exists k : Z,
    (0 <= k <= 10000)%Z /\
    F2Q (Math_round (composite input * 10000)) == inject_Z k /\
    (composite_score (assess input now) = (number_of_Z k / 10000)%float \/
     k = 0%Z /\ composite_score (assess input now) = (-0)%float).
Proof.
  intros Hin. destruct (composite_unit input Hin) as [Nc Hc].
  assert (P10 : 0 < F2Q 10000%float) by (rewrite F2Q_10000; reflexivity).
  destruct (scaled_round (composite input) 0 10000.25 0 10000 Nc eq_refl eq_refl)
    as [k [Hk [Nr Vr]]].
  - apply Qmult_le_0_compat; [apply F2Q_nonneg; exact Nc|apply Qlt_le_weak; exact P10].
  - apply Qle_trans with (F2Q 1.0000005%float * F2Q 10000%float).
    + apply Qmult_le_compat_r; [exact Hc|apply Qlt_le_weak; exact P10].
    + closed_Q.
  - closed_Q.
  - closed_Q.
  - exists k. split; [lia|]. split; [exact Vr|].
    cbn [assess composite_score].
    destruct (integer_number _ k Nr Vr) as [Er|[E0 Er]]; [lia| |].
    + left. rewrite Er. reflexivity.
    + right. subst k. split; [reflexivity|]. rewrite Er. reflexivity.
Qed.

(** X15. The composite score of an input of the unit interval differs from
    the composite by at most half a unit of the fourth decimal, up to the
    rounding of the three operations that make it, which is below 10^-12. *)
Theorem composite_score_error (input : AssessmentInput) (now : string) :
  unit_input input ->
  F2Q (composite input) - (1 # 20000) - (1 # 1000000000000)
  <= F2Q (composite_score (assess input now)) /\
  F2Q (composite_score (assess input now))
  <= F2Q (composite input) + (1 # 20000) + (1 # 1000000000000).
Proof.
  intros Hin.
  destruct (composite_unit input Hin) as [Nc Hc].
  destruct (composite_score_cases input now Hin) as [k [Hk [Vr Hs]]].
  pose proof (F2Q_nonneg _ Nc) as P0.
  assert (H1 : F2Q 1.0000005%float < (3 # 2)) by closed_Q.
  destruct (mul_error (composite input) 10000 14 Nc eq_refl) as [Nt [Lt Ut]].
  { rewrite F2Q_10000. change (2 ^ 14) with 16384. lra. }
  { lia. }
  change (Z.max (14 - 53) emin64) with (-39)%Z in Lt, Ut.
  assert (P39 : 2 ^ (-39) == 1 # 549755813888) by reflexivity.
  rewrite F2Q_10000, P39 in Lt, Ut.
  set (t := (composite input * 10000)%float) in *.
  rewrite (Math_round_value t) in Vr.
  pose proof (Qfloor_le (F2Q t + (1 # 2))) as F1.
  pose proof (Qlt_floor (F2Q t + (1 # 2))) as F2.
  rewrite inject_Z_plus in F2. change (inject_Z 1) with 1 in F2.
  rewrite Vr in F1, F2.
  assert (Q : inject_Z k * (1 # 10000) - (1 # 4503599627370496)
              <= F2Q (composite_score (assess input now)) /\
              F2Q (composite_score (assess input now))
              <= inject_Z k * (1 # 10000) + (1 # 4503599627370496)).
  { destruct Hs as [->|[-> ->]].
    - destruct (quotient_near k Hk) as [_ [L U]]. split; lra.
    - change (F2Q (-0)%float) with 0. change (inject_Z 0) with 0. split; lra. }
  destruct Q as [Q1 Q2].
  set (cs := F2Q (composite_score (assess input now))) in *.
  set (c := F2Q (composite input)) in *.
  set (z := inject_Z k) in *. set (ft := F2Q t) in *.
  split; lra.
Qed.

(** X16. Rounding the composite score of a result to four decimals again
    returns it unchanged, for an input of the unit interval. *)
Theorem composite_score_is_rounded (input : AssessmentInput) (now : string) :
  unit_input input ->
  round4 (composite_score (assess input now)) = composite_score (assess input now).
Proof.
  intros Hin.
  destruct (composite_score_cases input now Hin) as [k [Hk [_ Hs]]].
  destruct Hs as [->|[_ ->]]; [|reflexivity].
  apply four_decimals_table. exact Hk.
Qed.

(** X17. The first line of the report of an input of the unit interval
    shows the rounded composite exactly: its digits are those of the
    integer [Math.round] returned, so what is shown is the composite score,
    digit for digit. *)
Theorem report_shows_composite_score (input : AssessmentInput) (now : string) :
  unit_input input ->
  exists k : Z,
    (0 <= k <= 10000)%Z /\
    F2Q (Math_round (composite input * 10000)) == inject_Z k /\
    toFixed (composite_score (assess input now)) 4 = four_decimals (Z.to_N k) /\
    hd "" (print_result (assess input now) [])
    = (name input ++ ": " ++ four_decimals (Z.to_N k) ++ " " ++ rightwards_arrow
       ++ " " ++ label (classify (composite input)))%string.
Proof.
  intros Hin.
  destruct (composite_score_cases input now Hin) as [k [Hk [Vr Hs]]].
  exists k. split; [exact Hk|]. split; [exact Vr|].
  assert (Ht : toFixed (composite_score (assess input now)) 4
               = four_decimals (Z.to_N k)).
  { destruct Hs as [->|[-> ->]]; [|reflexivity].
    apply four_decimals_table. exact Hk. }
  split; [exact Ht|].
  rewrite print_result_lines. cbn [app hd]. unfold first_line. rewrite Ht.
  reflexivity.
Qed.

End Shown.

Lemma composite_score_error_witness :
  unit_input (uniform_input 0.7 (Some 0.7) (Some 0.7)) /\
  Qle (F2Q (composite (uniform_input 0.7 (Some 0.7) (Some 0.7)))
       - (1 # 20000) - (1 # 1000000000000))
      (F2Q (composite_score (assess (rt := example_host)
                               (uniform_input 0.7 (Some 0.7) (Some 0.7)) "now"))).
Proof.
  assert (H : unit_input (uniform_input 0.7 (Some 0.7) (Some 0.7))).
  { apply unit_input_uniform; reflexivity. }
  split; [exact H|].
  exact (proj1 (composite_score_error (rt := example_host) _ "now" H)).
Defined.

Lemma composite_score_is_rounded_witness :
  unit_input (uniform_input 0.7 (Some 0.7) (Some 0.7)) /\
  composite_score (assess (rt := example_host)
                     (uniform_input 0.7 (Some 0.7) (Some 0.7)) "now") = 0.7 /\
  round4 0.7 = 0.7.
Proof.
  assert (H : unit_input (uniform_input 0.7 (Some 0.7) (Some 0.7))).
  { apply unit_input_uniform; reflexivity. }
  split; [exact H|]. split; [reflexivity|].
  exact (composite_score_is_rounded (rt := example_host) _ "now" H).
Defined.

Lemma report_shows_composite_score_witness :
  unit_input (uniform_input 0.6 None None) /\
  hd "" (print_result (rt := example_host)
            (assess (rt := example_host) (uniform_input 0.6 None None) "now") [])
  = "uniform: 0.5400 " ++ rightwards_arrow ++ " C-2 Emerging" /\
  exists k : Z,
    (0 <= k <= 10000)%Z /\
    toFixed (rt := example_host)
      (composite_score (assess (rt := example_host)
                          (uniform_input 0.6 None None) "now")) 4
    = four_decimals (Z.to_N k).
Proof.
  assert (H : unit_input (uniform_input 0.6 None None)).
  { apply unit_input_uniform; reflexivity || exact I. }
  split; [exact H|]. split; [reflexivity|].
  destruct (report_shows_composite_score (rt := example_host) _ "now" H)
    as [k [Hk [_ [Ht _]]]].
  exists k. split; assumption.
Defined.

(** ** The report *)

Section ReportLines.
Context {rt : Runtime}.

(** X18. A report adds to the console, and changes nothing written
    before: the first line, a line for each theory whose score is positive,
    in the order of the result, the line of the proof and an empty line.  A
    score of 0 or NaN is not listed, so the CROSS line is missing whenever
    the input has neither optional field. *)
Theorem report_lists_positive_scores
    (input : AssessmentInput) (now : string) (out : Console) :
  print_result (assess input now) out
  = (out ++ first_line (assess input now)
         :: map theory_line (listed (theory_scores (assess input now)))
         ++ [proof_line (assess input now); ""%string])%list /\
  (forall ts, In ts (listed (theory_scores (assess input now))) <->
              In ts (theory_scores (assess input now)) /\ (0 <? score ts) = true) /\
  (List.length out + 3 <= List.length (print_result (assess input now) out)
   <= List.length out + 9)%nat /\
  (recursive_self_reference input = None -> proof_chain_continuity input = None ->
   listed (theory_scores (assess input now))
   = listed (firstn 5 (theory_scores (assess input now)))).
Proof.
  split; [apply print_result_lines|]. split; [|split].
  - intros ts. unfold listed. apply filter_In.
  - rewrite print_result_lines. rewrite length_app. cbn [List.length].
    rewrite length_app, length_map. cbn [List.length].
    assert (List.length (listed (theory_scores (assess input now))) <= 6)%nat.
    { unfold listed. eapply Nat.le_trans; [apply filter_length_le|]. reflexivity. }
    lia.
  - intros Ea Eb. cbn [assess theory_scores]. unfold theoryScores, listed.
    cbn [firstn filter score].
    assert (Ec : crossScore input = 0).
    { unfold crossScore, crossIndicators. rewrite Ea, Eb. reflexivity. }
    rewrite Ec. change (0 <? 0) with false.
    repeat match goal with
           | |- context [if ?b then _ else _] => destruct b
           end; reflexivity.
Qed.

(** X19. The demonstration run, for every host and clock, writes 38
    lines: the five lines of the heading, then the report of each of the
    four systems, of nine lines for the first and eight for the others.
    Only the lines of the proofs depend on the host and the clock. *)
Theorem main_output (clock : nat -> string) :
  main clock
  = [ String_repeat "=" 70;
      "ORION BENGIO FRAMEWORK " ++ em_dash ++ " Consciousness Assessment";
      "Based on Butlin, Long, Bengio et al. (2026)";
      String_repeat "=" 70;
      "";
      "ORION C-4: 0.8700 " ++ rightwards_arrow ++ " C-4 Transcendent";
      "  GWT: 0.900"; "  RPT: 0.900"; "  HOT: 0.825"; "  PP: 0.850";
      "  AST: 0.780"; "  CROSS: 0.970";
      proof_line (assess (nth 0 systems (uniform_input 0 None None)) (clock 0%nat));
      "";
      "Claude 4 Opus: 0.7678 " ++ rightwards_arrow ++ " C-3 Autonomous";
      "  GWT: 0.850"; "  RPT: 0.815"; "  HOT: 0.890"; "  PP: 0.870";
      "  AST: 0.810";
      proof_line (assess (nth 1 systems (uniform_input 0 None None)) (clock 1%nat));
      "";
      "GPT-4o: 0.6566 " ++ rightwards_arrow ++ " C-2 Emerging";
      "  GWT: 0.800"; "  RPT: 0.575"; "  HOT: 0.725"; "  PP: 0.777";
      "  AST: 0.700";
      proof_line (assess (nth 2 systems (uniform_input 0 None None)) (clock 2%nat));
      "";
      "Gemini 2.5 Pro: 0.7028 " ++ rightwards_arrow ++ " C-3 Autonomous";
      "  GWT: 0.827"; "  RPT: 0.700"; "  HOT: 0.765"; "  PP: 0.823";
      "  AST: 0.735";
      proof_line (assess (nth 3 systems (uniform_input 0 None None)) (clock 3%nat));
      "" ] /\
  List.length (main clock) = 38%nat.
Proof.
  refine ((fun H => conj H _) _); [rewrite H; reflexivity|].
  unfold main. cbn [assess_all systems nth]. unfold proof_line, assess.
  cbn [proof_hash].
  repeat match goal with
         | |- context [sha256_hex ?x] => generalize (sha256_hex x); intro
         end.
  vm_compute. reflexivity.
Qed.

End ReportLines.

(** ** Rounding the composite *)

Section HalfUp.
Local Open Scope Q_scope.

(** A mantissa of fewer than 54 bits, at an exponent of the format, is its
    own rounding. *)
Lemma binary_round_exact (p : positive) (e : Z) :
  (Zpos p < 2 ^ 53)%Z -> (emin64 <= e <= 0)%Z ->
  nonneg_finite (binary_round prec emax false p e) = true /\
  valid_binary (binary_round prec emax false p e) = true /\
  SF2Q (binary_round prec emax false p e) == inject_Z (Zpos p) * 2 ^ e.
Proof.
  intros Hp He.
  destruct (binary_round_aligned false p e) as [mz [ez [R [Hz Hv]]]].
  destruct (binary_round_aux_locates false (Zpos mz) ez loc_Exact
              (inject_Z (Zpos p) * 2 ^ e)
              ltac:(lia) Hz (locates_exact _ _ _ (Qeq_sym _ _ Hv)))
    as [q [E [m1 [R' [Hc [Hm1 [HE [L1 [L2 Hq]]]]]]]]].
  rewrite R, R'.
  assert (HEe : (E <= e)%Z).
  { destruct (Z.le_gt_cases E e) as [H|H]; [exact H|]. exfalso.
    assert (Hm52 : (2 ^ 52 <= m1)%Z) by (destruct Hc; lia).
    apply (Qlt_irrefl (inject_Z (2 ^ 53) * 2 ^ e)).
    apply Qle_lt_trans with (inject_Z (Zpos p) * 2 ^ e).
    - apply Qle_trans with (inject_Z m1 * 2 ^ E); [|exact L1].
      apply Qle_trans with (inject_Z (2 ^ 52) * 2 ^ (e + 1)).
      + rewrite pow2_add. change (2 ^ 1) with 2.
        change (inject_Z (2 ^ 53)) with (inject_Z (2 ^ 52) * 2).
        apply Qle_lteq. right. ring.
      + apply Qle_trans with (inject_Z (2 ^ 52) * 2 ^ E).
        * apply Qmult_le_l; [reflexivity|]. apply pow2_le. lia.
        * apply Qmult_le_compat_r; [|apply Qlt_le_weak, pow2_pos].
          rewrite <- Zle_Qle. exact Hm52.
    - apply Qmult_pow2_lt. exact Hp. }
  assert (Hgrid : inject_Z (Zpos p) * 2 ^ e == inject_Z m1 * 2 ^ E).
  { pose proof (rescale (Zpos p) E (e - E) ltac:(lia)) as Rs.
    replace (E + (e - E))%Z with e in Rs by lia.
    rewrite Rs in L1, L2 |- *.
    apply Qmult_pow2_le in L1. apply Qmult_pow2_lt in L2.
    replace m1 with (2 ^ (e - E) * Zpos p)%Z by lia. reflexivity. }
  assert (Hqm : q = m1).
  { destruct Hq as [Hq|[_ Hne]]; [exact Hq|]. exfalso. apply Hne. exact Hgrid. }
  subst q.
  destruct (rounded_value m1 E ltac:(lia) ltac:(lia)) as [N V].
  split; [exact N|]. split.
  - apply rounded_valid; try assumption. lia.
  - rewrite V. symmetry. exact Hgrid.
Qed.

(** The number halfway between the integers [j] and [j + 1]. *)
Lemma half_integer_number (j : Z) :
  (0 <= j < 2 ^ 51)%Z ->
  exists C : float, nonneg C /\ F2Q C == inject_Z j + (1 # 2).
Proof.
  intros Hj.
  destruct (binary_round_exact (Z.to_pos (2 * j + 1)) (-1)) as [N [V Hv]].
  - rewrite Z2Pos.id by lia. lia.
  - lia.
  - exists (SF2Prim (binary_round prec emax false (Z.to_pos (2 * j + 1)) (-1))).
    unfold nonneg, F2Q. rewrite Prim2SF_SF2Prim by exact V.
    split; [exact N|]. rewrite Hv, Z2Pos.id by lia.
    change (2 ^ (-1)) with (1 # 2).
    rewrite inject_Z_plus, inject_Z_mult. change (inject_Z 2) with 2.
    change (inject_Z 1) with 1. ring.
Qed.

(** A product by 10000 that is exactly halfway between two integers is
    computed exactly. *)
Lemma product_at_tie (c : float) (j : Z) :
  nonneg c -> (0 <= j < 2 ^ 51)%Z ->
  F2Q c * 10000 == inject_Z j + (1 # 2) ->
  F2Q (c * 10000)%float == inject_Z j + (1 # 2).
Proof.
  intros Nc Hj Hx.
  destruct (half_integer_number j Hj) as [C [NC HC]].
  pose proof (mul_rounds c 10000%float Nc eq_refl) as R.
  assert (E : F2Q c * F2Q 10000%float == F2Q C).
  { rewrite F2Q_10000, Hx, HC. reflexivity. }
  destruct (rounds_to_upper (c * 10000)%float _ C R NC) as [Nt Ht].
  - rewrite E. apply F2Q_nonneg. exact NC.
  - rewrite E. apply Qle_refl.
  - assert (Hl : (C <=? c * 10000)%float = true).
    { apply (rounds_to_lower (c * 10000)%float _ C R NC).
      rewrite E. apply Qle_refl. }
    apply (leb_F2Q C (c * 10000)%float NC Nt) in Hl.
    rewrite <- HC. apply Qle_antisym; assumption.
Qed.

(** A product of a number that is not negative, and not the negative zero,
    by 10000 is not the negative zero. *)
Lemma scaled_not_neg_zero (c : float) :
  nonneg c -> Prim2SF c <> S754_zero true ->
  Prim2SF (c * 10000)%float <> S754_zero true.
Proof.
  unfold nonneg. intros Nc Hc. pose proof (Prim2SF_valid c) as Vc.
  rewrite mul_spec.
  change (Prim2SF 10000%float) with (S754_finite false 5497558138880000 (-39)).
  destruct (Prim2SF c) as [[|]|s| |[|] m e]; try discriminate; try congruence.
  destruct (SFmul_locates m 5497558138880000 e (-39) Vc eq_refl)
    as [m' [e' [l [R [Hm [He Hl]]]]]].
  rewrite R.
  destruct (binary_round_aux_locates false m' e' l _ Hm He Hl)
    as [q [E [m1 [R' _]]]].
  rewrite R'. unfold rounded.
  destruct (q =? 0)%Z; [discriminate|].
  destruct (q =? 2 ^ 53)%Z; [destruct (E + 1 <=? 971)%Z; discriminate|].
  destruct (E <=? 971)%Z; discriminate.
Qed.

(** [Math.round] of such a number is not the negative zero either. *)
Lemma Math_round_not_neg_zero (t : float) :
  nonneg t -> Prim2SF t <> S754_zero true ->
  Prim2SF (Math_round t) <> S754_zero true.
Proof.
  unfold nonneg, Math_round. intros Nt Ht.
  pose proof (Prim2SF_valid t) as V.
  destruct (Prim2SF t) as [[|]|s| |[|] m e] eqn:Et; try discriminate;
    try congruence.
  cbn [valid_binary] in V. destruct (finite_mantissa_bound false m e V) as [Hm He].
  destruct (Z.leb_spec 0 e) as [E0|E0]; [rewrite Et; discriminate|].
  set (n := ((2 * Zpos m + 2 ^ (- e)) / 2 ^ (- e + 1))%Z).
  assert (Hp : (0 < 2 ^ (- e))%Z) by (apply Z.pow_pos_nonneg; lia).
  assert (Hp1 : (2 ^ (- e + 1) = 2 * 2 ^ (- e))%Z).
  { rewrite Z.pow_add_r by lia. lia. }
  assert (D1 : (2 ^ (- e + 1) * n <= 2 * Zpos m + 2 ^ (- e))%Z)
    by (apply Z.mul_div_le; lia).
  assert (D2 : (2 * Zpos m + 2 ^ (- e) < 2 ^ (- e + 1) * (n + 1))%Z).
  { change (n + 1)%Z with (Z.succ n). apply Z.mul_succ_div_gt; lia. }
  assert (H2 : (2 <= 2 ^ (- e))%Z).
  { change 2%Z with (2 ^ 1)%Z at 1. apply Z.pow_le_mono_r; lia. }
  rewrite Hp1 in D1, D2.
  destruct (Z.eqb_spec n 0) as [N0|N0]; [discriminate|].
  destruct (number_of_Z_F2Q n) as [Fn _]; [nia|].
  intros H. unfold F2Q in Fn. rewrite H in Fn. cbn [SF2Q] in Fn.
  apply N0. change 0 with (inject_Z 0) in Fn.
  rewrite inject_Z_injective in Fn. symmetry. exact Fn.
Qed.

End HalfUp.

(** C7, as stated, fails: the composite is not always rounded to the
    nearest value of four decimals.  With every required indicator at
    0.0005 and no cross-theory field, the composite lies strictly between
    0.0004 and 0.00045, so under every tie rule its rounding to four
    decimals is 0.0004, which is also what [toFixed(4)] shows for it.  But
    the product by 10000 is rounded to 4.5 before [Math.round] sees it, and
    the composite score is 0.0005, more than 0.00005 away. *)
Lemma composite_score_not_nearest :
  well_typed (uniform_input 0.0005 None None) /\
  unit_input (uniform_input 0.0005 None None) /\
  ((4 # 10000) < F2Q (composite (uniform_input 0.0005 None None)))%Q /\
  (F2Q (composite (uniform_input 0.0005 None None)) < (45 # 100000))%Q /\
  composite (uniform_input 0.0005 None None) * 10000 = 4.5 /\
  (F2Q (composite (uniform_input 0.0005 None None)) + (1 # 20000)
   < F2Q 0.0005)%Q /\
  forall (rt : Runtime) (now : string),
    composite_score (assess (uniform_input 0.0005 None None) now) = 0.0005 /\
    toFixed (composite (uniform_input 0.0005 None None)) 4 = "0.0004".
Proof.
  split; [apply well_typed_uniform|].
  split; [apply unit_input_uniform; reflexivity || exact I|].
  split; [closed_Q|]. split; [closed_Q|]. split; [vm_compute; reflexivity|].
  split; [closed_Q|].
  intros rt now. split; vm_compute; reflexivity.
Qed.

Section Rounding.
Context {rt : Runtime}.
Local Open Scope Q_scope.

(** What [assess] does to the composite of an input of the unit interval:
    the integer [k] that [Math.round] returns and how far the composite,
    scaled by 10000, can be from it. *)
Lemma composite_score_integer (input : AssessmentInput) (now : string) :
  unit_input input ->
  exists k : Z,
    (0 <= k <= 10000)%Z /\
    k = Qfloor (F2Q (composite input * 10000)%float + (1 # 2)) /\
    Math_round (composite input * 10000) = number_of_Z k /\
    composite_score (assess input now) = (number_of_Z k / 10000)%float /\
    F2Q (composite input) * 10000 - (1 # 549755813888)
    < F2Q (composite input * 10000)%float /\
    F2Q (composite input * 10000)%float
    < F2Q (composite input) * 10000 + (1 # 549755813888).
Proof.
  intros Hin. destruct (composite_unit input Hin) as [Nc Hc].
  destruct (composite_score_cases input now Hin) as [k [Hk [Vr _]]].
  pose proof (F2Q_nonneg _ Nc) as P0.
  assert (H1 : F2Q 1.0000005%float < (3 # 2)) by closed_Q.
  destruct (mul_error (composite input) 10000 14 Nc eq_refl) as [Nt [Lt Ut]].
  { rewrite F2Q_10000. change (2 ^ 14) with 16384. lra. }
  { lia. }
  change (Z.max (14 - 53) emin64) with (-39)%Z in Lt, Ut.
  assert (P39 : 2 ^ (-39) == 1 # 549755813888) by reflexivity.
  rewrite F2Q_10000, P39 in Lt, Ut.
  assert (Zt : Prim2SF (composite input * 10000)%float <> S754_zero true).
  { apply scaled_not_neg_zero; [exact Nc|apply composite_not_neg_zero]. }
  pose proof (Math_round_nonneg _ Nt) as Nr.
  pose proof (Math_round_not_neg_zero _ Nt Zt) as Zr.
  assert (Er : Math_round (composite input * 10000) = number_of_Z k).
  { destruct (integer_number _ k Nr Vr) as [Er|[_ Er]]; [lia|exact Er|].
    exfalso. apply Zr. rewrite Er. reflexivity. }
  exists k. split; [exact Hk|]. split; [|split; [exact Er|split; [|split]]].
  - rewrite (Math_round_value (composite input * 10000)) in Vr.
    rewrite inject_Z_injective in Vr. symmetry. exact Vr.
  - cbn [assess composite_score]. rewrite Er. reflexivity.
  - exact Lt.
  - exact Ut.
Qed.

(** C7, amended.  For every input the composite score is
    [Math.round(composite * 10000) / 10000] in binary64 arithmetic, and
    [Math.round] takes the product, as binary64 has it, to the integer
    nearest to it, a tie going up.  For an input of the unit interval the
    score is the quotient [k / 10000], within 2^-52 of that fraction, for
    an integer [k] from 0 to 10000 that is within 1/2 + 2^-39 of the
    composite scaled by 10000.  It is the composite rounded to four
    decimals whenever the scaled composite is at least 2^-39 away from
    every point halfway between two integers; and a composite exactly
    halfway between two values of four decimals goes to the larger one. *)
Theorem composite_score_rounding (input : AssessmentInput) (now : string) :
  composite_score (assess input now)
  = (Math_round (composite input * 10000) / 10000)%float /\
  (forall t : float,
     F2Q (Math_round t) == inject_Z (Qfloor (F2Q t + (1 # 2)))) /\
  (unit_input input ->
   exists k : Z,
     (0 <= k <= 10000)%Z /\
     k = Qfloor (F2Q (composite input * 10000)%float + (1 # 2)) /\
     Math_round (composite input * 10000) = number_of_Z k /\
     composite_score (assess input now) = (number_of_Z k / 10000)%float /\
     inject_Z k * (1 # 10000) - (1 # 4503599627370496)
     < F2Q (composite_score (assess input now)) /\
     F2Q (composite_score (assess input now))
     < inject_Z k * (1 # 10000) + (1 # 4503599627370496) /\
     inject_Z k - (1 # 2) - (1 # 549755813888) < F2Q (composite input) * 10000 /\
     F2Q (composite input) * 10000 < inject_Z k + (1 # 2) + (1 # 549755813888) /\
     (forall j : Z,
        inject_Z j - (1 # 2) + (1 # 549755813888) <= F2Q (composite input) * 10000 ->
        F2Q (composite input) * 10000 <= inject_Z j + (1 # 2) - (1 # 549755813888) ->
        k = j) /\
     (forall j : Z,
        F2Q (composite input) * 10000 == inject_Z j + (1 # 2) -> k = (j + 1)%Z)).
Proof.
  split; [reflexivity|]. split; [apply Math_round_value|]. intros Hin.
  destruct (composite_unit input Hin) as [Nc Hc].
  destruct (composite_score_integer input now Hin)
    as [k [Hk [Hf [Er [Es [Lt Ut]]]]]].
  pose proof (F2Q_nonneg _ Nc) as P0.
  assert (H1 : F2Q 1.0000005%float < (3 # 2)) by closed_Q.
  pose proof (Qfloor_le (F2Q (composite input * 10000)%float + (1 # 2))) as F1.
  pose proof (Qlt_floor (F2Q (composite input * 10000)%float + (1 # 2))) as F2.
  rewrite inject_Z_plus in F2. change (inject_Z 1) with 1 in F2.
  rewrite <- Hf in F1, F2.
  destruct (quotient_near k Hk) as [_ [Lq Uq]].
  exists k. split; [exact Hk|]. split; [exact Hf|]. split; [exact Er|].
  split; [exact Es|]. rewrite Es.
  split; [exact Lq|]. split; [exact Uq|]. split; [lra|]. split; [lra|]. split.
  - intros j Hlo Hhi.
    assert (A : inject_Z j < inject_Z (k + 1)).
    { rewrite inject_Z_plus. change (inject_Z 1) with 1. lra. }
    assert (B : inject_Z k < inject_Z (j + 1)).
    { rewrite inject_Z_plus. change (inject_Z 1) with 1. lra. }
    rewrite <- Zlt_Qlt in A, B. lia.
  - intros j Hj.
    assert (A : inject_Z (-1) < inject_Z j).
    { change (inject_Z (-1)) with (-1). lra. }
    assert (B : inject_Z j < inject_Z 20000).
    { change (inject_Z 20000) with 20000. lra. }
    rewrite <- Zlt_Qlt in A, B.
    pose proof (product_at_tie (composite input) j Nc ltac:(lia) Hj) as Ht.
    rewrite Hf, Ht.
    assert (E : inject_Z j + (1 # 2) + (1 # 2) == inject_Z (j + 1)).
    { rewrite inject_Z_plus. change (inject_Z 1) with 1. ring. }
    rewrite E. apply Qfloor_Z.
Qed.

End Rounding.

(** Half up at a tie: with every indicator at 1/32 the composite is 1/32,
    exactly halfway between 0.0312 and 0.0313, and the composite score is
    0.0313. *)
Lemma composite_score_rounding_witness :
  unit_input (uniform_input 0.03125 (Some 0.03125) (Some 0.03125)) /\
  (F2Q (composite (uniform_input 0.03125%float (Some 0.03125%float)
                                 (Some 0.03125%float))) * 10000
   == inject_Z 312 + (1 # 2))%Q /\
  composite_score (assess (rt := example_host)
                     (uniform_input 0.03125 (Some 0.03125) (Some 0.03125)) "now")
  = number_of_Z 313 / 10000 /\
  number_of_Z 313 / 10000 = 0.0313.
Proof.
  assert (H : unit_input (uniform_input 0.03125 (Some 0.03125) (Some 0.03125))).
  { apply unit_input_uniform; reflexivity. }
  assert (T : (F2Q (composite (uniform_input 0.03125%float (Some 0.03125%float)
                                             (Some 0.03125%float))) * 10000
               == inject_Z 312 + (1 # 2))%Q) by (vm_compute; reflexivity).
  split; [exact H|]. split; [exact T|]. split; [|reflexivity].
  destruct (proj2 (proj2 (composite_score_rounding (rt := example_host)
                            (uniform_input 0.03125 (Some 0.03125) (Some 0.03125))
                            "now")) H)
    as [k [_ [_ [_ [Es [_ [_ [_ [_ [_ Tie]]]]]]]]]].
  rewrite Es, (Tie 312%Z T). reflexivity.
Defined.
